(** * dhruva shell (dsh): the read - parse - dispatch - execute cycle

    A shallow embedding of the shell's C source ([dsh_launch],
    [dsh_split_line], [dsh_read_line], [dsh_loop] and [main]; the loop and
    [main] are also in [src/main.c]) and the properties of its line reader,
    tokenizer, launcher and loop.  The dispatcher [dsh_execute] and the
    built-ins are called by the loop but are not part of the source at
    hand; they are modelled from the specification and marked as such.

    Conventions of the embedding.
    - A C [int] is a [Z] in the range [INT_MIN .. INT_MAX]; an arithmetic
      operation whose mathematical result leaves that range is undefined
      behaviour in C and halts the model with [Undefined SignedOverflow].
    - A [size_t] is a [Z] modulo [2^64] (LP64).
    - A heap block is a list of cells; a cell is [None] while its content is
      indeterminate (just obtained from [malloc] or [realloc]) and [Some v] once
      written.  Loads and stores are bounds-checked: the model halts with
      [Undefined OutOfBoundsStore] (resp. [OutOfBoundsLoad]) exactly where the
      C program would touch memory outside the block.
    - Everything the operating system decides (whether an allocation is
      granted, where a block lies, what [fork], [execvp], [waitpid] and
      [chdir] answer) is read from a [system] record the definitions are
      parameterised by.
    - The source includes no <string.h>: at its two calls [strtok] has no
      declaration in scope and is compiled as a function that returns
      [int].  The token that reaches [dsh_split_line] is the pointer
      [strtok] returns after a passage through [int] (the low 32 bits,
      sign-extended to the 64 bits of a pointer); it is the pointer itself
      exactly when its address is one an [int] can hold. *)

From Stdlib Require Import ZArith Ascii String Lia.
From stdpp Require Import base list.

Local Open Scope Z_scope.

(** ** Characters, strings, output *)

Definition NUL : ascii := "000"%char.
Definition newline : ascii := "010"%char.

(** [getchar] returns an [int]: the character as an [unsigned char], or [EOF]. *)
Definition EOF : Z := -1.
Definition int_of_char (c : ascii) : Z := Z.of_N (N_of_ascii c).
Definition char_of_int (c : Z) : ascii := ascii_of_N (Z.to_N (c mod 256)).

Definition EXIT_SUCCESS : Z := 0.
Definition EXIT_FAILURE : Z := 1.

Definition INT_MAX : Z := 2147483647.
Definition INT_MIN : Z := -2147483648.
Definition SIZE_MODULUS : Z := 2 ^ 64.
Definition size_t (n : Z) : Z := n mod SIZE_MODULUS.
Definition sizeof_char : Z := 1.
Definition sizeof_char_ptr : Z := 8.

(** What the process writes to a stream: literal text, or the line that
    [perror(prefix)] prints (the prefix, a colon, and the system's text for
    the current [errno]). *)
Inductive output : Type :=
| Text (s : string)
| Perror (prefix : string)
| Usage (builtin : string)     (* usage diagnostic of a built-in *)
| Banner.                      (* usage banner of the help built-in *)

Definition LF : string := String newline EmptyString.

(** ** The world the shell runs in *)

(** The state of one process, the one that runs the function at hand: what
    it has still to read, what it has written, the requests it has made to
    the allocator, the calls of fork() it has made and its working
    directory.  A child that [fork] creates is another process; it shares
    the open files of its parent, and what it does to them (what it writes
    to the terminal, what it reads from the input, where its [exit] leaves
    the offset of an input file) is not recorded in the world of the
    parent. *)
Record world : Type := World {
  stdin : list ascii;              (* characters this process has not yet read *)
  stdout : list output;            (* what this process has written to stdout *)
  stderr : list output;            (* what this process has written to stderr *)
  heap_log : list (Z * bool);      (* allocation requests: bytes, granted? *)
  forks : nat;                     (* number of fork() calls made so far *)
  cwd : list ascii                 (* working directory of the process *)
}.

Definition set_stdin (s : list ascii) (w : world) : world :=
  World s (stdout w) (stderr w) (heap_log w) (forks w) (cwd w).
Definition put_stdout (o : output) (w : world) : world :=
  World (stdin w) (stdout w ++ [o]) (stderr w) (heap_log w) (forks w) (cwd w).
Definition put_stderr (o : output) (w : world) : world :=
  World (stdin w) (stdout w) (stderr w ++ [o]) (heap_log w) (forks w) (cwd w).
Definition log_request (r : Z * bool) (w : world) : world :=
  World (stdin w) (stdout w) (stderr w) (heap_log w ++ [r]) (forks w) (cwd w).
Definition count_fork (w : world) : world :=
  World (stdin w) (stdout w) (stderr w) (heap_log w) (S (forks w)) (cwd w).
Definition set_cwd (d : list ascii) (w : world) : world :=
  World (stdin w) (stdout w) (stderr w) (heap_log w) (forks w) d.

(** The answers of the operating system and of the C library's allocator. *)
Record system : Type := System {
  (* is the [k]-th allocation request, for [bytes] bytes, granted? *)
  heap_grants : nat -> Z -> bool;
  (* return value of the [k]-th call of fork(): 0 in the child, negative on
     failure, the child's pid in the parent *)
  fork_pid : nat -> Z;
  (* does execvp(file, argv) replace the image of the child? *)
  execvp_ok : list ascii -> bool;
  (* what the successive waitpid() calls on the child [pid] store in
     [status]: [Some s] for a reported status, [None] when the call fails
     and leaves [status] untouched *)
  wait_reports : Z -> list (option Z);
  (* <sys/wait.h> *)
  WIFEXITED : Z -> bool;
  WIFSIGNALED : Z -> bool;
  (* chdir(path) from the working directory [cwd]: the new working
     directory, or [None] when the call fails *)
  chdir_to : list ascii -> list ascii -> option (list ascii);
  (* the address of the block that holds the line handed to
     [dsh_split_line], [k] allocation requests having been made before the
     call (in [dsh_loop], the pointer that the last [malloc] or [realloc]
     of [dsh_read_line] returned) *)
  line_address : nat -> Z
}.

(** ** Results and the monad of the embedding *)

Inductive undefined : Type :=
| SignedOverflow
| OutOfBoundsStore
| OutOfBoundsLoad
| IndeterminateRead
| NullDereference.

Inductive halt : Type :=
| Exit (code : Z)                              (* exit(code) *)
| Exec (file : list ascii) (argv : list (list ascii))
                                               (* execvp replaced the image *)
| Blocked                                      (* waitpid is never answered *)
| Undefined (u : undefined)                    (* undefined behaviour *)
| Unfinished.                                  (* loop budget of the model spent *)

Inductive result (A : Type) : Type :=
| Ok (a : A) (w : world)
| Halt (h : halt) (w : world).
Arguments Ok {A} a w.
Arguments Halt {A} h w.

Definition M (A : Type) : Type := world -> result A.

Definition ret {A} (a : A) : M A := fun w => Ok a w.
Definition bind {A B} (m : M A) (k : A -> M B) : M B :=
  fun w => match m w with
           | Ok a w' => k a w'
           | Halt h w' => Halt h w'
           end.
Definition stop {A} (h : halt) : M A := fun w => Halt h w.

Notation "'do' x <- m ; k" := (bind m (fun x => k))
  (at level 10, x name, m at level 100, k at level 200, only parsing).

Definition exit {A} (code : Z) : M A := stop (Exit code).
Definition printf (s : string) : M unit := fun w => Ok tt (put_stdout (Text s) w).
Definition fprintf_stderr (s : string) : M unit :=
  fun w => Ok tt (put_stderr (Text s) w).
Definition perror (prefix : string) : M unit :=
  fun w => Ok tt (put_stderr (Perror prefix) w).

Definition getchar : M Z :=
  fun w => match stdin w with
           | [] => Ok EOF w
           | c :: rest => Ok (int_of_char c) (set_stdin rest w)
           end.

(** [int] addition. *)
Definition int_add (a b : Z) : M Z :=
  if bool_decide (INT_MIN <= a + b <= INT_MAX) then ret (a + b)
  else stop (Undefined SignedOverflow).

(** ** Heap blocks *)

Abbreviation memblock A := (list (option A)).

Definition store {A} (b : memblock A) (i : Z) (v : A) : M (memblock A) :=
  if bool_decide (0 <= i < Z.of_nat (length b))
  then ret (<[Z.to_nat i := Some v]> b)
  else stop (Undefined OutOfBoundsStore).

Definition load {A} (b : memblock A) (i : Z) : M A :=
  if bool_decide (0 <= i < Z.of_nat (length b))
  then match b !! Z.to_nat i with
       | Some (Some v) => ret v
       | _ => stop (Undefined IndeterminateRead)
       end
  else stop (Undefined OutOfBoundsLoad).

(** What an iteration of a loop does next. *)
Inductive step (S R : Type) : Type :=
| Continue (s : S)
| Return (r : R).
Arguments Continue {S R} s.
Arguments Return {S R} r.

Section Shell.

Variable sys : system.

Definition request (bytes : Z) : M bool :=
  fun w => let ok := heap_grants sys (length (heap_log w)) bytes in
           Ok ok (log_request (bytes, ok) w).

(** [malloc(bytes)] for an array of elements of size [elem]: [None] is the
    null pointer. *)
Definition malloc {A} (elem bytes : Z) : M (option (memblock A)) :=
  do ok <- request bytes;
  ret (if ok then Some (replicate (Z.to_nat (bytes / elem)) None) else None).

(** [realloc(old, bytes)]: on success the common prefix is kept and the
    rest is indeterminate. *)
Definition realloc {A} (elem : Z) (old : memblock A) (bytes : Z) : M (option (memblock A)) :=
  do ok <- request bytes;
  ret (if ok then Some (resize (Z.to_nat (bytes / elem)) None old) else None).

(** ** The line reader: [dsh_read_line] *)

Definition DSH_RL_BUFSIZE : Z := 1024.

Definition allocation_error : string := "dsh: allocation error" ++ LF.

(** The body of [while (1)]. *)
Definition read_iteration (bufsize position : Z) (buffer : memblock ascii)
  : M (step (Z * Z * memblock ascii) (memblock ascii)) :=
  do c <- getchar;
  if (c =? EOF) || (c =? int_of_char newline) then
    do buffer <- store buffer position NUL;
    ret (Return buffer)
  else
    do buffer <- store buffer position (char_of_int c);
    do position <- int_add position 1;
    if position >=? bufsize then
      do bufsize <- int_add bufsize DSH_RL_BUFSIZE;
      do buffer <- realloc sizeof_char buffer (size_t bufsize);
      match buffer with
      | None => do _ <- fprintf_stderr allocation_error; exit EXIT_FAILURE
      | Some buffer => ret (Continue (bufsize, position, buffer))
      end
    else ret (Continue (bufsize, position, buffer)).

Fixpoint read_loop (fuel : nat) (bufsize position : Z) (buffer : memblock ascii)
  : M (memblock ascii) :=
  match fuel with
  | O => stop Unfinished
  | S fuel =>
    do next <- read_iteration bufsize position buffer;
    match next with
    | Return buffer => ret buffer
    | Continue (bufsize, position, buffer) =>
      read_loop fuel bufsize position buffer
    end
  end.

(** One iteration of [while (1)] consumes one character or returns, so
    one more iteration than there are characters on [stdin] is enough. *)
Definition dsh_read_line : M (memblock ascii) :=
  fun w =>
  (let bufsize := DSH_RL_BUFSIZE in
   let position := 0 in
   do buffer <- malloc sizeof_char (size_t (sizeof_char * bufsize));
   match buffer with
   | None => do _ <- fprintf_stderr allocation_error; exit EXIT_FAILURE
   | Some buffer => read_loop (S (length (stdin w))) bufsize position buffer
   end) w.

(** ** The tokenizer: [dsh_split_line] *)

Definition DSH_TOK_BUFSIZE : Z := 64.
Definition DSH_TOK_DELIM : list ascii :=
  [" "%char; "009"%char; "013"%char; "010"%char; "007"%char].

(** A [char *]: the null pointer, a pointer into the line's block (by
    offset), or any other address. *)
Inductive pointer : Type :=
| NULL
| Ptr (ofs : nat)
| Wild (value : Z).

(** Is [c] one of the characters of the string [set]? *)
Definition char_in (set : list ascii) (c : ascii) : bool :=
  existsb (Ascii.eqb c) set.

(** [strspn] and [strcspn] of <string.h>, on the cells from the pointer on:
    the length of the longest prefix of the string all of whose characters
    are in [set] ([keep = true]) or not in [set] ([keep = false]).  The
    scan ends at the terminating NUL; running off the block or into an
    indeterminate cell is undefined. *)
Fixpoint span (keep : bool) (set : list ascii) (cells : memblock ascii) : M nat :=
  match cells with
  | [] => stop (Undefined OutOfBoundsLoad)
  | None :: _ => stop (Undefined IndeterminateRead)
  | Some c :: cells =>
    if Ascii.eqb c NUL then ret O
    else if Bool.eqb (char_in set c) keep then
      do n <- span keep set cells; ret (S n)
    else ret O
  end.

Definition strspn (line : memblock ascii) (s : nat) (set : list ascii) : M nat :=
  span true set (drop s line).
Definition strcspn (line : memblock ascii) (s : nat) (set : list ascii) : M nat :=
  span false set (drop s line).

(** [strtok] of <string.h> (ISO C 7.24.5.8).  The saved pointer, a static
    variable of the C library, is passed and returned explicitly; the call
    returns the token, the line's block (a delimiter may have been
    overwritten by NUL) and the new saved pointer. *)
Definition strtok (line : memblock ascii) (s : pointer) (delim : list ascii)
  (save : pointer) : M (pointer * memblock ascii * pointer) :=
  match (match s with NULL => save | _ => s end) with
  | NULL => stop (Undefined NullDereference)
  | Wild _ => stop (Undefined OutOfBoundsLoad)
  | Ptr s =>
    do n <- strspn line s delim;
    let s := (s + n)%nat in
    do c <- load line (Z.of_nat s);
    if Ascii.eqb c NUL then ret (NULL, line, Ptr s)
    else
      do n <- strcspn line s delim;
      let e := (s + n)%nat in
      do c <- load line (Z.of_nat e);
      if Ascii.eqb c NUL then ret (Ptr s, line, Ptr e)
      else
        do line <- store line (Z.of_nat e) NUL;
        ret (Ptr s, line, Ptr (S e))
  end.

(** ** The call of [strtok] without a declaration *)

Definition INT_MODULUS : Z := 2 ^ 32.

(** The numeric value of a pointer, the line's block lying at [address]. *)
Definition pointer_value (address : Z) (p : pointer) : Z :=
  match p with
  | NULL => 0
  | Ptr ofs => address + Z.of_nat ofs
  | Wild value => value
  end.

(** The pointer whose numeric value is [value], the line's block having
    [cells] cells from [address] on. *)
Definition pointer_of_value (address : Z) (cells : nat) (value : Z) : pointer :=
  if value =? 0 then NULL
  else if (address <=? value) && (value <=? address + Z.of_nat cells)
       then Ptr (Z.to_nat (value - address))
       else Wild value.

(** Conversion to [int]: the low 32 bits, in two's complement. *)
Definition int_of_value (value : Z) : Z :=
  (value + 2 ^ 31) mod INT_MODULUS - 2 ^ 31.

(** What becomes of a pointer that is returned as an [int] and assigned to
    a [char *]: the [int] is sign-extended to the width of a pointer. *)
Definition through_int (address : Z) (cells : nat) (p : pointer) : pointer :=
  pointer_of_value address cells (size_t (int_of_value (pointer_value address p))).

(** [token = strtok(s, delim)] as the source compiles it: no declaration
    of [strtok] is in scope (<string.h> is not included), so the call is
    one of a function that returns [int]. *)
Definition strtok_as_int (address : Z) (line : memblock ascii) (s : pointer)
  (delim : list ascii) (save : pointer) : M (pointer * memblock ascii * pointer) :=
  do found <- strtok line s delim save;
  let '(token, line, save) := found in
  ret (through_int address (length line) token, line, save).

(** The body of [while (token != NULL)]; [address] is where the line's
    block lies. *)
Definition split_iteration (address : Z) (bufsize position : Z)
  (tokens : memblock pointer)
  (token : pointer) (line : memblock ascii) (save : pointer)
  : M (Z * Z * memblock pointer * pointer * memblock ascii * pointer) :=
  do tokens <- store tokens position token;
  do position <- int_add position 1;
  do grown <-
    (if position >=? bufsize then
       do bufsize <- int_add bufsize DSH_TOK_BUFSIZE;
       do tokens <- realloc sizeof_char_ptr tokens
                      (size_t (size_t bufsize * sizeof_char_ptr));
       match tokens with
       | None => do _ <- fprintf_stderr allocation_error; exit EXIT_FAILURE
       | Some tokens => ret (bufsize, tokens)
       end
     else ret (bufsize, tokens));
  let '(bufsize, tokens) := grown in
  do next <- strtok_as_int address line NULL DSH_TOK_DELIM save;
  let '(token, line, save) := next in
  ret (bufsize, position, tokens, token, line, save).

Fixpoint split_loop (address : Z) (fuel : nat) (bufsize position : Z)
  (tokens : memblock pointer)
  (token : pointer) (line : memblock ascii) (save : pointer)
  : M (memblock pointer * memblock ascii) :=
  match fuel with
  | O => stop Unfinished
  | S fuel =>
    match token with
    | NULL =>
      do tokens <- store tokens position NULL;
      ret (tokens, line)
    | _ =>
      do next <- split_iteration address bufsize position tokens token line save;
      let '(bufsize, position, tokens, token, line, save) := next in
      split_loop address fuel bufsize position tokens token line save
    end
  end.

(** Every token holds at least one character of the line, so there are at
    most as many iterations as the block has cells, and one more to leave
    the loop.  The result is the token array together with the line's
    block, which the C function modifies in place. *)
Definition dsh_split_line (line : memblock ascii) : M (memblock pointer * memblock ascii) :=
  fun w =>
  (let address := line_address sys (length (heap_log w)) in
   let bufsize := DSH_TOK_BUFSIZE in
   let position := 0 in
   do tokens <- malloc sizeof_char_ptr (size_t (size_t bufsize * sizeof_char_ptr));
   match tokens with
   | None => do _ <- fprintf_stderr allocation_error; exit EXIT_FAILURE
   | Some tokens =>
     do first <- strtok_as_int address line (Ptr 0) DSH_TOK_DELIM NULL;
     let '(token, line, save) := first in
     split_loop address (S (length line)) bufsize position tokens token line save
   end) w.

(** ** Reading a token array back *)

(** The C string at the head of [cells]. *)
Fixpoint string_at (cells : memblock ascii) : M (list ascii) :=
  match cells with
  | [] => stop (Undefined OutOfBoundsLoad)
  | None :: _ => stop (Undefined IndeterminateRead)
  | Some c :: cells =>
    if Ascii.eqb c NUL then ret []
    else do s <- string_at cells; ret (c :: s)
  end.

Definition deref (line : memblock ascii) (p : pointer) : M (list ascii) :=
  match p with
  | NULL => stop (Undefined NullDereference)
  | Ptr s => string_at (drop s line)
  | Wild _ => stop (Undefined OutOfBoundsLoad)
  end.

(** The strings of a NULL-terminated array of pointers, up to the end marker. *)
Fixpoint argv_of (line : memblock ascii) (args : memblock pointer) : M (list (list ascii)) :=
  match args with
  | [] => stop (Undefined OutOfBoundsLoad)
  | None :: _ => stop (Undefined IndeterminateRead)
  | Some NULL :: _ => ret []
  | Some p :: args =>
    do s <- deref line p;
    do rest <- argv_of line args;
    ret (s :: rest)
  end.

(** ** The external program launcher: [dsh_launch] *)

(** [fork()] as the calling process sees it: the call is counted and its
    return value is the system's answer.  The process that gets 0 is the
    child (the same definitions, run with a system that answers 0); the
    process that gets a pid goes on in its own world. *)
Definition fork : M Z :=
  fun w => Ok (fork_pid sys (forks w)) (count_fork w).

(** [execvp(args[0], args)]: does not return when it succeeds. *)
Definition execvp (file : pointer) (args : memblock pointer) (line : memblock ascii) : M Z :=
  do file <- deref line file;
  do argv <- argv_of line args;
  if execvp_ok sys file then stop (Exec file argv) else ret (-1).

(** do { wpid = waitpid(pid, &status, WUNTRACED); }
    while (!WIFEXITED(status) && !WIFSIGNALED(status));
    [reports] is what the successive calls will store in [status]. *)
Fixpoint wait_loop (reports : list (option Z)) (status : option Z) : M unit :=
  match reports with
  | [] => stop Blocked
  | report :: reports =>
    let status := match report with Some s => Some s | None => status end in
    match status with
    | None => stop (Undefined IndeterminateRead)
    | Some s =>
      if negb (WIFEXITED sys s) && negb (WIFSIGNALED sys s)
      then wait_loop reports status
      else ret tt
    end
  end.

Definition dsh_launch (args : memblock pointer) (line : memblock ascii) : M Z :=
  do pid <- fork;
  do _ <-
    (if pid =? 0 then
       do arg0 <- load args 0;
       do r <- execvp arg0 args line;
       do _ <- (if r =? -1 then perror "dsh" else ret tt);
       exit EXIT_FAILURE
     else if pid <? 0 then
       perror "dsh"
     else
       wait_loop (wait_reports sys pid) None);
  ret 1.

(** ** The command dispatcher *)

(** Modelled from the spec: the change of the working directory that the
    built-in [cd] asks the system for (its call is not in src/). *)
Definition chdir (path : list ascii) : M Z :=
  fun w => match chdir_to sys (cwd w) path with
           | Some d => Ok 0 (set_cwd d w)
           | None => Ok (-1) w
           end.

(** Modelled from the spec: the comparison of token 0 with a built-in
    name, [strcmp(a, b) == 0] (exact, case-sensitive equality); its use in
    the dispatcher is not in src/. *)
Fixpoint streq (a b : list ascii) : bool :=
  match a, b with
  | [], [] => true
  | x :: a, y :: b => Ascii.eqb x y && streq a b
  | _, _ => false
  end.

(** Modelled from the spec: the type of a built-in's handler (not in
    src/): it gets the token array and returns the continue/stop signal. *)
Definition handler : Type := memblock pointer -> memblock ascii -> M Z.

(** Modelled from the spec: the built-in [cd] (its definition is not in
    src/).  Token 1 is the directory; when it is absent a usage diagnostic
    is emitted and nothing changes; when the change of directory fails an
    error diagnostic is emitted.  The signal is always continue. *)
Definition dsh_cd : handler := fun args line =>
  do arg1 <- load args 1;
  do _ <-
    match arg1 with
    | NULL => fun w => Ok tt (put_stderr (Usage "cd") w)
    | _ =>
      do dir <- deref line arg1;
      do r <- chdir dir;
      if r =? 0 then ret tt else perror "dsh"
    end;
  ret 1.

(** Modelled from the spec: the table of built-in names (its definition is
    not in src/), in its fixed order. *)
Definition builtin_str : list string := ["cd"; "help"; "exit"]%string.

(** Modelled from the spec: the built-in [help] (its definition is not in
    src/) prints a usage banner and the list of built-in names; the signal
    is continue. *)
Definition dsh_help : handler := fun args line =>
  do _ <- (fun w => Ok tt (put_stdout Banner w));
  do _ <- (fun w => Ok tt (fold_left (fun w n => put_stdout (Text n) w) builtin_str w));
  ret 1.

(** Modelled from the spec: the built-in [exit] (its definition is not in
    src/) has no side effect and signals stop. *)
Definition dsh_exit : handler := fun args line => ret 0.

(** Modelled from the spec: the handlers of the built-ins (not in src/),
    in the order of [builtin_str]. *)
Definition builtin_func : list handler := [dsh_cd; dsh_help; dsh_exit].

(** Modelled from the spec: the linear search of the built-in table
    (not in src/): exact, case-sensitive comparison, in table order, first
    match wins. *)
Fixpoint find_builtin (name : list ascii) (names : list string)
  (funcs : list handler) : option handler :=
  match names, funcs with
  | n :: names, f :: funcs =>
    if streq name (list_ascii_of_string n) then Some f
    else find_builtin name names funcs
  | _, _ => None
  end.

(** Modelled from the spec: the dispatcher [dsh_execute] (called by
    [dsh_loop]; its definition is not in src/).  An empty token sequence is
    a no-op that signals continue; a built-in name runs its handler; any
    other command goes to [dsh_launch]. *)
Definition dsh_execute (args : memblock pointer) (line : memblock ascii) : M Z :=
  do arg0 <- load args 0;
  match arg0 with
  | NULL => ret 1
  | _ =>
    do name <- deref line arg0;
    match find_builtin name builtin_str builtin_func with
    | Some f => f args line
    | None => dsh_launch args line
    end
  end.

(** ** The main loop: [dsh_loop] *)

Definition prompt : string := "dhruva > ".

(** Blocks are values of the model: releasing one has no further effect. *)
Definition free {A} (b : memblock A) : M unit := ret tt.

(** do { ... } while (status); at most [fuel] iterations are run. *)
Fixpoint dsh_loop (fuel : nat) : M unit :=
  match fuel with
  | O => stop Unfinished
  | S fuel =>
    do _ <- printf prompt;
    do line <- dsh_read_line;
    do parsed <- dsh_split_line line;
    let '(args, line) := parsed in
    do status <- dsh_execute args line;
    do _ <- free line;
    do _ <- free args;
    if status =? 0 then ret tt else dsh_loop fuel
  end.

Definition main (fuel : nat) : M Z :=
  do _ <- dsh_loop fuel;
  ret EXIT_SUCCESS.

End Shell.

(** ** Notions used to state the properties *)

(** One past the longest line [dsh_read_line] can hold: when [position]
    reaches this value, [bufsize += DSH_RL_BUFSIZE] leaves the range of
    [int]. *)
Definition READ_LIMIT : Z := INT_MAX - DSH_RL_BUFSIZE + 1.

(** One past the largest number of tokens [dsh_split_line] can store. *)
Definition TOKEN_LIMIT : Z := INT_MAX - DSH_TOK_BUFSIZE + 1.

(** What follows a line on the input stream: nothing (end of stream) or a
    newline and more input. *)
Definition ends_line (tail : list ascii) : Prop :=
  tail = [] \/ exists rest, tail = newline :: rest.

(** Nothing was printed, no process was created, and the working directory
    is the same. *)
Definition same_process (w w' : world) : Prop :=
  stdout w' = stdout w /\ stderr w' = stderr w /\ forks w' = forks w /\ cwd w' = cwd w.

Definition world_of {A} (r : result A) : world :=
  match r with Ok _ w | Halt _ w => w end.

(** Every allocation request made between [w] and [w'] was granted. *)
Definition all_granted (w w' : world) : Prop :=
  exists reqs, heap_log w' = heap_log w ++ reqs /\ Forall (fun r => snd r = true) reqs.

(** Between [w] and [w'] the last allocation request, and only that one,
    was denied, and the diagnostic is the only thing written to stderr. *)
Definition fatal_allocation (w w' : world) : Prop :=
  stderr w' = stderr w ++ [Text allocation_error] /\
  exists reqs bytes,
    heap_log w' = heap_log w ++ reqs ++ [(bytes, false)] /\
    Forall (fun r => snd r = true) reqs.

(** Some allocation request made between [w] and [w'] was denied. *)
Definition denied_between (w w' : world) : Prop :=
  exists bytes, (bytes, false) ∈ drop (length (heap_log w)) (heap_log w').

(** What a run that starts in [w] may end in, as far as allocation goes:
    [exit(EXIT_FAILURE)] right after the diagnostic of the first denied
    request, or any other end with every request granted and nothing
    written to stderr. *)
Definition allocation_discipline {A} (w : world) (r : result A) : Prop :=
  match r with
  | Halt (Exit code) w' => code = EXIT_FAILURE /\ fatal_allocation w w'
  | Ok _ w' | Halt _ w' => all_granted w w' /\ stderr w' = stderr w
  end.

(** Ends of the reader's loop: a line, the fatal allocation error, or the
    signed overflow of [bufsize]; never a store outside the buffer. *)
Definition reader_end (position : Z) (buffer : memblock ascii) (r : result (memblock ascii))
  : Prop :=
  match r with
  | Ok buffer' _ => take (Z.to_nat position) buffer' = take (Z.to_nat position) buffer
  | Halt (Exit _) _ | Halt (Undefined SignedOverflow) _ => True
  | Halt _ _ => False
  end.

Definition is_delim (c : ascii) : bool := char_in DSH_TOK_DELIM c.

(** A character of a token: neither a delimiter nor the terminator. *)
Definition token_char (c : ascii) : Prop := is_delim c = false /\ c <> NUL.
Definition delim_char (c : ascii) : Prop := is_delim c = true.

(** [maximal_runs s ts]: the string [s] is made of the tokens [ts], in this
    order, each a non-empty run of token characters that is bounded on both
    sides by a delimiter or by an end of [s]. *)
Inductive maximal_runs : list ascii -> list (list ascii) -> Prop :=
| runs_none d :
    Forall delim_char d -> maximal_runs d []
| runs_last d t :
    Forall delim_char d -> t <> [] -> Forall token_char t ->
    maximal_runs (d ++ t) [t]
| runs_more d t c rest ts :
    Forall delim_char d -> t <> [] -> Forall token_char t -> delim_char c ->
    maximal_runs rest ts ->
    maximal_runs (d ++ t ++ c :: rest) (t :: ts).

(** The memory of a line: the characters of a C string, its terminator, and
    whatever the rest of the block holds. *)
Definition line_memory (s : list ascii) (junk : memblock ascii) : memblock ascii :=
  map Some s ++ Some NUL :: junk.

(** Tokens joined by single spaces. *)
Fixpoint join (ts : list (list ascii)) : list ascii :=
  match ts with
  | [] => []
  | [t] => t
  | t :: ts => t ++ " "%char :: join ts
  end.

Definition starts_with_delim (s : list ascii) : bool :=
  match s with
  | c :: _ => is_delim c
  | [] => false
  end.

Definition ends_with_delim (s : list ascii) : bool :=
  match last s with
  | Some c => is_delim c
  | None => false
  end.

Fixpoint has_adjacent_delims (s : list ascii) : bool :=
  match s with
  | c :: rest =>
    (is_delim c && starts_with_delim rest) || has_adjacent_delims rest
  | [] => false
  end.

(** A call that only reads: it returns in the same world, or stops on a
    load outside the block or of an indeterminate cell. *)
Definition reads_only {A} (w : world) (r : result A) (post : A -> Prop) : Prop :=
  match r with
  | Ok a w' => w' = w /\ post a
  | Halt (Undefined OutOfBoundsLoad) w' | Halt (Undefined IndeterminateRead) w' => w' = w
  | Halt _ _ => False
  end.

(** Ends of the tokenizer's loop: the token array, the fatal allocation
    error, the signed overflow of [bufsize], or a read outside a
    well-formed line; never a store outside the array or the line. *)
Definition tokenizer_end (position : Z) (tokens : memblock pointer)
  (r : result (memblock pointer * memblock ascii)) : Prop :=
  match r with
  | Ok (tokens', _) _ =>
    take (Z.to_nat position) tokens' = take (Z.to_nat position) tokens
  | Halt (Exit _) _ | Halt (Undefined SignedOverflow) _
  | Halt (Undefined OutOfBoundsLoad) _ | Halt (Undefined IndeterminateRead) _ => True
  | Halt _ _ => False
  end.

(** Fuel that suffices at the head of the tokenizer's loop: every further
    token moves the saved pointer forward in the line. *)
Definition enough_fuel (fuel : nat) (token save : pointer) (line : memblock ascii) : Prop :=
  match token with
  | NULL => (0 < fuel)%nat
  | _ => exists p, save = Ptr p /\ (p <= length line)%nat /\
                       (length line + 2 <= fuel + p)%nat
  end.

(** What a run of the tokenizer from the saved pointer on has achieved
    when it returns the tokens [ts]. *)
Definition rounds_done (ts : list (list ascii)) (position : Z) (tokens : memblock pointer)
  (done : memblock ascii) (rest : list ascii) (w : world)
  (r : result (memblock pointer * memblock ascii)) : Prop :=
  exists tokens' line' w',
    r = Ok (tokens', line') w' /\
    take (Z.to_nat position) tokens' = take (Z.to_nat position) tokens /\
    take (length done) line' = done /\
    line' !! (length done + length rest)%nat = Some (Some NUL) /\
    (forall w'', argv_of line' (drop (Z.to_nat position) tokens') w'' = Ok ts w'') /\
    same_process w w' /\ stdin w' = stdin w.

(** The next call of [strtok] followed by the loop: what remains to be run
    after the token array has been updated. *)
Definition rounds (sys : system) (address : Z) (fuel : nat) (bufsize position : Z)
  (tokens : memblock pointer) (line : memblock ascii) (save : pointer)
  : M (memblock pointer * memblock ascii) :=
  do next <- strtok_as_int address line NULL DSH_TOK_DELIM save;
  let '(token, line, save) := next in
  split_loop sys address fuel bufsize position tokens token line save.

(** A wait status after which [dsh_launch] stops waiting. *)
Definition terminal (sys : system) (status : Z) : bool :=
  WIFEXITED sys status || WIFSIGNALED sys status.

(** A system whose allocator grants every request. *)
Definition generous (sys : system) : Prop :=
  forall k bytes, heap_grants sys k bytes = true.

(** A system that places the line at addresses an [int] holds: the block
    starts above 0 and its first [cells] cells and the one after them lie
    at most at [INT_MAX]. *)
Definition low_memory (sys : system) (cells : nat) : Prop :=
  forall k, 0 < line_address sys k /\ line_address sys k + Z.of_nat cells <= INT_MAX.

(** No cell of a block of [cells] cells at [address], nor the one after
    them, has an address whose low 32 bits are all zero: no pointer into
    the block becomes the null pointer by a passage through [int]. *)
Definition no_null_alias (address : Z) (cells : nat) : Prop :=
  forall o, (o <= cells)%nat -> (address + Z.of_nat o) mod INT_MODULUS <> 0.

(** ** Concrete systems *)

(** The encoding of wait statuses on Linux: the low seven bits are zero
    after a normal exit, 0x7f while the child is stopped, and the number
    of the terminating signal otherwise. *)
Definition linux_WIFEXITED (status : Z) : bool := Z.land status 127 =? 0.
Definition linux_WIFSIGNALED (status : Z) : bool :=
  negb (Z.land status 127 =? 0) && negb (Z.land status 127 =? 127).

(** The heap of an executable loaded at a fixed low address (0x4052a0),
    and that of a position-independent executable on x86-64 Linux
    (0x5583cd03c480). *)
Definition low_heap : Z := 4215456.
Definition high_heap : Z := 94024568652928.

(** A system with memory to spare, in which the shell is the parent of
    child 4242; the child is first reported stopped (by SIGTSTP), then
    exited with status 1; no program can be executed and every directory
    can be entered. *)
Definition roomy : system :=
  System (fun _ _ => true) (fun _ => 4242) (fun _ => false)
         (fun _ => [Some 5247; Some 256])
         linux_WIFEXITED linux_WIFSIGNALED (fun _ path => Some path)
         (fun _ => low_heap).

(** A system that grants no request above 1024 bytes and cannot create
    processes. *)
Definition tight : system :=
  System (fun _ bytes => bytes <=? 1024) (fun _ => -1) (fun _ => false)
         (fun _ => [])
         linux_WIFEXITED linux_WIFSIGNALED (fun _ _ => None)
         (fun _ => low_heap).

(** A line of 128 one-letter tokens. *)
Definition many_tokens : list ascii :=
  concat (replicate 128 ["a"; " "]%char).

(** A system in which the process is the child that [fork] has just
    created, and no program can be executed. *)
Definition in_child : system :=
  System (fun _ _ => true) (fun _ => 0) (fun _ => false) (fun _ => [])
         linux_WIFEXITED linux_WIFSIGNALED (fun _ _ => None)
         (fun _ => low_heap).

(** A system in which the child 4242 is reported stopped once, after which
    every call of waitpid fails. *)
Definition unanswered : system :=
  System (fun _ _ => true) (fun _ => 4242) (fun _ => false)
         (fun _ => [Some 5247; None; None; None])
         linux_WIFEXITED linux_WIFSIGNALED (fun _ _ => None)
         (fun _ => low_heap).

(** The system [roomy] with the heap of a position-independent
    executable: the line's block lies above 2^32. *)
Definition roomy_high : system :=
  System (fun _ _ => true) (fun _ => 4242) (fun _ => false)
         (fun _ => [Some 5247; Some 256])
         linux_WIFEXITED linux_WIFSIGNALED (fun _ path => Some path)
         (fun _ => high_heap).

(** A system in which the line's block starts at 3 * 2^32 - 3, so that its
    fourth cell has an address whose low 32 bits are zero. *)
Definition roomy_boundary : system :=
  System (fun _ _ => true) (fun _ => 4242) (fun _ => false)
         (fun _ => [Some 5247; Some 256])
         linux_WIFEXITED linux_WIFSIGNALED (fun _ path => Some path)
         (fun _ => 3 * 2 ^ 32 - 3).

(** Read a line, split it, and read the tokens back as strings. *)
Definition parse (sys : system) : M (list string) :=
  do line <- dsh_read_line sys;
  do parsed <- dsh_split_line sys line;
  let '(args, line) := parsed in
  do argv <- argv_of line args;
  ret (map string_of_list_ascii argv).

(** A world in which [input] is waiting on stdin. *)
Definition on_stdin (input : list ascii) : world := World input [] [] [] 0 [].

(** ** Notions for the further properties *)

(** [dsh_loop] of the source with the dispatcher as a parameter: the
    definition of [dsh_execute] is not in src/, and what the loop does
    around the call does not depend on it. *)
Fixpoint dsh_loop_with (sys : system)
  (execute : memblock pointer -> memblock ascii -> M Z) (fuel : nat) : M unit :=
  match fuel with
  | O => stop Unfinished
  | S fuel =>
    do _ <- printf prompt;
    do line <- dsh_read_line sys;
    do parsed <- dsh_split_line sys line;
    let '(args, line) := parsed in
    do status <- execute args line;
    do _ <- free line;
    do _ <- free args;
    if status =? 0 then ret tt else dsh_loop_with sys execute fuel
  end.

(** The capacity of a buffer that grows by [increment] once [n] elements
    have been stored and the position has been advanced past them. *)
Definition capacity_after (increment n : Z) : Z := increment * (n / increment + 1).

(** Granted requests for [first], [first + 1], ... chunks of [unit] bytes,
    [count] requests in all. *)
Definition chunk_requests (unit first count : Z) : list (Z * bool) :=
  map (fun k => (unit * k, true)) (seqZ first count).

(** [line'] is [line] with some of its delimiters overwritten by NUL, and
    nothing else changed. *)
Definition delimiters_cut (line line' : memblock ascii) : Prop :=
  length line' = length line /\
  forall i, line' !! i = line !! i \/
            (line' !! i = Some (Some NUL) /\
             exists c, line !! i = Some (Some c) /\ is_delim c = true).

(** [w'] differs from [w] at most in the allocation log and in what was
    written to stderr. *)
Definition only_heap_and_stderr (w w' : world) : Prop :=
  stdin w' = stdin w /\ stdout w' = stdout w /\ forks w' = forks w /\ cwd w' = cwd w.

(** What a returned token array looks like, from any state of the loop:
    the end marker is at index [n], pointers fill the entries from
    [position] up to it, and the capacity and the requests are those of
    [n] stored tokens. *)
Definition array_shape (position : Z) (w : world) (tokens' : memblock pointer)
  (w' : world) (n : nat) : Prop :=
  (Z.to_nat position <= n)%nat /\
  tokens' !! n = Some (Some NULL) /\
  (forall i, (Z.to_nat position <= i < n)%nat ->
             exists p, tokens' !! i = Some (Some p) /\ p <> NULL) /\
  Z.of_nat (length tokens') = capacity_after DSH_TOK_BUFSIZE (Z.of_nat n) /\
  heap_log w'
  = heap_log w ++
    chunk_requests (DSH_TOK_BUFSIZE * sizeof_char_ptr) (position / DSH_TOK_BUFSIZE + 2)
      (Z.of_nat n / DSH_TOK_BUFSIZE - position / DSH_TOK_BUFSIZE).

(** From the cell [p] to the end of the block every cell holds a character
    other than NUL: the block has no terminator there. *)
Definition unterminated_from (p : nat) (line : memblock ascii) : Prop :=
  forall i, (p <= i < length line)%nat ->
            exists c, line !! i = Some (Some c) /\ c <> NUL.

(** * Properties *)

(** ** Characters *)

Lemma int_of_char_range (c : ascii) : 0 <= int_of_char c < 256.
Proof.
  unfold int_of_char. pose proof (N_ascii_bounded c). lia.
Qed.

Lemma char_of_int_of_char (c : ascii) : char_of_int (int_of_char c) = c.
Proof.
  unfold char_of_int. pose proof (int_of_char_range c).
  rewrite Z.mod_small by lia. unfold int_of_char.
  rewrite N2Z.id. apply ascii_N_embedding.
Qed.

Lemma int_of_char_inj (c d : ascii) : int_of_char c = int_of_char d -> c = d.
Proof.
  intros H. rewrite <- (char_of_int_of_char c), <- (char_of_int_of_char d).
  now rewrite H.
Qed.

Lemma getchar_ends_line (c : ascii) :
  (int_of_char c =? EOF) || (int_of_char c =? int_of_char newline)
  = Ascii.eqb c newline.
Proof.
  pose proof (int_of_char_range c) as Hc.
  replace (int_of_char c =? EOF) with false
    by (symmetry; apply Z.eqb_neq; unfold EOF; lia).
  simpl. destruct (Ascii.eqb_spec c newline) as [->|Hne].
  - apply Z.eqb_refl.
  - apply Z.eqb_neq. intros H. apply Hne. now apply int_of_char_inj.
Qed.

Lemma geb_true (a b : Z) : b <= a -> (a >=? b) = true.
Proof. intros H. rewrite Z.geb_leb. now apply Z.leb_le. Qed.

Lemma geb_false (a b : Z) : a < b -> (a >=? b) = false.
Proof. intros H. rewrite Z.geb_leb. now apply Z.leb_gt. Qed.

(** ** One iteration of the reader *)

Section Reader.

Variable sys : system.

Lemma read_iteration_eof bufsize position buffer w :
  stdin w = [] ->
  0 <= position < Z.of_nat (length buffer) ->
  read_iteration sys bufsize position buffer w
  = Ok (Return (<[Z.to_nat position := Some NUL]> buffer)) w.
Proof.
  intros Hin Hpos. unfold read_iteration, bind, getchar, store. rewrite Hin.
  simpl. rewrite bool_decide_eq_true_2 by lia. reflexivity.
Qed.

Lemma read_iteration_newline bufsize position buffer w rest :
  stdin w = newline :: rest ->
  0 <= position < Z.of_nat (length buffer) ->
  read_iteration sys bufsize position buffer w
  = Ok (Return (<[Z.to_nat position := Some NUL]> buffer)) (set_stdin rest w).
Proof.
  intros Hin Hpos. unfold read_iteration, bind, getchar, store. rewrite Hin.
  rewrite getchar_ends_line. simpl.
  rewrite bool_decide_eq_true_2 by lia. reflexivity.
Qed.

(** A character other than newline is stored at [position]; the buffer grows
    by [DSH_RL_BUFSIZE] cells exactly when the advanced position reaches
    [bufsize]. *)
Lemma read_iteration_char bufsize position buffer w c rest :
  stdin w = c :: rest ->
  c <> newline ->
  0 <= position < bufsize ->
  Z.of_nat (length buffer) = bufsize ->
  bufsize <= INT_MAX ->
  read_iteration sys bufsize position buffer w
  = let w1 := set_stdin rest w in
    let stored := <[Z.to_nat position := Some c]> buffer in
    if position + 1 <? bufsize then
      Ok (Continue (bufsize, position + 1, stored)) w1
    else if bufsize + DSH_RL_BUFSIZE <=? INT_MAX then
      let bytes := bufsize + DSH_RL_BUFSIZE in
      if heap_grants sys (length (heap_log w)) bytes then
        Ok (Continue (bytes, position + 1, resize (Z.to_nat bytes) None stored))
           (log_request (bytes, true) w1)
      else
        Halt (Exit EXIT_FAILURE)
             (put_stderr (Text allocation_error) (log_request (bytes, false) w1))
    else Halt (Undefined SignedOverflow) w1.
Proof.
  intros Hin Hc Hpos Hlen Hmax. unfold INT_MAX in Hmax.
  unfold read_iteration, bind, getchar, store. rewrite Hin.
  rewrite getchar_ends_line, char_of_int_of_char.
  destruct (Ascii.eqb_spec c newline) as [|_]; [contradiction|].
  rewrite bool_decide_eq_true_2 by lia. unfold ret, int_add.
  rewrite bool_decide_eq_true_2 by (unfold INT_MIN, INT_MAX; lia).
  cbv zeta. unfold ret.
  destruct (Z.ltb_spec (position + 1) bufsize) as [Hlt|Hge].
  - rewrite geb_false by lia. reflexivity.
  - rewrite geb_true by lia.
    unfold DSH_RL_BUFSIZE, INT_MAX.
    destruct (Z.leb_spec (bufsize + 1024) 2147483647) as [Hfit|Hover].
    + rewrite bool_decide_eq_true_2 by (unfold INT_MIN, INT_MAX; lia).
      unfold realloc, bind, request, ret, size_t, SIZE_MODULUS, sizeof_char.
      rewrite Z.mod_small by lia. rewrite Z.div_1_r. simpl heap_log.
      destruct (heap_grants sys _ _); reflexivity.
    + rewrite bool_decide_eq_false_2 by (unfold INT_MIN, INT_MAX; lia).
      reflexivity.
Qed.

End Reader.

Lemma take_S_insert {A} (l : list A) (n : nat) (x : A) :
  (n < length l)%nat -> take (S n) (<[n := x]> l) = take n l ++ [x].
Proof.
  intros H. rewrite (take_S_r _ _ x) by (now apply list_lookup_insert_eq).
  now rewrite take_insert_ge by lia.
Qed.

Ltac divlia := Z.div_mod_to_equations; lia.

Section ReaderLoop.

Variable sys : system.

Lemma read_loop_line (line : list ascii) :
  forall fuel bufsize position buffer w tail,
  (forall k n, heap_grants sys k n = true) ->
  stdin w = line ++ tail -> ends_line tail ->
  Forall (fun c => c <> newline) line ->
  (length line < fuel)%nat ->
  0 <= position < READ_LIMIT ->
  bufsize = DSH_RL_BUFSIZE * (position / DSH_RL_BUFSIZE + 1) ->
  Z.of_nat (length buffer) = bufsize ->
  (position + Z.of_nat (length line) < READ_LIMIT ->
   exists buffer' w',
     read_loop sys fuel bufsize position buffer w = Ok buffer' w' /\
     take (Z.to_nat position + length line + 1) buffer'
     = take (Z.to_nat position) buffer ++ map Some line ++ [Some NUL] /\
     stdin w' = drop 1 tail /\ same_process w w') /\
  (READ_LIMIT <= position + Z.of_nat (length line) ->
   exists w', read_loop sys fuel bufsize position buffer w
              = Halt (Undefined SignedOverflow) w').
Proof.
  unfold READ_LIMIT, DSH_RL_BUFSIZE, INT_MAX.
  induction line as [|c line IH];
    intros fuel bufsize position buffer w tail Hgr Hin Hend Hnl Hfuel Hpos Hbuf Hlen.
  - destruct fuel as [|fuel]; [simpl in Hfuel; lia|].
    split; [intros _|intros Hsz; simpl in Hsz; lia].
    simpl in Hin. simpl read_loop. unfold bind.
    assert (Hb : 0 <= position < Z.of_nat (length buffer)) by divlia.
    destruct Hend as [->|[rest ->]].
    + rewrite read_iteration_eof by assumption.
      eexists _, _. split; [reflexivity|]. split; [|now repeat split].
      simpl. rewrite Nat.add_0_r, Nat.add_1_r.
      apply take_S_insert. lia.
    + rewrite (read_iteration_newline _ _ _ _ _ rest) by assumption.
      eexists _, _. split; [reflexivity|]. split; [|now repeat split].
      simpl. rewrite Nat.add_0_r, Nat.add_1_r.
      apply take_S_insert. lia.
  - destruct fuel as [|fuel]; [simpl in Hfuel; lia|].
    simpl in Hin, Hfuel. apply Forall_cons in Hnl as [Hc Hnl'].
    simpl read_loop. unfold bind.
    rewrite (read_iteration_char _ _ _ _ _ c (line ++ tail)) by (assumption || (unfold INT_MAX; divlia)).
    cbv zeta. unfold DSH_RL_BUFSIZE, INT_MAX.
    set (stored := <[Z.to_nat position := Some c]> buffer).
    assert (Hstored : take (S (Z.to_nat position)) stored
                      = take (Z.to_nat position) buffer ++ [Some c])
      by (apply take_S_insert; divlia).
    assert (Hslen : length stored = length buffer) by apply length_insert.
    destruct (Z.ltb_spec (position + 1) bufsize) as [Hlt|Hge].
    + specialize (IH fuel bufsize (position + 1) stored (set_stdin (line ++ tail) w) tail
                     Hgr eq_refl Hend Hnl').
      destruct IH as [IHok IHov]; try (divlia).
      split; intros Hsz.
      * destruct IHok as (buffer' & w' & Hrun & Htake & Hrest & Hsame);
          [simpl length in Hsz; lia|].
        exists buffer', w'. split; [exact Hrun|]. split; [|now split].
        replace (Z.to_nat position + length (c :: line) + 1)%nat
          with (Z.to_nat (position + 1) + length line + 1)%nat
          by (simpl length; lia).
        rewrite Htake. replace (Z.to_nat (position + 1)) with (S (Z.to_nat position)) by lia.
        rewrite Hstored. simpl. now rewrite <- app_assoc.
      * apply IHov. simpl length in Hsz. lia.
    + destruct (Z.leb_spec (bufsize + 1024) 2147483647) as [Hfit|Hover].
      * rewrite Hgr.
        set (grown := resize (Z.to_nat (bufsize + 1024)) None stored).
        assert (Hgrown : take (S (Z.to_nat position)) grown
                         = take (Z.to_nat position) buffer ++ [Some c]).
        { unfold grown. rewrite take_resize_le by (divlia).
          rewrite resize_le by (divlia). exact Hstored. }
        specialize (IH fuel (bufsize + 1024) (position + 1) grown
                       (log_request (bufsize + 1024, true) (set_stdin (line ++ tail) w))
                       tail Hgr eq_refl Hend Hnl').
        destruct IH as [IHok IHov]; try (divlia).
        { unfold grown. rewrite length_resize. divlia. }
        split; intros Hsz.
        -- destruct IHok as (buffer' & w' & Hrun & Htake & Hrest & Hsame);
             [simpl length in Hsz; lia|].
           exists buffer', w'. split; [exact Hrun|]. split; [|now split].
           replace (Z.to_nat position + length (c :: line) + 1)%nat
             with (Z.to_nat (position + 1) + length line + 1)%nat
             by (simpl length; lia).
           rewrite Htake. replace (Z.to_nat (position + 1)) with (S (Z.to_nat position)) by lia.
           rewrite Hgrown. simpl. now rewrite <- app_assoc.
        -- apply IHov. simpl length in Hsz. lia.
      * split; intros Hsz; [|eexists; reflexivity].
        simpl length in Hsz. divlia.
Qed.

End ReaderLoop.

Lemma all_granted_refl w w' :
  heap_log w' = heap_log w -> all_granted w w'.
Proof. intros H. exists []. rewrite app_nil_r. auto. Qed.

Lemma all_granted_after w w1 w' pre :
  heap_log w1 = heap_log w ++ pre -> Forall (fun r => snd r = true) pre ->
  all_granted w1 w' -> all_granted w w'.
Proof.
  intros H1 Hpre (reqs & H & Hall). exists (pre ++ reqs).
  rewrite H, H1, app_assoc. split; [reflexivity|]. now apply Forall_app.
Qed.

Lemma fatal_allocation_after w w1 w' pre :
  heap_log w1 = heap_log w ++ pre -> Forall (fun r => snd r = true) pre ->
  stderr w1 = stderr w ->
  fatal_allocation w1 w' -> fatal_allocation w w'.
Proof.
  intros H1 Hpre Herr (He & reqs & bytes & H & Hall). split; [congruence|].
  exists (pre ++ reqs), bytes.
  rewrite H, H1, !app_assoc. split; [reflexivity|]. now apply Forall_app.
Qed.

Lemma allocation_discipline_after {A} w w1 (r : result A) pre :
  heap_log w1 = heap_log w ++ pre -> Forall (fun r => snd r = true) pre ->
  stderr w1 = stderr w ->
  allocation_discipline w1 r -> allocation_discipline w r.
Proof.
  intros H1 Hpre Herr. unfold allocation_discipline.
  destruct r as [a w'|[code| | | |] w'];
    try (intros [Hg He]; split;
         [eapply all_granted_after; eassumption | congruence]).
  intros [Hc Hf]. split; [exact Hc|]. eapply fatal_allocation_after; eassumption.
Qed.

Section ReaderSafety.

Variable sys : system.

Lemma read_loop_safe (input : list ascii) :
  forall fuel bufsize position buffer w,
  stdin w = input ->
  (length input < fuel)%nat ->
  0 <= position < bufsize ->
  Z.of_nat (length buffer) = bufsize ->
  bufsize <= INT_MAX ->
  let r := read_loop sys fuel bufsize position buffer w in
  reader_end position buffer r /\ allocation_discipline w r.
Proof.
  induction input as [|c input IH];
    intros fuel bufsize position buffer w Hin Hfuel Hpos Hlen Hmax;
    (destruct fuel as [|fuel]; [simpl in Hfuel; lia|]);
    simpl read_loop; unfold bind.
  - rewrite read_iteration_eof by (assumption || lia). simpl.
    split; [now rewrite take_insert_ge by lia|].
    split; [now apply all_granted_refl|reflexivity].
  - simpl in Hfuel. destruct (Ascii.eqb_spec c newline) as [->|Hc].
    + rewrite (read_iteration_newline _ _ _ _ _ input) by (assumption || lia).
      simpl. split; [now rewrite take_insert_ge by lia|].
      split; [now apply all_granted_refl|reflexivity].
    + rewrite (read_iteration_char _ _ _ _ _ c input) by assumption.
      cbv zeta. unfold DSH_RL_BUFSIZE, INT_MAX in *.
      set (stored := <[Z.to_nat position := Some c]> buffer).
      assert (Hslen : length stored = length buffer) by apply length_insert.
      assert (Hkeep : take (Z.to_nat position) stored = take (Z.to_nat position) buffer)
        by (apply take_insert_ge; lia).
      destruct (Z.ltb_spec (position + 1) bufsize) as [Hlt|Hge].
      * specialize (IH fuel bufsize (position + 1) stored (set_stdin input w)
                       eq_refl ltac:(lia) ltac:(lia) ltac:(lia) ltac:(lia)).
        cbv zeta in IH. destruct IH as [IHend IHall]. split.
        -- destruct (read_loop _ _ _ _ _ _) as [buffer' w'|h w']; [|exact IHend].
           simpl in *. rewrite <- Hkeep.
           apply (f_equal (take (Z.to_nat position))) in IHend.
           rewrite !take_take in IHend.
           now rewrite !Nat.min_l in IHend by lia.
        -- eapply (allocation_discipline_after _ _ _ []); try eassumption;
             [simpl; now rewrite app_nil_r|constructor|reflexivity].
      * destruct (Z.leb_spec (bufsize + 1024) 2147483647) as [Hfit|Hover].
        -- destruct (heap_grants sys _ _) eqn:Hgr.
           ++ set (grown := resize (Z.to_nat (bufsize + 1024)) None stored).
              assert (Hgrown : take (Z.to_nat position) grown
                               = take (Z.to_nat position) buffer).
              { unfold grown. rewrite take_resize_le by lia.
                rewrite resize_le by lia. exact Hkeep. }
              specialize (IH fuel (bufsize + 1024) (position + 1) grown
                             (log_request (bufsize + 1024, true) (set_stdin input w))
                             eq_refl ltac:(lia) ltac:(lia)).
              destruct IH as [IHend IHall];
                [unfold grown; rewrite length_resize; lia|lia|]. split.
              ** destruct (read_loop _ _ _ _ _ _) as [buffer' w'|h w']; [|exact IHend].
                 simpl in *. rewrite <- Hgrown.
                 apply (f_equal (take (Z.to_nat position))) in IHend.
                 rewrite !take_take in IHend.
                 now rewrite !Nat.min_l in IHend by lia.
              ** eapply (allocation_discipline_after _ _ _ [(bufsize + 1024, true)]);
                   try eassumption; [reflexivity|repeat constructor|reflexivity].
           ++ simpl. split; [exact I|]. split; [reflexivity|].
              split; [reflexivity|]. exists [], (bufsize + 1024).
              split; [reflexivity|constructor].
        -- simpl. split; [exact I|].
           split; [now apply all_granted_refl|reflexivity].
Qed.

End ReaderSafety.

Lemma delim_not_NUL c : delim_char c -> c <> NUL.
Proof. intros H ->. discriminate H. Qed.

(** ** Loads and stores at the end of a known prefix *)

Ltac same_cells :=
  repeat rewrite <- app_assoc; simpl; repeat rewrite <- app_assoc; reflexivity.
Ltac same_length :=
  repeat rewrite length_app; repeat rewrite length_map; simpl; lia.

Lemma load_after {A} (pre : memblock A) (v : A) (post b : memblock A) (i : nat) w :
  b = pre ++ Some v :: post -> i = length pre ->
  load b (Z.of_nat i) w = Ok v w.
Proof.
  intros -> ->. unfold load. rewrite bool_decide_eq_true_2
    by (rewrite length_app; simpl; lia).
  rewrite Nat2Z.id, list_lookup_middle by reflexivity. reflexivity.
Qed.

Lemma store_after {A} (pre : memblock A) (x : option A) (v : A) (post b : memblock A)
  (i : nat) w :
  b = pre ++ x :: post -> i = length pre ->
  store b (Z.of_nat i) v w = Ok (pre ++ Some v :: post) w.
Proof.
  intros -> ->. unfold store. rewrite bool_decide_eq_true_2
    by (rewrite length_app; simpl; lia).
  rewrite Nat2Z.id. unfold ret. f_equal.
  rewrite insert_app_r_alt by lia. now rewrite Nat.sub_diag.
Qed.

Lemma drop_after {A} (pre post b : list A) (i : nat) :
  b = pre ++ post -> i = length pre -> drop i b = post.
Proof. intros -> ->. apply drop_app_length. Qed.

(** ** [strspn], [strcspn] and [strtok] on a well-formed line *)

Lemma span_prefix keep set (a : list ascii) (c : ascii) (tail cells : memblock ascii) w :
  cells = map Some a ++ Some c :: tail ->
  Forall (fun x => x <> NUL /\ char_in set x = keep) a ->
  c = NUL \/ char_in set c <> keep ->
  span keep set cells w = Ok (length a) w.
Proof.
  intros -> Ha Hc. induction Ha as [|x a [Hx Hk] _ IH]; simpl.
  - destruct (Ascii.eqb_spec c NUL) as [|Hn]; [reflexivity|].
    destruct Hc as [|Hc]; [contradiction|].
    destruct (char_in set c), keep; simpl; (reflexivity || congruence).
  - destruct (Ascii.eqb_spec x NUL) as [|_]; [contradiction|].
    rewrite Hk, Bool.eqb_reflx. unfold bind. now rewrite IH.
Qed.

Lemma delims_spanned d :
  Forall delim_char d ->
  Forall (fun x => x <> NUL /\ char_in DSH_TOK_DELIM x = true) d.
Proof.
  intros H. eapply Forall_impl; [exact H|].
  intros x Hx. split; [now apply delim_not_NUL|exact Hx].
Qed.

Lemma token_spanned t :
  Forall token_char t ->
  Forall (fun x => x <> NUL /\ char_in DSH_TOK_DELIM x = false) t.
Proof.
  intros H. eapply Forall_impl; [exact H|]. intros x [Hx Hn]. split; assumption.
Qed.

Lemma strtok_none (done : memblock ascii) d junk w :
  Forall delim_char d ->
  strtok (done ++ map Some d ++ Some NUL :: junk) NULL DSH_TOK_DELIM (Ptr (length done)) w
  = Ok (NULL, done ++ map Some d ++ Some NUL :: junk, Ptr (length done + length d)) w.
Proof.
  intros Hd. unfold strtok, strspn, bind.
  rewrite (drop_after done (map Some d ++ Some NUL :: junk)) by reflexivity.
  rewrite (span_prefix true _ d NUL junk)
    by (reflexivity || (now apply delims_spanned) || now left).
  rewrite (load_after (done ++ map Some d) NUL junk) by (same_cells || same_length).
  reflexivity.
Qed.

(** [strtok] when a token follows the delimiters: the token ends at the
    terminator of the line, or at a delimiter, which becomes a NUL. *)
Lemma strtok_finds_token (done : memblock ascii) d t (c : ascii) (after : memblock ascii) w :
  Forall delim_char d -> Forall token_char t -> t <> [] ->
  c = NUL \/ delim_char c ->
  strtok (done ++ map Some d ++ map Some t ++ Some c :: after) NULL DSH_TOK_DELIM
         (Ptr (length done)) w
  = let line := done ++ map Some d ++ map Some t ++ Some c :: after in
    let s := (length done + length d)%nat in
    let e := (s + length t)%nat in
    if Ascii.eqb c NUL then Ok (Ptr s, line, Ptr e) w
    else Ok (Ptr s, done ++ map Some d ++ map Some t ++ Some NUL :: after, Ptr (S e)) w.
Proof.
  intros Hd Ht Hne Hc. cbv zeta. unfold strtok, strspn, strcspn, bind.
  set (line := done ++ map Some d ++ map Some t ++ Some c :: after).
  rewrite (drop_after done (map Some d ++ map Some t ++ Some c :: after)) by reflexivity.
  assert (Hhd : exists x t', t = x :: t') by (destruct t; [contradiction|eauto]).
  destruct Hhd as (x & t' & Et).
  assert (Hx : token_char x)
    by (pose proof Ht as H; rewrite Et in H; now apply Forall_cons in H).
  destruct Hx as [Hx Hxn].
  rewrite (span_prefix true _ d x (map Some t' ++ Some c :: after));
    [|rewrite Et; same_cells|now apply delims_spanned
     |right; unfold is_delim in Hx; congruence].
  rewrite (load_after (done ++ map Some d) x (map Some t' ++ Some c :: after))
    by (subst line; try rewrite Et; same_cells || same_length).
  destruct (Ascii.eqb_spec x NUL) as [|_]; [contradiction|].
  rewrite (drop_after (done ++ map Some d) (map Some t ++ Some c :: after))
    by (subst line; same_cells || same_length).
  rewrite (span_prefix false _ t c after);
    [|reflexivity|now apply token_spanned
     |destruct Hc as [|Hc]; [now left|right; unfold delim_char, is_delim in Hc; congruence]].
  rewrite (load_after (done ++ map Some d ++ map Some t) c after)
    by (subst line; same_cells || same_length).
  destruct (Ascii.eqb_spec c NUL) as [|Hn]; [reflexivity|].
  rewrite (store_after (done ++ map Some d ++ map Some t) (Some c) NUL after)
    by (subst line; same_cells || same_length).
  do 3 f_equal. same_cells.
Qed.

Lemma drop_insert_here {A} (l : list A) (n : nat) (x : A) :
  (n < length l)%nat -> drop n (<[n := x]> l) = x :: drop (S n) l.
Proof.
  intros H. destruct (lookup_lt_is_Some_2 l n H) as [y Hy].
  rewrite <- (take_drop_middle l n y Hy) at 1.
  rewrite insert_app_r_alt by (rewrite length_take; lia).
  rewrite length_take, Nat.min_l, Nat.sub_diag by lia. simpl.
  rewrite drop_app_length'; [reflexivity|]. rewrite length_take; lia.
Qed.

Lemma drop_of_take {A} (l a b : list A) (n s : nat) :
  take n l = a ++ b -> s = length a -> drop s l = b ++ drop n l.
Proof.
  intros H ->. rewrite <- (take_drop n l) at 1. rewrite H, <- app_assoc.
  apply drop_app_length.
Qed.

(** ** Reading tokens back *)

Lemma string_at_token (t : list ascii) (tail : memblock ascii) w :
  Forall token_char t ->
  string_at (map Some t ++ Some NUL :: tail) w = Ok t w.
Proof.
  induction 1 as [|x t [_ Hx] _ IH]; simpl; [reflexivity|].
  destruct (Ascii.eqb_spec x NUL) as [|_]; [contradiction|].
  unfold bind. now rewrite IH.
Qed.

(** ** A pointer's passage through [int] *)

Lemma through_int_NULL (address : Z) (cells : nat) :
  through_int address cells NULL = NULL.
Proof. reflexivity. Qed.

Lemma through_int_fits (address : Z) (cells o : nat) :
  0 < address -> address + Z.of_nat o <= INT_MAX -> (o <= cells)%nat ->
  through_int address cells (Ptr o) = Ptr o.
Proof.
  unfold INT_MAX. intros Ha Hn Ho.
  unfold through_int, pointer_value, int_of_value, size_t, INT_MODULUS, SIZE_MODULUS.
  rewrite (Z.mod_small (address + Z.of_nat o + 2 ^ 31)) by lia.
  replace (address + Z.of_nat o + 2 ^ 31 - 2 ^ 31) with (address + Z.of_nat o) by lia.
  rewrite Z.mod_small by lia. unfold pointer_of_value.
  destruct (Z.eqb_spec (address + Z.of_nat o) 0) as [|_]; [lia|].
  rewrite (proj2 (Z.leb_le _ _)) by lia. rewrite (proj2 (Z.leb_le _ _)) by lia.
  simpl. f_equal. lia.
Qed.

Lemma through_int_not_NULL (address : Z) (cells : nat) (p : pointer) :
  through_int address cells p <> NULL -> p <> NULL.
Proof. intros H ->. now apply H. Qed.

Lemma int_of_value_range (value : Z) : - 2 ^ 31 <= int_of_value value < 2 ^ 31.
Proof. unfold int_of_value, INT_MODULUS. divlia. Qed.

Lemma through_int_no_alias (address : Z) (cells o : nat) :
  no_null_alias address cells -> (o <= cells)%nat ->
  through_int address cells (Ptr o) <> NULL.
Proof.
  intros Hno Ho. specialize (Hno o Ho). unfold INT_MODULUS in Hno.
  unfold through_int, pointer_value, pointer_of_value.
  pose proof (int_of_value_range (address + Z.of_nat o)) as Hr.
  assert (Hv : size_t (int_of_value (address + Z.of_nat o)) <> 0).
  { unfold size_t, SIZE_MODULUS. unfold int_of_value, INT_MODULUS in *. divlia. }
  destruct (Z.eqb_spec (size_t (int_of_value (address + Z.of_nat o))) 0) as [|_];
    [contradiction|].
  destruct (_ && _); discriminate.
Qed.

(** ** One iteration of the tokenizer *)

Section Tokenizer.

Variable sys : system.

(** The token is stored at [position]; the array grows by
    [DSH_TOK_BUFSIZE] entries exactly when the advanced position reaches
    [bufsize]; then [strtok] looks for the next token. *)
Lemma split_iteration_eq address bufsize position tokens token line save w :
  0 <= position < bufsize ->
  Z.of_nat (length tokens) = bufsize ->
  bufsize <= INT_MAX ->
  split_iteration sys address bufsize position tokens token line save w
  = let stored := <[Z.to_nat position := Some token]> tokens in
    let next (bufsize : Z) (tokens : memblock pointer) : M _ :=
      do next <- strtok_as_int address line NULL DSH_TOK_DELIM save;
      let '(token, line, save) := next in
      ret (bufsize, position + 1, tokens, token, line, save) in
    if position + 1 <? bufsize then next bufsize stored w
    else if bufsize + DSH_TOK_BUFSIZE <=? INT_MAX then
      let entries := bufsize + DSH_TOK_BUFSIZE in
      let bytes := entries * sizeof_char_ptr in
      if heap_grants sys (length (heap_log w)) bytes then
        next entries (resize (Z.to_nat entries) None stored)
             (log_request (bytes, true) w)
      else
        Halt (Exit EXIT_FAILURE)
             (put_stderr (Text allocation_error) (log_request (bytes, false) w))
    else Halt (Undefined SignedOverflow) w.
Proof.
  intros Hpos Hlen Hmax. unfold INT_MAX in Hmax. cbv zeta.
  unfold split_iteration, bind at 1, store.
  rewrite bool_decide_eq_true_2 by lia. unfold ret at 1, bind at 1, int_add at 1.
  rewrite bool_decide_eq_true_2 by (unfold INT_MIN, INT_MAX; lia).
  unfold ret at 1, bind at 1.
  destruct (Z.ltb_spec (position + 1) bufsize) as [Hlt|Hge].
  - rewrite geb_false by lia. reflexivity.
  - rewrite geb_true by lia. unfold DSH_TOK_BUFSIZE, INT_MAX.
    destruct (Z.leb_spec (bufsize + 64) 2147483647) as [Hfit|Hover].
    + unfold bind at 1, int_add.
      rewrite bool_decide_eq_true_2 by (unfold INT_MIN, INT_MAX; lia).
      unfold ret at 1, realloc, bind at 1, bind at 1, request, size_t, SIZE_MODULUS,
        sizeof_char_ptr.
      rewrite (Z.mod_small (bufsize + 64)) by lia.
      rewrite Z.mod_small by lia. rewrite Z.div_mul by lia. simpl heap_log.
      destruct (heap_grants sys _ _); reflexivity.
    + unfold bind at 1, int_add.
      rewrite bool_decide_eq_false_2 by (unfold INT_MIN, INT_MAX; lia).
      reflexivity.
Qed.

End Tokenizer.

Lemma argv_of_cons line' (tokens' tokens : memblock pointer) position s e pre t ts w :
  (position <= length tokens)%nat ->
  take (S position) tokens' = take position tokens ++ [Some (Ptr s)] ->
  take (S e) line' = pre ++ map Some t ++ [Some NUL] ->
  s = length pre ->
  Forall token_char t ->
  argv_of line' (drop (S position) tokens') w = Ok ts w ->
  argv_of line' (drop position tokens') w = Ok (t :: ts) w.
Proof.
  intros Hpos Htok Hline Hs Ht Hrest.
  assert (Hlen : length (take position tokens) = position)
    by (rewrite length_take; lia).
  rewrite (drop_of_take tokens' (take position tokens) [Some (Ptr s)] (S position) position)
    by (assumption || now symmetry).
  simpl. unfold bind.
  rewrite (drop_of_take line' pre (map Some t ++ [Some NUL]) (S e) s) by assumption.
  rewrite <- app_assoc. simpl.
  rewrite string_at_token by assumption.
  now rewrite Hrest.
Qed.

Section TokenizerLoop.

Variable sys : system.
Hypothesis granted : forall k n, heap_grants sys k n = true.
Variable address : Z.

Lemma split_loop_token fuel bufsize position tokens token line save w :
  token <> NULL ->
  0 <= position ->
  bufsize = DSH_TOK_BUFSIZE * (position / DSH_TOK_BUFSIZE + 1) ->
  Z.of_nat (length tokens) = bufsize ->
  position + 1 < TOKEN_LIMIT ->
  exists bufsize1 tokens1 w1,
    split_loop sys address (S fuel) bufsize position tokens token line save w
    = rounds sys address fuel bufsize1 (position + 1) tokens1 line save w1 /\
    bufsize1 = DSH_TOK_BUFSIZE * ((position + 1) / DSH_TOK_BUFSIZE + 1) /\
    Z.of_nat (length tokens1) = bufsize1 /\
    take (S (Z.to_nat position)) tokens1
    = take (Z.to_nat position) tokens ++ [Some token] /\
    heap_log w1
    = heap_log w ++
      (if position + 1 <? bufsize then []
       else [((bufsize + DSH_TOK_BUFSIZE) * sizeof_char_ptr, true)]) /\
    same_process w w1 /\ stdin w1 = stdin w.
Proof.
  unfold TOKEN_LIMIT, DSH_TOK_BUFSIZE, INT_MAX. intros Hnn Hpos Hbuf Hlen Hlim.
  assert (Hloop :
    split_loop sys address (S fuel) bufsize position tokens token line save w
    = (do next <- split_iteration sys address bufsize position tokens token line save;
       let '(bufsize, position, tokens, token, line, save) := next in
       split_loop sys address fuel bufsize position tokens token line save) w)
    by (destruct token; [contradiction|reflexivity|reflexivity]).
  rewrite Hloop. unfold bind at 1.
  rewrite split_iteration_eq by (assumption || unfold INT_MAX; divlia).
  cbv zeta. unfold DSH_TOK_BUFSIZE, INT_MAX.
  set (stored := <[Z.to_nat position := Some token]> tokens).
  assert (Hstored : take (S (Z.to_nat position)) stored
                    = take (Z.to_nat position) tokens ++ [Some token])
    by (apply take_S_insert; divlia).
  assert (Hslen : length stored = length tokens) by apply length_insert.
  destruct (Z.ltb_spec (position + 1) bufsize) as [Hlt|Hge].
  - exists bufsize, stored, w. split; [|repeat split; (assumption || divlia || idtac)].
    + unfold rounds, bind.
      destruct (strtok_as_int _ _ _ _ _ _) as [[[token' line'] save'] w'|h w']; reflexivity.
    + now rewrite app_nil_r.
  - rewrite (proj2 (Z.leb_le _ _)) by divlia. rewrite granted.
    exists (bufsize + 64), (resize (Z.to_nat (bufsize + 64)) None stored),
      (log_request ((bufsize + 64) * sizeof_char_ptr, true) w).
    split; [|repeat split; try reflexivity].
    + unfold rounds, bind.
      destruct (strtok_as_int _ _ _ _ _ _) as [[[token' line'] save'] w'|h w']; reflexivity.
    + divlia.
    + rewrite length_resize. lia.
    + rewrite take_resize_le by divlia. rewrite resize_le by divlia. exact Hstored.
Qed.

Lemma split_rounds_none d done junk fuel bufsize position tokens w :
  Forall delim_char d ->
  (0 < fuel)%nat ->
  0 <= position < bufsize ->
  Z.of_nat (length tokens) = bufsize ->
  rounds_done [] position tokens done d w
    (rounds sys address fuel bufsize position tokens
       (done ++ map Some d ++ Some NUL :: junk) (Ptr (length done)) w).
Proof.
  intros Hd Hfuel Hpos Hlen. unfold rounds, strtok_as_int, bind.
  rewrite strtok_none by assumption. unfold ret. rewrite through_int_NULL.
  destruct fuel as [|fuel]; [lia|]. simpl. unfold bind, store.
  rewrite bool_decide_eq_true_2 by lia. unfold ret.
  eexists _, _, _. split; [reflexivity|].
  split; [apply take_insert_ge; lia|].
  split; [apply take_app_length|].
  split. { rewrite app_assoc. apply list_lookup_middle. same_length. }
  split; [|now repeat split].
  intros w''. rewrite drop_insert_here by lia. reflexivity.
Qed.

Lemma split_rounds rest ts :
  maximal_runs rest ts ->
  forall done junk fuel bufsize position tokens w,
  0 < address ->
  address + Z.of_nat (length done + length rest) <= INT_MAX ->
  (length ts < fuel)%nat ->
  0 <= position ->
  bufsize = DSH_TOK_BUFSIZE * (position / DSH_TOK_BUFSIZE + 1) ->
  Z.of_nat (length tokens) = bufsize ->
  position + Z.of_nat (length ts) < TOKEN_LIMIT ->
  rounds_done ts position tokens done rest w
    (rounds sys address fuel bufsize position tokens
       (done ++ map Some rest ++ Some NUL :: junk) (Ptr (length done)) w).
Proof.
  induction 1 as [d Hd|d t Hd Hne Ht|d t c rest ts Hd Hne Ht Hc Hruns IH];
    intros done junk fuel bufsize position tokens w Hlow Hhigh Hfuel Hpos Hbuf Hlen Hlim;
    unfold TOKEN_LIMIT, DSH_TOK_BUFSIZE, INT_MAX in *.
  - apply split_rounds_none; (assumption || lia || divlia).
  - simpl in Hfuel, Hlim. destruct fuel as [|fuel]; [lia|].
    unfold rounds at 1, strtok_as_int, bind. rewrite map_app, <- app_assoc.
    rewrite strtok_finds_token by (assumption || now left).
    cbv zeta. simpl Ascii.eqb. cbv iota. unfold ret at 1.
    rewrite length_app in Hhigh.
    rewrite through_int_fits
      by (unfold INT_MAX; rewrite ?length_app, ?length_map; simpl; lia).
    destruct (split_loop_token fuel bufsize position tokens
                (Ptr (length done + length d))
                (done ++ map Some d ++ map Some t ++ Some NUL :: junk)
                (Ptr (length done + length d + length t)) w)
      as (bufsize1 & tokens1 & w1 & -> & Hb1 & Hl1 & Ht1 & _ & Hsame1 & Hin1);
      try (assumption || discriminate
           || (unfold TOKEN_LIMIT, DSH_TOK_BUFSIZE, INT_MAX; lia)).
    unfold DSH_TOK_BUFSIZE in *.
    pose proof (split_rounds_none [] (done ++ map Some d ++ map Some t) junk fuel
                  bufsize1 (position + 1) tokens1 w1) as Hnone.
    unfold rounds_done in Hnone.
    simpl map in Hnone. rewrite !length_app, !length_map, !Nat.add_assoc in Hnone.
    rewrite <- !app_assoc in Hnone. simpl app in Hnone.
    destruct Hnone as (tokens' & line' & w' & -> & Htok & Hline & Hnul & Hargv & Hsame & Hin);
      [constructor|lia|divlia|lia|].
    exists tokens', line', w'. split; [reflexivity|].
    replace (Z.to_nat (position + 1)) with (S (Z.to_nat position)) in * by lia.
    assert (Htok' : take (S (Z.to_nat position)) tokens'
                    = take (Z.to_nat position) tokens ++ [Some (Ptr (length done + length d))])
      by congruence.
    split. { apply (f_equal (take (Z.to_nat position))) in Htok'.
             rewrite take_take, Nat.min_l in Htok' by lia. rewrite Htok'.
             rewrite take_app_le by (rewrite length_take; divlia).
             now rewrite take_take, Nat.min_id. }
    split. { apply (f_equal (take (length done))) in Hline.
             rewrite take_take, Nat.min_l in Hline by lia. rewrite Hline.
             apply take_app_length. }
    split. { rewrite length_app, Nat.add_assoc. rewrite Nat.add_0_r in Hnul. exact Hnul. }
    split; [|destruct Hsame1 as (?&?&?&?), Hsame as (?&?&?&?);
             split; [repeat split|]; congruence].
    intros w''. rewrite Nat.add_0_r in Hnul.
    eapply (argv_of_cons _ _ _ _ _ (length done + length d + length t)%nat
              (done ++ map Some d));
      [|exact Htok'| |same_length|exact Ht|apply Hargv]; [divlia|].
    rewrite (take_S_r _ _ _ Hnul), Hline. same_cells.
  - simpl in Hfuel, Hlim. destruct fuel as [|fuel]; [lia|].
    unfold rounds at 1, strtok_as_int, bind.
    replace (map Some (d ++ t ++ c :: rest) ++ Some NUL :: junk)
      with (map Some d ++ map Some t ++ Some c :: (map Some rest ++ Some NUL :: junk))
      by (rewrite !map_app; same_cells).
    rewrite strtok_finds_token by (assumption || now right).
    cbv zeta. destruct (Ascii.eqb_spec c NUL) as [->|_]; [discriminate Hc|].
    unfold ret at 1.
    rewrite ?length_app in Hhigh. simpl length in Hhigh. rewrite ?length_app in Hhigh.
    rewrite through_int_fits
      by (unfold INT_MAX; rewrite ?length_app, ?length_map; simpl;
          rewrite ?length_app, ?length_map; simpl; lia).
    destruct (split_loop_token fuel bufsize position tokens
                (Ptr (length done + length d))
                (done ++ map Some d ++ map Some t ++ Some NUL
                   :: (map Some rest ++ Some NUL :: junk))
                (Ptr (S (length done + length d + length t))) w)
      as (bufsize1 & tokens1 & w1 & -> & Hb1 & Hl1 & Ht1 & _ & Hsame1 & Hin1);
      try (assumption || discriminate
           || (unfold TOKEN_LIMIT, DSH_TOK_BUFSIZE, INT_MAX; lia)).
    unfold DSH_TOK_BUFSIZE in *.
    specialize (IH (done ++ map Some d ++ map Some t ++ [Some NUL]) junk fuel
                  bufsize1 (position + 1) tokens1 w1).
    unfold rounds_done in IH.
    rewrite !length_app, !length_map in IH. simpl length in IH.
    replace (length done + (length d + (length t + 1)))%nat
      with (S (length done + length d + length t)) in IH by lia.
    rewrite <- !app_assoc in IH. simpl app in IH.
    destruct IH as (tokens' & line' & w' & -> & Htok & Hline & Hnul & Hargv & Hsame & Hin);
      [lia|lia|lia|lia|exact Hb1|exact Hl1|lia|].
    exists tokens', line', w'. split; [reflexivity|].
    replace (Z.to_nat (position + 1)) with (S (Z.to_nat position)) in * by lia.
    assert (Htok' : take (S (Z.to_nat position)) tokens'
                    = take (Z.to_nat position) tokens ++ [Some (Ptr (length done + length d))])
      by congruence.
    split. { apply (f_equal (take (Z.to_nat position))) in Htok'.
             rewrite take_take, Nat.min_l in Htok' by lia. rewrite Htok'.
             rewrite take_app_le by (rewrite length_take; divlia).
             now rewrite take_take, Nat.min_id. }
    split. { apply (f_equal (take (length done))) in Hline.
             rewrite take_take, Nat.min_l in Hline by lia. rewrite Hline.
             apply take_app_length. }
    split. { rewrite <- Hnul. f_equal. same_length. }
    split; [|destruct Hsame1 as (?&?&?&?), Hsame as (?&?&?&?);
             split; [repeat split|]; congruence].
    intros w''.
    eapply (argv_of_cons _ _ _ _ _ (length done + length d + length t)%nat
              (done ++ map Some d));
      [|exact Htok'| |same_length|exact Ht|apply Hargv]; [divlia|].
    rewrite Hline. same_cells.
Qed.

End TokenizerLoop.

(** ** [strtok] on arbitrary memory *)

Lemma load_reads {A} (b : memblock A) (i : Z) w :
  reads_only w (load b i w)
    (fun v => 0 <= i < Z.of_nat (length b) /\ b !! Z.to_nat i = Some (Some v)).
Proof.
  unfold load. destruct (bool_decide_reflect (0 <= i < Z.of_nat (length b))) as [Hi|Hi];
    [|reflexivity].
  destruct (b !! Z.to_nat i) as [[v|]|] eqn:Hv; simpl; auto.
Qed.

Lemma span_reads keep set (cells : memblock ascii) w :
  reads_only w (span keep set cells w)
    (fun n => exists c, cells !! n = Some (Some c) /\ (c = NUL \/ char_in set c <> keep)).
Proof.
  induction cells as [|[x|] cells IH]; simpl; try reflexivity.
  destruct (Ascii.eqb_spec x NUL) as [->|Hx].
  - split; [reflexivity|]. exists NUL. auto.
  - destruct (Bool.eqb (char_in set x) keep) eqn:Hk.
    + unfold bind. destruct (span keep set cells w) as [n w'|h w']; [|exact IH].
      simpl in *. destruct IH as [-> (c & Hc & Hstop)]. split; [reflexivity|].
      exists c. auto.
    + split; [reflexivity|]. exists x. split; [reflexivity|]. right.
      intros H. rewrite H, Bool.eqb_reflx in Hk. discriminate.
Qed.

Lemma span_progress keep set (cells : memblock ascii) x w n w' :
  cells !! 0%nat = Some (Some x) -> x <> NUL -> char_in set x = keep ->
  span keep set cells w = Ok n w' -> (0 < n)%nat.
Proof.
  destruct cells as [|[y|] cells]; simpl; try discriminate.
  intros [= ->] Hx Hk. destruct (Ascii.eqb_spec x NUL) as [|_]; [contradiction|].
  rewrite Hk, Bool.eqb_reflx. unfold bind.
  destruct (span keep set cells w) as [m w1|h w1]; [|discriminate].
  intros [= <- _]. lia.
Qed.

Lemma strtok_reads line p w :
  reads_only w (strtok line NULL DSH_TOK_DELIM (Ptr p) w)
    (fun '(token, line', save') =>
       length line' = length line /\
       exists p', save' = Ptr p' /\ (p' <= length line)%nat /\
                  (token <> NULL -> (p < p')%nat)).
Proof.
  unfold strtok, strspn, strcspn, bind.
  pose proof (span_reads true DSH_TOK_DELIM (drop p line) w) as H1.
  destruct (span true DSH_TOK_DELIM (drop p line) w) as [n w1|h w1]; [|exact H1].
  destruct H1 as [-> (c & Hc & Hstop)]. rewrite lookup_drop in Hc.
  pose proof (load_reads line (Z.of_nat (p + n)) w) as H2.
  destruct (load line (Z.of_nat (p + n)) w) as [c' w1|h w1]; [|exact H2].
  destruct H2 as [-> [Hi Hc']]. rewrite Nat2Z.id in Hc'.
  assert (c' = c) as -> by congruence.
  destruct (Ascii.eqb_spec c NUL) as [->|Hn].
  { split; [reflexivity|]. split; [reflexivity|]. exists (p + n)%nat.
    split; [reflexivity|]. split; [lia|]. intros H. now contradiction H. }
  destruct Hstop as [|Hstop]; [contradiction|].
  pose proof (span_reads false DSH_TOK_DELIM (drop (p + n) line) w) as H3.
  destruct (span false DSH_TOK_DELIM (drop (p + n) line) w) as [m w1|h w1] eqn:Hspan;
    [|exact H3].
  destruct H3 as [-> _].
  assert (Hm : (0 < m)%nat).
  { eapply (span_progress false _ _ c); [| |  |exact Hspan].
    - rewrite lookup_drop, Nat.add_0_r. exact Hc.
    - exact Hn.
    - destruct (char_in DSH_TOK_DELIM c); congruence. }
  pose proof (load_reads line (Z.of_nat (p + n + m)) w) as H4.
  destruct (load line (Z.of_nat (p + n + m)) w) as [c2 w1|h w1]; [|exact H4].
  destruct H4 as [-> [Hi2 _]].
  destruct (Ascii.eqb c2 NUL).
  { split; [reflexivity|]. split; [reflexivity|]. exists (p + n + m)%nat.
    split; [reflexivity|]. split; lia. }
  unfold store. rewrite bool_decide_eq_true_2 by lia. unfold ret.
  split; [reflexivity|]. split; [apply length_insert|].
  exists (S (p + n + m)). split; [reflexivity|]. split; lia.
Qed.

(** The call as compiled reads what [strtok] reads, and a token that is
    not NULL after the passage through [int] was not NULL before it. *)
Lemma strtok_as_int_reads address line p w :
  reads_only w (strtok_as_int address line NULL DSH_TOK_DELIM (Ptr p) w)
    (fun '(token, line', save') =>
       length line' = length line /\
       exists p', save' = Ptr p' /\ (p' <= length line)%nat /\
                  (token <> NULL -> (p < p')%nat)).
Proof.
  unfold strtok_as_int, bind. pose proof (strtok_reads line p w) as Hs.
  destruct (strtok line NULL DSH_TOK_DELIM (Ptr p) w) as [[[token line'] save'] w'|h w'];
    [|exact Hs].
  destruct Hs as [-> (Hll & p' & -> & Hp' & Hprog)]. split; [reflexivity|].
  split; [exact Hll|]. exists p'. split; [reflexivity|]. split; [exact Hp'|].
  intros Hnn. apply Hprog. now apply through_int_not_NULL in Hnn.
Qed.

Lemma pointer_cases (p : pointer) : p = NULL \/ p <> NULL.
Proof. destruct p; [now left|right; discriminate|right; discriminate]. Qed.

Lemma split_loop_step sys address fuel bufsize position tokens token line save :
  token <> NULL ->
  split_loop sys address (S fuel) bufsize position tokens token line save
  = (do next <- split_iteration sys address bufsize position tokens token line save;
     let '(bufsize, position, tokens, token, line, save) := next in
     split_loop sys address fuel bufsize position tokens token line save).
Proof. intros H. destruct token; [contradiction|reflexivity|reflexivity]. Qed.

Lemma enough_fuel_token fuel token save line :
  token <> NULL ->
  enough_fuel fuel token save line <->
  exists p, save = Ptr p /\ (p <= length line)%nat /\ (length line + 2 <= fuel + p)%nat.
Proof. intros H. destruct token; [contradiction|reflexivity|reflexivity]. Qed.

(** ** The tokenizer under any allocator and on any memory *)

Section TokenizerSafety.

Variable sys : system.
Variable address : Z.

Lemma tokenizer_end_keep position tokens tokens1 r :
  take (Z.to_nat position) tokens1 = take (Z.to_nat position) tokens ->
  tokenizer_end (position + 1) tokens1 r -> 0 <= position ->
  tokenizer_end position tokens r.
Proof.
  intros H1 Hr Hpos. destruct r as [[tokens' line'] w'|h w']; [|exact Hr].
  simpl in *. replace (Z.to_nat (position + 1)) with (S (Z.to_nat position)) in Hr by lia.
  rewrite <- H1. apply (f_equal (take (Z.to_nat position))) in Hr.
  rewrite !take_take in Hr. now rewrite !Nat.min_l in Hr by lia.
Qed.

Lemma split_loop_safe (fuel : nat) :
  forall bufsize position tokens token line save w,
  enough_fuel fuel token save line ->
  0 <= position < bufsize ->
  Z.of_nat (length tokens) = bufsize ->
  bufsize <= INT_MAX ->
  let r := split_loop sys address fuel bufsize position tokens token line save w in
  tokenizer_end position tokens r /\ allocation_discipline w r.
Proof.
  induction fuel as [|fuel IH];
    intros bufsize position tokens token line save w Hfuel Hpos Hlen Hmax.
  { destruct token; simpl in Hfuel; [lia| |]; destruct Hfuel as (p & _ & ? & ?); lia. }
  destruct (pointer_cases token) as [->|Hnn].
  { simpl. unfold bind, store. rewrite bool_decide_eq_true_2 by lia. simpl.
    split; [apply take_insert_ge; lia|].
    split; [now apply all_granted_refl|reflexivity]. }
  apply (enough_fuel_token _ _ _ _ Hnn) in Hfuel. destruct Hfuel as (p & -> & Hp & Hfuel).
  rewrite split_loop_step by exact Hnn. unfold bind at 1.
  rewrite split_iteration_eq by assumption. cbv zeta.
  set (stored := <[Z.to_nat position := Some token]> tokens).
  assert (Hslen : length stored = length tokens) by apply length_insert.
  assert (Hkeep : take (Z.to_nat position) stored = take (Z.to_nat position) tokens)
    by (apply take_insert_ge; lia).
  (* what follows the update of the array, whatever the array has become *)
  assert (Hnext : forall bufsize1 tokens1 w1,
    0 <= position + 1 < bufsize1 -> Z.of_nat (length tokens1) = bufsize1 ->
    bufsize1 <= INT_MAX ->
    let r := (match
        (do next <- strtok_as_int address line NULL DSH_TOK_DELIM (Ptr p);
         let '(token, line, save) := next in
         ret (bufsize1, position + 1, tokens1, token, line, save)) w1
      with
      | Ok a w' =>
        (let '(bufsize, position, tokens, token, line, save) := a in
         split_loop sys address fuel bufsize position tokens token line save) w'
      | Halt h w' => Halt h w'
      end) in
    tokenizer_end (position + 1) tokens1 r /\ allocation_discipline w1 r).
  { intros bufsize1 tokens1 w1 Hpos1 Hlen1 Hmax1. unfold bind.
    pose proof (strtok_as_int_reads address line p w1) as Hs.
    destruct (strtok_as_int address line NULL DSH_TOK_DELIM (Ptr p) w1)
      as [[[token' line'] save'] w2|h w2].
    - destruct Hs as [-> (Hll & p' & -> & Hp' & Hprog)]. unfold ret.
      apply IH; try assumption.
      destruct (pointer_cases token') as [->|Hnn']; [simpl; lia|].
      apply (enough_fuel_token _ _ _ _ Hnn').
      exists p'. rewrite Hll. specialize (Hprog Hnn').
      split; [reflexivity|]. lia.
    - destruct h as [| | |[]|]; simpl in Hs; try contradiction; subst w2; simpl;
        (split; [exact I|split; [now apply all_granted_refl|reflexivity]]). }
  unfold DSH_TOK_BUFSIZE, INT_MAX in *.
  destruct (Z.ltb_spec (position + 1) bufsize) as [Hlt|Hge].
  - destruct (Hnext bufsize stored w) as [Hend Hall]; [lia|lia|lia|].
    split; [|exact Hall].
    eapply tokenizer_end_keep; [exact Hkeep|exact Hend|lia].
  - destruct (Z.leb_spec (bufsize + 64) 2147483647) as [Hfit|Hover].
    + destruct (heap_grants sys _ _) eqn:Hgr.
      * set (grown := resize (Z.to_nat (bufsize + 64)) None stored).
        destruct (Hnext (bufsize + 64) grown
                    (log_request ((bufsize + 64) * sizeof_char_ptr, true) w))
          as [Hend Hall]; [lia|unfold grown; rewrite length_resize; lia|lia|].
        split.
        -- eapply tokenizer_end_keep; [|exact Hend|lia].
           unfold grown. rewrite take_resize_le by lia. now rewrite resize_le by lia.
        -- eapply (allocation_discipline_after _ _ _
                     [((bufsize + 64) * sizeof_char_ptr, true)]);
             try eassumption; [reflexivity|repeat constructor|reflexivity].
      * simpl. split; [exact I|]. split; [reflexivity|].
        split; [reflexivity|]. exists [], ((bufsize + 64) * sizeof_char_ptr).
        split; [reflexivity|constructor].
    + simpl. split; [exact I|]. split; [now apply all_granted_refl|reflexivity].
Qed.

End TokenizerSafety.

(** ** The line reader as a whole *)

Lemma string_at_line (s : list ascii) (tail : memblock ascii) w :
  Forall (fun c => c <> NUL) s ->
  string_at (map Some s ++ Some NUL :: tail) w = Ok s w.
Proof.
  induction 1 as [|x s Hx _ IH]; simpl; [reflexivity|].
  destruct (Ascii.eqb_spec x NUL) as [|_]; [contradiction|].
  unfold bind. now rewrite IH.
Qed.

Lemma memory_of_prefix {A} (buffer : list A) (n : nat) (content : list A) :
  take n buffer = content -> buffer = content ++ drop n buffer.
Proof. intros <-. symmetry. apply take_drop. Qed.

Section ReadLine.

Variable sys : system.
Hypothesis granted : generous sys.

(** The first allocation: [DSH_RL_BUFSIZE] cells. *)
Lemma dsh_read_line_start w :
  heap_grants sys (length (heap_log w)) DSH_RL_BUFSIZE = true ->
  dsh_read_line sys w
  = read_loop sys (S (length (stdin w))) DSH_RL_BUFSIZE 0
      (replicate (Z.to_nat DSH_RL_BUFSIZE) None)
      (log_request (DSH_RL_BUFSIZE, true) w).
Proof.
  intros Hok. unfold dsh_read_line, malloc, bind, request.
  change (size_t (sizeof_char * DSH_RL_BUFSIZE)) with DSH_RL_BUFSIZE.
  rewrite Hok. reflexivity.
Qed.

Lemma dsh_read_line_cases w line tail :
  stdin w = line ++ tail -> ends_line tail ->
  Forall (fun c => c <> newline) line ->
  (Z.of_nat (length line) < READ_LIMIT ->
   exists buffer w',
     dsh_read_line sys w = Ok buffer w' /\
     take (length line + 1) buffer = map Some line ++ [Some NUL] /\
     stdin w' = drop 1 tail /\ same_process w w') /\
  (READ_LIMIT <= Z.of_nat (length line) ->
   exists w', dsh_read_line sys w = Halt (Undefined SignedOverflow) w').
Proof.
  intros Hin Hend Hnl. rewrite dsh_read_line_start by apply granted.
  destruct (read_loop_line sys line (S (length (stdin w))) DSH_RL_BUFSIZE 0
              (replicate (Z.to_nat DSH_RL_BUFSIZE) None)
              (log_request (DSH_RL_BUFSIZE, true) w) tail granted Hin Hend Hnl)
    as [Hok Hov].
  - rewrite Hin, length_app. lia.
  - unfold READ_LIMIT, INT_MAX, DSH_RL_BUFSIZE. lia.
  - reflexivity.
  - rewrite length_replicate. unfold DSH_RL_BUFSIZE. lia.
  - split; intros Hsz.
    + destruct Hok as (buffer & w' & Hrun & Htake & Hrest & Hsame); [lia|].
      exists buffer, w'. split; [exact Hrun|]. split; [exact Htake|]. now split.
    + apply Hov. lia.
Qed.

End ReadLine.

(** C1 (as stated, refuted): for a line of 2147482624 characters, on a
    system that grants every allocation, [dsh_read_line] does not return the
    line: when [position] reaches [bufsize] = 2147482624, the statement
    [bufsize += DSH_RL_BUFSIZE] overflows [int]. *)
Lemma read_line_any_length_counterexample :
  generous roomy /\
  (exists w', dsh_read_line roomy (on_stdin (replicate (Z.to_nat 2147482624) "a"%char))
              = Halt (Undefined SignedOverflow) w') /\
  ~ (exists buffer w',
       dsh_read_line roomy (on_stdin (replicate (Z.to_nat 2147482624) "a"%char))
       = Ok buffer w').
Proof.
  assert (Hgen : generous roomy) by (intros k bytes; reflexivity).
  assert (Hhalt : exists w',
    dsh_read_line roomy (on_stdin (replicate (Z.to_nat 2147482624) "a"%char))
    = Halt (Undefined SignedOverflow) w').
  { apply (dsh_read_line_cases roomy Hgen _ (replicate (Z.to_nat 2147482624) "a"%char) []).
    - unfold on_stdin. cbn [stdin]. now rewrite app_nil_r.
    - now left.
    - apply Forall_replicate. discriminate.
    - rewrite length_replicate, Z2Nat.id by lia.
      unfold READ_LIMIT, INT_MAX, DSH_RL_BUFSIZE. lia. }
  split; [exact Hgen|]. split; [exact Hhalt|].
  destruct Hhalt as [w' Hw']. rewrite Hw'. intros (buffer & w'' & H). discriminate H.
Qed.

(** C1 (amended): on a system that grants every allocation, for every
    input stream whose first line has fewer than 2147482624 characters,
    [dsh_read_line] returns a buffer that holds exactly the characters
    before the first newline or the end of the stream, in order, followed
    by the terminator (so it reads back as that line whenever the line has
    no NUL character), and leaves on the stream what follows the newline;
    at the end of the stream with nothing read the buffer holds the empty
    line. *)
Theorem read_line_lossless (sys : system) (w : world) (line tail : list ascii) :
  generous sys ->
  stdin w = line ++ tail -> ends_line tail ->
  Forall (fun c => c <> newline) line ->
  Z.of_nat (length line) < READ_LIMIT ->
  exists buffer w',
    dsh_read_line sys w = Ok buffer w' /\
    take (length line + 1) buffer = map Some line ++ [Some NUL] /\
    (Forall (fun c => c <> NUL) line ->
     forall w'', string_at buffer w'' = Ok line w'') /\
    stdin w' = drop 1 tail /\ same_process w w'.
Proof.
  intros Hgen Hin Hend Hnl Hsz.
  destruct (dsh_read_line_cases sys Hgen w line tail Hin Hend Hnl) as [Hok _].
  destruct (Hok Hsz) as (buffer & w' & Hrun & Htake & Hrest & Hsame).
  exists buffer, w'. repeat split; try assumption; try apply Hsame.
  intros Hnul w''. rewrite (memory_of_prefix _ _ _ Htake), <- app_assoc.
  now apply string_at_line.
Qed.

Lemma read_line_lossless_witness :
  exists buffer w',
    dsh_read_line roomy (on_stdin ["l"; "s"; newline; "p"; "s"]%char) = Ok buffer w' /\
    take 3 buffer = [Some "l"; Some "s"; Some NUL]%char /\
    (Forall (fun c => c <> NUL) ["l"; "s"]%char ->
     forall w'', string_at buffer w'' = Ok ["l"; "s"]%char w'') /\
    stdin w' = ["p"; "s"]%char /\
    same_process (on_stdin ["l"; "s"; newline; "p"; "s"]%char) w'.
Proof.
  apply (read_line_lossless roomy (on_stdin ["l"; "s"; newline; "p"; "s"]%char)
           ["l"; "s"]%char [newline; "p"; "s"]%char).
  - intros k bytes. reflexivity.
  - reflexivity.
  - right. eexists. reflexivity.
  - repeat constructor; discriminate.
  - vm_compute. reflexivity.
Defined.

(** ** Maximal runs *)

Lemma leading_run (p : ascii -> bool) (s : list ascii) :
  exists a b, s = a ++ b /\ Forall (fun c => p c = true) a /\
              (b = [] \/ exists c b', b = c :: b' /\ p c = false).
Proof.
  induction s as [|x s (a & b & -> & Ha & Hb)].
  - exists [], []. auto.
  - destruct (p x) eqn:Hx.
    + exists (x :: a), b. auto.
    + exists [], (x :: a ++ b). split; [reflexivity|]. split; [constructor|].
      right. eauto.
Qed.

Lemma maximal_runs_exist (s : list ascii) :
  Forall (fun c => c <> NUL) s -> exists ts, maximal_runs s ts.
Proof.
  remember (length s) as n eqn:Hn. revert s Hn.
  induction n as [n IH] using lt_wf_ind. intros s -> Hnul.
  destruct (leading_run is_delim s) as (d & b & -> & Hd & Hb).
  destruct Hb as [->|(c & b' & -> & Hc)].
  { exists []. rewrite app_nil_r. now constructor. }
  destruct (leading_run (fun x => negb (is_delim x)) (c :: b'))
    as (t & r & Htr & Ht & Hr).
  assert (Hne : t <> []).
  { intros ->. simpl in Htr. subst r. destruct Hr as [|(? & ? & [= <- <-] & Hx)];
      [discriminate|]. rewrite Hc in Hx. discriminate. }
  rewrite Htr in *. apply Forall_app in Hnul as [_ Hnul].
  apply Forall_app in Hnul as [Hnt Hnr].
  assert (Htok : Forall token_char t).
  { apply Forall_forall. intros x Hx. split.
    - rewrite Forall_forall in Ht. specialize (Ht x Hx).
      now apply Bool.negb_true_iff in Ht.
    - rewrite Forall_forall in Hnt. now apply Hnt. }
  destruct Hr as [->|(c2 & r' & -> & Hc2)].
  - exists [t]. rewrite app_nil_r. now constructor.
  - apply Bool.negb_false_iff in Hc2. apply Forall_cons in Hnr as [_ Hnr].
    destruct (IH (length r')) with (s := r') as [ts Hts];
      [rewrite !length_app; simpl; lia|reflexivity|exact Hnr|].
    exists (t :: ts). now constructor.
Qed.

Lemma maximal_runs_length (s : list ascii) (ts : list (list ascii)) :
  maximal_runs s ts -> (2 * length ts <= length s + 1)%nat.
Proof.
  induction 1 as [d Hd|d t Hd Hne Ht|d t c rest ts Hd Hne Ht Hc Hruns IH]; simpl.
  - lia.
  - destruct t; [contradiction|]. rewrite length_app. simpl. lia.
  - destruct t; [contradiction|]. rewrite !length_app. simpl.
    rewrite ?length_app. simpl. lia.
Qed.

Lemma maximal_runs_tokens (s : list ascii) (ts : list (list ascii)) :
  maximal_runs s ts -> Forall (fun t => t <> [] /\ Forall token_char t) ts.
Proof. induction 1; repeat constructor; assumption. Qed.

(** ** The tokenizer as a whole *)

Lemma argv_of_end_marker line (args : memblock pointer) :
  forall ts w w',
  argv_of line args w = Ok ts w' ->
  args !! length ts = Some (Some NULL) /\
  forall i, (i < length ts)%nat -> exists o, args !! i = Some (Some (Ptr o)).
Proof.
  induction args as [|[[|o|v]|] args IH]; intros ts w w'; simpl; try discriminate.
  - intros [= <- _]. split; [reflexivity|]. simpl. lia.
  - unfold bind. destruct (string_at _ w) as [s w1|]; [|discriminate].
    destruct (argv_of line args w1) as [rest w2|] eqn:Hrest; [|discriminate].
    intros [= <- _]. destruct (IH _ _ _ Hrest) as [Hend Hptr].
    split; [exact Hend|]. intros [|i] Hi; simpl in *; [eauto|]. apply Hptr. lia.
Qed.

Section SplitLine.

Variable sys : system.
Hypothesis granted : generous sys.

Lemma dsh_split_line_start line w :
  heap_grants sys (length (heap_log w)) (DSH_TOK_BUFSIZE * sizeof_char_ptr) = true ->
  dsh_split_line sys line w
  = rounds sys (line_address sys (length (heap_log w))) (S (length line))
      DSH_TOK_BUFSIZE 0
      (replicate (Z.to_nat DSH_TOK_BUFSIZE) None) line (Ptr 0)
      (log_request (DSH_TOK_BUFSIZE * sizeof_char_ptr, true) w).
Proof.
  intros Hok. unfold dsh_split_line, malloc, bind at 1, bind at 1, request.
  change (size_t (size_t DSH_TOK_BUFSIZE * sizeof_char_ptr))
    with (DSH_TOK_BUFSIZE * sizeof_char_ptr).
  rewrite Hok. unfold ret at 1, rounds, strtok_as_int, bind.
  change (strtok line (Ptr 0) DSH_TOK_DELIM NULL)
    with (strtok line NULL DSH_TOK_DELIM (Ptr 0)).
  destruct (strtok line NULL DSH_TOK_DELIM (Ptr 0) _)
    as [[[token line'] save] w1|h w1] eqn:Hs; [|reflexivity].
  assert (Hlen : length line' = length line).
  { pose proof (strtok_reads line 0 (log_request (DSH_TOK_BUFSIZE * sizeof_char_ptr, true) w))
      as Hr. rewrite Hs in Hr. apply Hr. }
  unfold ret. now rewrite Hlen.
Qed.

(** A line without tokens: no pointer passes through [int]. *)
Lemma dsh_split_line_blank d junk w :
  Forall delim_char d ->
  exists tokens line' w',
    dsh_split_line sys (line_memory d junk) w = Ok (tokens, line') w' /\
    (forall w'', argv_of line' tokens w'' = Ok [] w'') /\
    same_process w w' /\ stdin w' = stdin w.
Proof.
  intros Hd. rewrite dsh_split_line_start by apply granted.
  destruct (split_rounds_none sys (line_address sys (length (heap_log w))) d [] junk
              (S (length (line_memory d junk))) DSH_TOK_BUFSIZE 0
              (replicate (Z.to_nat DSH_TOK_BUFSIZE) None)
              (log_request (DSH_TOK_BUFSIZE * sizeof_char_ptr, true) w))
    as (tokens & line' & w' & Hrun & _ & _ & _ & Hargv & Hsame & Hin);
    [exact Hd|lia|unfold DSH_TOK_BUFSIZE; lia
    |rewrite length_replicate; unfold DSH_TOK_BUFSIZE; lia|].
  exists tokens, line', w'. split; [exact Hrun|]. split; [exact Hargv|].
  split; [exact Hsame|exact Hin].
Qed.

Lemma dsh_split_line_runs s ts junk w :
  low_memory sys (length s) ->
  maximal_runs s ts ->
  Z.of_nat (length ts) < TOKEN_LIMIT ->
  exists tokens line' w',
    dsh_split_line sys (line_memory s junk) w = Ok (tokens, line') w' /\
    (forall w'', argv_of line' tokens w'' = Ok ts w'') /\
    same_process w w' /\ stdin w' = stdin w.
Proof.
  intros Hlow Hruns Hlim. rewrite dsh_split_line_start by apply granted.
  pose proof (maximal_runs_length _ _ Hruns) as Hlen.
  destruct (Hlow (length (heap_log w))) as [Hlow0 Hlow1].
  destruct (split_rounds sys granted (line_address sys (length (heap_log w)))
              s ts Hruns [] junk
              (S (length (line_memory s junk))) DSH_TOK_BUFSIZE 0
              (replicate (Z.to_nat DSH_TOK_BUFSIZE) None)
              (log_request (DSH_TOK_BUFSIZE * sizeof_char_ptr, true) w))
    as (tokens & line' & w' & Hrun & _ & _ & _ & Hargv & Hsame & Hin).
  - exact Hlow0.
  - exact Hlow1.
  - unfold line_memory. rewrite length_app, length_map. simpl. lia.
  - lia.
  - reflexivity.
  - rewrite length_replicate. unfold DSH_TOK_BUFSIZE. lia.
  - lia.
  - exists tokens, line', w'. split; [exact Hrun|]. split; [exact Hargv|].
    split; [exact Hsame|exact Hin].
Qed.

End SplitLine.

Lemma token_count_fits (s : list ascii) (ts : list (list ascii)) :
  Z.of_nat (length s) <= INT_MAX -> maximal_runs s ts ->
  Z.of_nat (length ts) < TOKEN_LIMIT.
Proof.
  intros Hlen H. apply maximal_runs_length in H.
  unfold TOKEN_LIMIT, INT_MAX, DSH_TOK_BUFSIZE in *. lia.
Qed.

Lemma split_line_maximal_runs_lemma (sys : system) (w : world) (s : list ascii)
  (junk : memblock ascii) :
  generous sys ->
  low_memory sys (length s) ->
  Forall (fun c => c <> NUL) s ->
  exists ts tokens line' w',
    maximal_runs s ts /\
    dsh_split_line sys (line_memory s junk) w = Ok (tokens, line') w' /\
    (forall w'', argv_of line' tokens w'' = Ok ts w'') /\
    Z.of_nat (length ts) < TOKEN_LIMIT /\
    same_process w w' /\ stdin w' = stdin w.
Proof.
  intros Hgen Hlow Hnul.
  assert (Hlen : Z.of_nat (length s) <= INT_MAX) by (destruct (Hlow 0%nat); lia).
  destruct (maximal_runs_exist s Hnul) as [ts Hruns].
  pose proof (token_count_fits s ts Hlen Hruns) as Hlim.
  destruct (dsh_split_line_runs sys Hgen s ts junk w Hlow Hruns Hlim)
    as (tokens & line' & w' & Hrun & Hargv & Hsame & Hin).
  exists ts, tokens, line', w'. auto 10.
Qed.

(** C2 (the code departs from it): the line "ls -l" in a block at address
    0x5583cd03c480, every allocation granted.  Its maximal runs are "ls"
    and "-l", and [strtok] finds them at offsets 0 and 3; but the two
    pointers reach [dsh_split_line] through [int], so the array it returns
    holds 0xffffffffcd03c480 and 0xffffffffcd03c483, which are not
    addresses of the line: reading token 0 back is a load outside the
    line's block. *)
Theorem split_line_truncates_tokens :
  generous roomy_high /\
  maximal_runs ["l"; "s"; " "; "-"; "l"]%char [["l"; "s"]; ["-"; "l"]]%char /\
  exists tokens line' w',
    dsh_split_line roomy_high (line_memory ["l"; "s"; " "; "-"; "l"]%char []) (on_stdin [])
    = Ok (tokens, line') w' /\
    take 3 tokens
    = [Some (Wild 18446744072854160512); Some (Wild 18446744072854160515); Some NULL] /\
    line' = [Some "l"; Some "s"; Some NUL; Some "-"; Some "l"; Some NUL]%char /\
    argv_of line' tokens w' = Halt (Undefined OutOfBoundsLoad) w'.
Proof.
  split; [intros k bytes; reflexivity|]. split.
  - apply (runs_more [] ["l"; "s"]%char " "%char ["-"; "l"]%char [["-"; "l"]%char]).
    + constructor.
    + discriminate.
    + repeat constructor; discriminate.
    + reflexivity.
    + apply (runs_last [] ["-"; "l"]%char).
      * constructor.
      * discriminate.
      * repeat constructor; discriminate.
  - eexists _, _, _. split; [vm_compute; reflexivity|].
    split; [reflexivity|]. split; reflexivity.
Qed.

(** ** Joining tokens *)

Lemma join_cons (t t' : list ascii) (ts : list (list ascii)) :
  join (t :: t' :: ts) = t ++ " "%char :: join (t' :: ts).
Proof. reflexivity. Qed.

Lemma join_runs (ts : list (list ascii)) :
  Forall (fun t => t <> [] /\ Forall token_char t) ts ->
  maximal_runs (join ts) ts.
Proof.
  induction ts as [|t [|t' ts] IH]; intros Hts.
  - apply (runs_none []). constructor.
  - apply Forall_cons in Hts as [[Hne Ht] _]. now apply (runs_last [] t).
  - apply Forall_cons in Hts as [[Hne Ht] Hts]. rewrite join_cons.
    apply (runs_more [] t " "%char); try assumption; [constructor|reflexivity|].
    now apply IH.
Qed.

Lemma join_starts (ts : list (list ascii)) :
  Forall (fun t => t <> [] /\ Forall token_char t) ts ->
  starts_with_delim (join ts) = false.
Proof.
  destruct ts as [|t ts]; [reflexivity|]. intros Hts.
  apply Forall_cons in Hts as [[Hne Ht] _].
  destruct t as [|c t]; [contradiction|]. apply Forall_cons in Ht as [[Hc _] _].
  destruct ts; exact Hc.
Qed.

Lemma join_last (ts : list (list ascii)) :
  ts <> [] ->
  Forall (fun t => t <> [] /\ Forall token_char t) ts ->
  exists c, last (join ts) = Some c /\ token_char c.
Proof.
  induction ts as [|t [|t' ts] IH]; intros Hne Hts; [contradiction| |].
  - apply Forall_cons in Hts as [[Ht Htok] _]. simpl.
    destruct (proj2 (last_is_Some t) Ht) as [c Hc]. exists c. split; [exact Hc|].
    rewrite Forall_forall in Htok. apply Htok. now apply last_Some_elem_of.
  - apply Forall_cons in Hts as [_ Hts]. rewrite join_cons, last_app_cons, last_cons.
    destruct IH as (c & -> & Hc); [discriminate|exact Hts|]. eauto.
Qed.

Lemma join_ends (ts : list (list ascii)) :
  Forall (fun t => t <> [] /\ Forall token_char t) ts ->
  ends_with_delim (join ts) = false.
Proof.
  intros Hts. unfold ends_with_delim. destruct ts as [|t ts]; [reflexivity|].
  destruct (join_last (t :: ts)) as (c & -> & Hc & _); [discriminate|exact Hts|].
  exact Hc.
Qed.

Lemma adjacent_delims_after_token (t rest : list ascii) :
  Forall token_char t ->
  has_adjacent_delims (t ++ rest) = has_adjacent_delims rest.
Proof.
  induction 1 as [|c t [Hc _] _ IH]; [reflexivity|]. simpl. now rewrite Hc, IH.
Qed.

Lemma join_adjacent (ts : list (list ascii)) :
  Forall (fun t => t <> [] /\ Forall token_char t) ts ->
  has_adjacent_delims (join ts) = false.
Proof.
  induction ts as [|t [|t' ts] IH]; intros Hts; [reflexivity| |].
  - apply Forall_cons in Hts as [[_ Ht] _]. simpl.
    rewrite <- (app_nil_r t). now rewrite adjacent_delims_after_token.
  - apply Forall_cons in Hts as [[_ Ht] Hts].
    rewrite join_cons, adjacent_delims_after_token by exact Ht.
    change (has_adjacent_delims (" "%char :: join (t' :: ts)))
      with ((is_delim " "%char && starts_with_delim (join (t' :: ts)))
            || has_adjacent_delims (join (t' :: ts))).
    rewrite (join_starts _ Hts), (IH Hts). reflexivity.
Qed.

(** C9 (the code departs from it): the line " ls  -l" in a block at
    address 0x5583cd03c480, every allocation granted.  [dsh_split_line]
    returns an array of two entries and the end marker, but the entries are
    the tokens' pointers after their passage through [int]: nothing can be
    read through them, so there are no tokens to join; and the same holds
    for the array that the joined string "ls -l" gives at that address. *)
Theorem split_join_tokens_unreadable :
  (exists tokens line' w',
     dsh_split_line roomy_high
       (line_memory [" "; "l"; "s"; " "; " "; "-"; "l"]%char [None]) (on_stdin [])
     = Ok (tokens, line') w' /\
     tokens !! 2%nat = Some (Some NULL) /\
     forall ts w1 w2, argv_of line' tokens w1 <> Ok ts w2) /\
  join [["l"; "s"]; ["-"; "l"]]%char = ["l"; "s"; " "; "-"; "l"]%char /\
  (exists tokens line' w',
     dsh_split_line roomy_high (line_memory (join [["l"; "s"]; ["-"; "l"]]%char) [])
       (on_stdin [])
     = Ok (tokens, line') w' /\
     forall ts w1 w2, argv_of line' tokens w1 <> Ok ts w2).
Proof.
  split; [|split; [reflexivity|]].
  - eexists _, _, _. split; [vm_compute; reflexivity|]. split; [reflexivity|].
    intros ts w1 w2. discriminate.
  - eexists _, _, _. split; [vm_compute; reflexivity|].
    intros ts w1 w2. discriminate.
Qed.

(** ** Growth of the two buffers *)

Section Growth.

Variable sys : system.


Lemma split_iteration_grows address bufsize position tokens token line save w
  bufsize' position' tokens' token' line' save' w' :
  0 <= position < bufsize ->
  Z.of_nat (length tokens) = bufsize ->
  bufsize <= INT_MAX ->
  split_iteration sys address bufsize position tokens token line save w
  = Ok (bufsize', position', tokens', token', line', save') w' ->
  position' = position + 1 /\
  Z.of_nat (length tokens') = bufsize' /\
  bufsize' = (if position' >=? bufsize then bufsize + DSH_TOK_BUFSIZE else bufsize) /\
  bufsize' <= INT_MAX /\
  take (Z.to_nat position) tokens' = take (Z.to_nat position) tokens /\
  tokens' !! Z.to_nat position = Some (Some token).
Proof.
  intros Hpos Hlen Hmax. rewrite split_iteration_eq by assumption. cbv zeta.
  unfold DSH_TOK_BUFSIZE, INT_MAX in *.
  set (stored := <[Z.to_nat position := Some token]> tokens).
  assert (Hslen : length stored = length tokens) by apply length_insert.
  assert (Hkeep : take (Z.to_nat position) stored = take (Z.to_nat position) tokens)
    by (apply take_insert_ge; lia).
  assert (Hat : stored !! Z.to_nat position = Some (Some token))
    by (apply list_lookup_insert_eq; lia).
  destruct (Z.ltb_spec (position + 1) bufsize) as [Hlt|Hge].
  - unfold bind. destruct (strtok_as_int _ _ _ _ _ w) as [[[tk ln] sv] w1|]; [|discriminate].
    intros [= <- <- <- <- <- <- <-]. rewrite geb_false by lia.
    repeat split; (assumption || lia).
  - destruct (Z.leb_spec (bufsize + 64) 2147483647) as [Hfit|Hover]; [|discriminate].
    destruct (heap_grants sys _ _); [|discriminate].
    unfold bind. destruct (strtok_as_int _ _ _ _ _ _) as [[[tk ln] sv] w1|]; [|discriminate].
    intros [= <- <- <- <- <- <- <-]. rewrite geb_true by lia.
    split; [reflexivity|]. split; [rewrite length_resize; lia|].
    split; [reflexivity|]. split; [lia|].
    split; [rewrite take_resize_le by lia; now rewrite resize_le by lia|].
    rewrite lookup_resize by lia. exact Hat.
Qed.

Lemma growth_fits (bufsize position bufsize' increment : Z) :
  0 <= position < bufsize -> bufsize <= INT_MAX -> 0 < increment ->
  bufsize' = (if position + 1 >=? bufsize then bufsize + increment else bufsize) ->
  0 <= position + 1 < bufsize'.
Proof.
  intros Hpos Hmax Hinc ->. destruct (Z.ltb_spec (position + 1) bufsize).
  - rewrite geb_false by lia. lia.
  - rewrite geb_true by lia. lia.
Qed.


End Growth.

Section GrowthOfTokens.

Variable sys : system.
Variable address : Z.

Lemma split_loop_keeps (fuel : nat) :
  forall bufsize position tokens token line save w tokens' line' w',
  0 <= position < bufsize ->
  Z.of_nat (length tokens) = bufsize ->
  bufsize <= INT_MAX ->
  split_loop sys address fuel bufsize position tokens token line save w
  = Ok (tokens', line') w' ->
  take (Z.to_nat position) tokens' = take (Z.to_nat position) tokens.
Proof.
  induction fuel as [|fuel IH];
    intros bufsize position tokens token line save w tokens' line' w' Hpos Hlen Hmax;
    [discriminate|].
  destruct (pointer_cases token) as [->|Hnn].
  - simpl. unfold bind, store. rewrite bool_decide_eq_true_2 by lia. intros [= <- _ _].
    apply take_insert_ge. lia.
  - rewrite split_loop_step by exact Hnn. unfold bind.
    destruct (split_iteration sys address bufsize position tokens token line save w)
      as [[[[[[b1 p1] tk1] t1] l1] s1] w1|] eqn:Hit; [|discriminate].
    intros Hrun.
    destruct (split_iteration_grows _ _ _ _ _ _ _ _ _ _ _ _ _ _ _ _ Hpos Hlen Hmax Hit)
      as (-> & Hl1 & Hb1 & Hm1 & Hkeep & _).
    pose proof (growth_fits bufsize position b1 DSH_TOK_BUFSIZE Hpos Hmax eq_refl Hb1).
    apply IH in Hrun; try assumption.
    rewrite <- Hkeep. apply (f_equal (take (Z.to_nat position))) in Hrun.
    rewrite !take_take in Hrun. now rewrite !Nat.min_l in Hrun by lia.
Qed.

End GrowthOfTokens.




(** ** Allocation failure and memory safety of the two functions *)

Section Safety.

Variable sys : system.

Lemma dsh_read_line_safe w :
  reader_end 0 [] (dsh_read_line sys w) /\
  allocation_discipline w (dsh_read_line sys w).
Proof.
  destruct (heap_grants sys (length (heap_log w)) DSH_RL_BUFSIZE) eqn:Hok.
  - rewrite dsh_read_line_start by exact Hok.
    destruct (read_loop_safe sys (stdin w) (S (length (stdin w))) DSH_RL_BUFSIZE 0
                (replicate (Z.to_nat DSH_RL_BUFSIZE) None)
                (log_request (DSH_RL_BUFSIZE, true) w)) as [Hend Hall];
      try reflexivity; try (unfold DSH_RL_BUFSIZE, INT_MAX; lia).
    split.
    + destruct (read_loop _ _ _ _ _ _) as [buffer' w'|h w']; [reflexivity|exact Hend].
    + eapply (allocation_discipline_after _ _ _ [(DSH_RL_BUFSIZE, true)]);
        try eassumption; [reflexivity|repeat constructor|reflexivity].
  - unfold dsh_read_line, malloc, bind, request.
    change (size_t (sizeof_char * DSH_RL_BUFSIZE)) with DSH_RL_BUFSIZE.
    rewrite Hok. simpl. split; [exact I|]. split; [reflexivity|].
    split; [reflexivity|]. exists [], DSH_RL_BUFSIZE. split; [reflexivity|constructor].
Qed.

Lemma dsh_split_line_safe line w :
  tokenizer_end 0 [] (dsh_split_line sys line w) /\
  allocation_discipline w (dsh_split_line sys line w).
Proof.
  destruct (heap_grants sys (length (heap_log w)) (DSH_TOK_BUFSIZE * sizeof_char_ptr))
    eqn:Hok.
  - rewrite dsh_split_line_start by exact Hok. unfold rounds, bind.
    set (w1 := log_request (DSH_TOK_BUFSIZE * sizeof_char_ptr, true) w).
    set (address := line_address sys (length (heap_log w))).
    pose proof (strtok_as_int_reads address line 0 w1) as Hs.
    destruct (strtok_as_int address line NULL DSH_TOK_DELIM (Ptr 0) w1)
      as [[[token line'] save] w2|h w2].
    + destruct Hs as [-> (Hll & p' & -> & Hp' & Hprog)].
      destruct (split_loop_safe sys address (S (length line)) DSH_TOK_BUFSIZE 0
                  (replicate (Z.to_nat DSH_TOK_BUFSIZE) None) token line' (Ptr p') w1)
        as [Hend Hall];
        try reflexivity; try (unfold DSH_TOK_BUFSIZE, INT_MAX; lia).
      { destruct (pointer_cases token) as [->|Hnn]; [simpl; lia|].
        apply (enough_fuel_token _ _ _ _ Hnn). exists p'. rewrite Hll.
        specialize (Hprog Hnn). split; [reflexivity|]. lia. }
      split.
      * destruct (split_loop _ _ _ _ _ _ _ _ _ _) as [[tokens' l'] w'|h w'];
          [reflexivity|exact Hend].
      * eapply (allocation_discipline_after _ _ _
                  [(DSH_TOK_BUFSIZE * sizeof_char_ptr, true)]);
          try eassumption; [reflexivity|repeat constructor|reflexivity].
    + destruct h as [| | |[]|]; simpl in Hs; try contradiction; subst w2; simpl;
        (split; [exact I|]; split; [|reflexivity];
         exists [(DSH_TOK_BUFSIZE * sizeof_char_ptr, true)];
         split; [reflexivity|repeat constructor]).
  - unfold dsh_split_line, malloc, bind, request.
    change (size_t (size_t DSH_TOK_BUFSIZE * sizeof_char_ptr))
      with (DSH_TOK_BUFSIZE * sizeof_char_ptr).
    rewrite Hok. simpl. split; [exact I|]. split; [reflexivity|].
    split; [reflexivity|]. exists [], (DSH_TOK_BUFSIZE * sizeof_char_ptr).
    split; [reflexivity|constructor].
Qed.

End Safety.

Lemma granted_not_denied (w w' : world) :
  all_granted w w' -> ~ denied_between w w'.
Proof.
  intros (reqs & Hlog & Hall) (bytes & Hin). rewrite Hlog, drop_app_length in Hin.
  rewrite Forall_forall in Hall. specialize (Hall _ Hin). discriminate Hall.
Qed.

Lemma denied_is_fatal {A} (w : world) (r : result A) :
  allocation_discipline w r -> denied_between w (world_of r) ->
  exists w', r = Halt (Exit EXIT_FAILURE) w' /\ fatal_allocation w w'.
Proof.
  intros Hall Hden. destruct r as [a w'|h w']; simpl in *.
  - destruct Hall as [Hg _]. now apply granted_not_denied in Hg.
  - destruct h as [code| | | |];
      try (destruct Hall as [Hg _]; now apply granted_not_denied in Hg).
    destruct Hall as [-> Hf]. eauto.
Qed.

(** C7: whenever an allocation request of [dsh_read_line] or of
    [dsh_split_line] ([malloc] or [realloc]) is denied, the run ends in
    [exit(EXIT_FAILURE)] with the one line "dsh: allocation error" added to
    stderr and the denied request as the last thing done; a line or a token
    array is returned only when every request was granted. *)
Theorem allocation_failure_is_fatal (sys : system) (w : world) (line : memblock ascii) :
  (denied_between w (world_of (dsh_read_line sys w)) ->
   exists w', dsh_read_line sys w = Halt (Exit EXIT_FAILURE) w' /\
              stderr w' = stderr w ++ [Text ("dsh: allocation error" ++ LF)] /\
              fatal_allocation w w') /\
  (denied_between w (world_of (dsh_split_line sys line w)) ->
   exists w', dsh_split_line sys line w = Halt (Exit EXIT_FAILURE) w' /\
              stderr w' = stderr w ++ [Text ("dsh: allocation error" ++ LF)] /\
              fatal_allocation w w') /\
  (forall buffer w', dsh_read_line sys w = Ok buffer w' -> all_granted w w') /\
  (forall tokens line' w',
     dsh_split_line sys line w = Ok (tokens, line') w' -> all_granted w w').
Proof.
  destruct (dsh_read_line_safe sys w) as [_ Hread].
  destruct (dsh_split_line_safe sys line w) as [_ Hsplit].
  split; [|split; [|split]].
  - intros Hden. destruct (denied_is_fatal _ _ Hread Hden) as (w' & Hrun & Hf).
    exists w'. split; [exact Hrun|]. split; [apply Hf|exact Hf].
  - intros Hden. destruct (denied_is_fatal _ _ Hsplit Hden) as (w' & Hrun & Hf).
    exists w'. split; [exact Hrun|]. split; [apply Hf|exact Hf].
  - intros buffer w' Hrun. rewrite Hrun in Hread. apply Hread.
  - intros tokens line' w' Hrun. rewrite Hrun in Hsplit. apply Hsplit.
Qed.

Lemma allocation_failure_is_fatal_witness :
  (exists w', dsh_read_line tight (on_stdin (replicate 1024 "a"%char))
              = Halt (Exit EXIT_FAILURE) w' /\
              stderr w' = [Text ("dsh: allocation error" ++ LF)] /\
              fatal_allocation (on_stdin (replicate 1024 "a"%char)) w') /\
  (exists w', dsh_split_line tight (line_memory many_tokens []) (on_stdin [])
              = Halt (Exit EXIT_FAILURE) w' /\
              stderr w' = [Text ("dsh: allocation error" ++ LF)] /\
              fatal_allocation (on_stdin []) w').
Proof.
  pose proof (allocation_failure_is_fatal tight (on_stdin (replicate 1024 "a"%char)) [])
    as (Hread & _).
  pose proof (allocation_failure_is_fatal tight (on_stdin [])
                (line_memory many_tokens [])) as (_ & Hsplit & _).
  split.
  - apply Hread. exists 2048.
    assert (Hlog : heap_log (world_of (dsh_read_line tight (on_stdin (replicate 1024 "a"%char))))
                   = [(1024, true); (2048, false)]) by (vm_compute; reflexivity).
    rewrite Hlog. apply list_elem_of_further, list_elem_of_here.
  - apply Hsplit. exists 1536.
    assert (Hlog : heap_log (world_of (dsh_split_line tight (line_memory many_tokens [])
                                         (on_stdin [])))
                   = [(512, true); (1024, true); (1536, false)])
      by (vm_compute; reflexivity).
    rewrite Hlog. do 2 apply list_elem_of_further. apply list_elem_of_here.
Defined.

(** C10: whatever the input, the line and the allocator's answers, no run
    of [dsh_read_line] or [dsh_split_line] stores outside a block: every
    store into the line buffer and into the token array, the final
    terminator included, is at an index below the capacity the block has at
    that moment; and neither run needs more iterations than the model
    allows for. *)
Theorem stores_stay_in_bounds (sys : system) (w : world) (line : memblock ascii) :
  (forall w', dsh_read_line sys w <> Halt (Undefined OutOfBoundsStore) w') /\
  (forall w', dsh_split_line sys line w <> Halt (Undefined OutOfBoundsStore) w') /\
  (forall w', dsh_read_line sys w <> Halt Unfinished w') /\
  (forall w', dsh_split_line sys line w <> Halt Unfinished w').
Proof.
  destruct (dsh_read_line_safe sys w) as [Hread _].
  destruct (dsh_split_line_safe sys line w) as [Hsplit _].
  repeat split; intros w' Hrun.
  - rewrite Hrun in Hread. exact Hread.
  - rewrite Hrun in Hsplit. exact Hsplit.
  - rewrite Hrun in Hread. exact Hread.
  - rewrite Hrun in Hsplit. exact Hsplit.
Qed.

(** ** The launcher *)

Section Launch.

Variable sys : system.

Lemma wait_loop_returns (pre : list Z) (s : Z) (post : list (option Z)) :
  Forall (fun s => terminal sys s = false) pre ->
  terminal sys s = true ->
  forall status w,
    wait_loop sys (map Some pre ++ Some s :: post) status w = Ok tt w.
Proof.
  unfold terminal. intros Hpre Hs.
  induction Hpre as [|x pre Hx _ IH]; intros status w; simpl.
  - apply Bool.orb_true_iff in Hs.
    destruct (WIFEXITED sys s), (WIFSIGNALED sys s); simpl; try reflexivity.
    destruct Hs; discriminate.
  - apply Bool.orb_false_iff in Hx as [-> ->]. simpl. apply IH.
Qed.

Lemma wait_loop_blocked (pre : list Z) :
  Forall (fun s => terminal sys s = false) pre ->
  forall status w, wait_loop sys (map Some pre) status w = Halt Blocked w.
Proof.
  unfold terminal. induction 1 as [|x pre Hx _ IH]; intros status w; simpl.
  - reflexivity.
  - apply Bool.orb_false_iff in Hx as [-> ->]. simpl. apply IH.
Qed.

Lemma dsh_launch_parent args line w :
  0 < fork_pid sys (forks w) ->
  dsh_launch sys args line w
  = (do _ <- wait_loop sys (wait_reports sys (fork_pid sys (forks w))) None; ret 1)
      (count_fork w).
Proof.
  intros Hpid. unfold dsh_launch, bind at 1, fork.
  destruct (Z.eqb_spec (fork_pid sys (forks w)) 0) as [|_]; [lia|].
  destruct (Z.ltb_spec (fork_pid sys (forks w)) 0) as [|_]; [lia|].
  reflexivity.
Qed.

Lemma dsh_launch_waits args line w pre s post :
  0 < fork_pid sys (forks w) ->
  wait_reports sys (fork_pid sys (forks w)) = map Some pre ++ Some s :: post ->
  Forall (fun s => terminal sys s = false) pre ->
  terminal sys s = true ->
  dsh_launch sys args line w = Ok 1 (count_fork w).
Proof.
  intros Hpid Hrep Hpre Hs. rewrite dsh_launch_parent by exact Hpid.
  unfold bind. rewrite Hrep, wait_loop_returns by assumption. reflexivity.
Qed.

Lemma dsh_launch_signal args line w v w' :
  dsh_launch sys args line w = Ok v w' -> v = 1 /\ fork_pid sys (forks w) <> 0.
Proof.
  unfold dsh_launch, bind at 1, fork, bind at 1.
  destruct (Z.eqb_spec (fork_pid sys (forks w)) 0) as [Hz|Hnz].
  - unfold bind.
    destruct (load args 0 _) as [arg0 w1|]; [|discriminate].
    destruct (execvp sys arg0 args line w1) as [r w2|]; [|discriminate].
    destruct (r =? -1); discriminate.
  - destruct (fork_pid sys (forks w) <? 0).
    + intros [= <- _]. now split.
    + destruct (wait_loop sys _ None _) as [[] w1|]; [|discriminate].
      intros [= <- _]. now split.
Qed.

End Launch.

(** C8: in the parent of a child that was created, while the statuses
    reported for the child say neither "exited" nor "terminated by a
    signal" (a stopped child), [dsh_launch] has not returned; it returns,
    with the continue signal, at the first reported status that says one of
    the two, whatever is reported after it. *)
Theorem launch_waits_for_terminal_state (sys : system) (args : memblock pointer)
  (line : memblock ascii) (w : world) (pre : list Z) :
  0 < fork_pid sys (forks w) ->
  Forall (fun s => terminal sys s = false) pre ->
  (wait_reports sys (fork_pid sys (forks w)) = map Some pre ->
   dsh_launch sys args line w = Halt Blocked (count_fork w)) /\
  (forall s post,
     terminal sys s = true ->
     wait_reports sys (fork_pid sys (forks w)) = map Some pre ++ Some s :: post ->
     dsh_launch sys args line w = Ok 1 (count_fork w)).
Proof.
  intros Hpid Hpre. split.
  - intros Hrep. rewrite dsh_launch_parent by exact Hpid.
    unfold bind. rewrite Hrep, wait_loop_blocked by assumption. reflexivity.
  - intros s post Hs Hrep. now apply (dsh_launch_waits sys args line w pre s post).
Qed.

Lemma launch_waits_for_terminal_state_witness :
  (wait_reports roomy (fork_pid roomy (forks (on_stdin []))) = map Some [5247] ->
   dsh_launch roomy [Some NULL] [] (on_stdin []) = Halt Blocked (count_fork (on_stdin []))) /\
  (forall s post,
     terminal roomy s = true ->
     wait_reports roomy (fork_pid roomy (forks (on_stdin [])))
     = map Some [5247] ++ Some s :: post ->
     dsh_launch roomy [Some NULL] [] (on_stdin []) = Ok 1 (count_fork (on_stdin []))).
Proof.
  apply (launch_waits_for_terminal_state roomy [Some NULL] [] (on_stdin []) [5247]).
  - vm_compute. reflexivity.
  - repeat constructor.
Defined.

(** C6: in the shell's process [dsh_launch] returns the continue signal 1
    and nothing else: after a diagnostic when [fork] fails, and as soon as a
    terminal status of the child is reported (a child whose [execvp] failed
    exits with [EXIT_FAILURE] after its own diagnostic, and never returns
    into the shell's code).  A value other than 1 is never returned. *)
Theorem launch_always_continues (sys : system) (args : memblock pointer)
  (line : memblock ascii) (w : world) :
  (fork_pid sys (forks w) < 0 ->
   dsh_launch sys args line w = Ok 1 (put_stderr (Perror "dsh") (count_fork w))) /\
  (forall pre s post,
     0 < fork_pid sys (forks w) ->
     wait_reports sys (fork_pid sys (forks w)) = map Some pre ++ Some s :: post ->
     Forall (fun s => terminal sys s = false) pre ->
     terminal sys s = true ->
     dsh_launch sys args line w = Ok 1 (count_fork w)) /\
  (forall v w', dsh_launch sys args line w = Ok v w' ->
                v = 1 /\ fork_pid sys (forks w) <> 0) /\
  (forall arg0 file argv,
     fork_pid sys (forks w) = 0 ->
     load args 0 (count_fork w) = Ok arg0 (count_fork w) ->
     deref line arg0 (count_fork w) = Ok file (count_fork w) ->
     argv_of line args (count_fork w) = Ok argv (count_fork w) ->
     dsh_launch sys args line w
     = if execvp_ok sys file then Halt (Exec file argv) (count_fork w)
       else Halt (Exit EXIT_FAILURE) (put_stderr (Perror "dsh") (count_fork w))).
Proof.
  split; [|split; [|split]].
  - intros Hpid. unfold dsh_launch, bind, fork.
    destruct (Z.eqb_spec (fork_pid sys (forks w)) 0) as [|_]; [lia|].
    destruct (Z.ltb_spec (fork_pid sys (forks w)) 0) as [_|]; [reflexivity|lia].
  - intros pre s post. apply dsh_launch_waits.
  - apply dsh_launch_signal.
  - intros arg0 file argv Hpid Hload Hfile Hargv.
    unfold dsh_launch, bind at 1, fork. rewrite Hpid. simpl Z.eqb. cbv iota.
    unfold bind at 1, bind at 1. rewrite Hload.
    unfold execvp, bind. rewrite Hfile, Hargv.
    destruct (execvp_ok sys file); reflexivity.
Qed.

Lemma launch_always_continues_witness :
  dsh_launch tight [Some NULL] [] (on_stdin [])
  = Ok 1 (put_stderr (Perror "dsh") (count_fork (on_stdin []))) /\
  dsh_launch roomy [Some NULL] [] (on_stdin []) = Ok 1 (count_fork (on_stdin [])).
Proof.
  split.
  - apply (launch_always_continues tight [Some NULL] [] (on_stdin [])).
    vm_compute. reflexivity.
  - apply (proj1 (proj2 (launch_always_continues roomy [Some NULL] [] (on_stdin [])))
             [5247] 256 []).
    + vm_compute. reflexivity.
    + reflexivity.
    + repeat constructor.
    + reflexivity.
Defined.

(** ** The dispatcher and the loop *)

Lemma load_lookup {A} (b : memblock A) (i : nat) (v : A) w :
  b !! i = Some (Some v) -> load b (Z.of_nat i) w = Ok v w.
Proof.
  intros H. unfold load. pose proof (lookup_lt_Some _ _ _ H).
  rewrite bool_decide_eq_true_2 by lia. now rewrite Nat2Z.id, H.
Qed.

Lemma streq_spec (a b : list ascii) : streq a b = true <-> a = b.
Proof.
  revert b. induction a as [|x a IH]; intros [|y b]; simpl; try easy.
  rewrite Bool.andb_true_iff, IH, Ascii.eqb_eq. split.
  - intros [-> ->]. reflexivity.
  - intros [= -> ->]. auto.
Qed.

Lemma string_at_pure (cells : memblock ascii) :
  forall s w w', string_at cells w = Ok s w' ->
  w' = w /\ forall w2, string_at cells w2 = Ok s w2.
Proof.
  induction cells as [|[c|] cells IH]; intros s w w'; simpl; try discriminate.
  destruct (Ascii.eqb c NUL).
  - intros [= <- <-]. auto.
  - unfold bind. destruct (string_at cells w) as [s1 w1|] eqn:H1; [|discriminate].
    intros [= <- <-]. destruct (IH _ _ _ H1) as [-> Hall].
    split; [reflexivity|]. intros w2. now rewrite Hall.
Qed.

Lemma argv_of_head line (args : memblock pointer) t ts w w' :
  argv_of line args w = Ok (t :: ts) w' ->
  exists o, args !! 0%nat = Some (Some (Ptr o)) /\
            forall w2, string_at (drop o line) w2 = Ok t w2.
Proof.
  destruct args as [|[[|o|v]|] args]; simpl; try discriminate.
  unfold bind. destruct (string_at (drop o line) w) as [s w1|] eqn:Hs; [|discriminate].
  destruct (argv_of line args w1) as [rest w2|]; [|discriminate].
  intros [= <- _ _]. exists o. split; [reflexivity|].
  now apply (string_at_pure _ _ _ _ Hs).
Qed.

Lemma find_builtin_first (name : list ascii) (names : list string) :
  forall (funcs : list handler) (f : handler),
  find_builtin name names funcs = Some f <->
  exists i n,
    names !! i = Some n /\ funcs !! i = Some f /\
    name = list_ascii_of_string n /\
    forall j n', (j < i)%nat -> names !! j = Some n' ->
                 name <> list_ascii_of_string n'.
Proof.
  induction names as [|n names IH]; intros funcs f.
  - simpl. split; [discriminate|]. intros (i & n & H & _). now destruct i.
  - destruct funcs as [|g funcs].
    { simpl. split; [discriminate|]. intros (i & n' & _ & H & _). now destruct i. }
    simpl. destruct (streq name (list_ascii_of_string n)) eqn:Heq.
    + apply streq_spec in Heq. split.
      * intros [= <-]. exists 0%nat, n. repeat split; try assumption. intros j n' Hj. lia.
      * intros ([|i] & n' & Hn & Hf & Hname & Hfirst).
        -- simpl in Hf. congruence.
        -- exfalso. apply (Hfirst 0%nat n); [lia|reflexivity|exact Heq].
    + assert (Hne : name <> list_ascii_of_string n).
      { intros H. apply streq_spec in H. congruence. }
      rewrite IH. split.
      * intros (i & n' & Hn & Hf & Hname & Hfirst). exists (S i), n'.
        repeat split; try assumption.
        intros [|j] n2 Hj Hn2; simpl in Hn2; [congruence|].
        apply (Hfirst j); [lia|exact Hn2].
      * intros ([|i] & n' & Hn & Hf & Hname & Hfirst).
        -- simpl in Hn. congruence.
        -- exists i, n'. repeat split; try assumption.
           intros j n2 Hj Hn2. apply (Hfirst (S j)); [lia|exact Hn2].
Qed.

Section Dispatch.

Variable sys : system.

Lemma dsh_execute_empty args line w :
  args !! 0%nat = Some (Some NULL) -> dsh_execute sys args line w = Ok 1 w.
Proof.
  intros H. unfold dsh_execute, bind.
  change 0 with (Z.of_nat 0). now rewrite (load_lookup _ _ _ _ H).
Qed.

(** The dispatch on token 0: the table is searched in its order. *)
Lemma dsh_execute_named args line w o name :
  args !! 0%nat = Some (Some (Ptr o)) ->
  string_at (drop o line) w = Ok name w ->
  dsh_execute sys args line w
  = if streq name (list_ascii_of_string "cd") then dsh_cd sys args line w
    else if streq name (list_ascii_of_string "help") then dsh_help args line w
    else if streq name (list_ascii_of_string "exit") then Ok 0 w
    else dsh_launch sys args line w.
Proof.
  intros H Hname. unfold dsh_execute, bind.
  change 0 with (Z.of_nat 0) at 1. rewrite (load_lookup _ _ _ _ H).
  unfold deref. rewrite Hname. unfold builtin_str, builtin_func, find_builtin.
  destruct (streq name (list_ascii_of_string "cd")); [reflexivity|].
  destruct (streq name (list_ascii_of_string "help")); [reflexivity|].
  destruct (streq name (list_ascii_of_string "exit")); reflexivity.
Qed.

Lemma dsh_execute_exit args line w o :
  args !! 0%nat = Some (Some (Ptr o)) ->
  string_at (drop o line) w = Ok (list_ascii_of_string "exit") w ->
  dsh_execute sys args line w = Ok 0 w.
Proof. intros H Hname. now rewrite (dsh_execute_named _ _ _ _ _ H Hname). Qed.

(** A turn of the loop after its prompt. *)
Lemma dsh_loop_unfold fuel w :
  dsh_loop sys (S fuel) w
  = (do line <- dsh_read_line sys;
     do parsed <- dsh_split_line sys line;
     let '(args, line) := parsed in
     do status <- dsh_execute sys args line;
     if status =? 0 then ret tt else dsh_loop sys fuel)
      (put_stdout (Text prompt) w).
Proof.
  simpl. unfold bind, printf.
  destruct (dsh_read_line sys _) as [line w1|]; [|reflexivity].
  destruct (dsh_split_line sys line w1) as [[args mem] w2|]; [|reflexivity].
  destruct (dsh_execute sys args mem w2) as [status w3|]; reflexivity.
Qed.

Hypothesis granted : generous sys.

(** One turn of the loop on a line without tokens, up to the dispatch: the
    prompt, the line, the empty token array. *)
Lemma dsh_loop_turn w d tail :
  stdin w = d ++ tail -> ends_line tail ->
  Forall (fun c => c <> newline) d ->
  Forall delim_char d ->
  Z.of_nat (length d) < READ_LIMIT ->
  exists args mem w1,
    stdin w1 = drop 1 tail /\ stdout w1 = stdout w ++ [Text prompt] /\
    stderr w1 = stderr w /\ forks w1 = forks w /\ cwd w1 = cwd w /\
    args !! 0%nat = Some (Some NULL) /\
    forall fuel,
      dsh_loop sys (S fuel) w
      = (do status <- dsh_execute sys args mem;
         if status =? 0 then ret tt else dsh_loop sys fuel) w1.
Proof.
  intros Hin Hend Hnl Hd Hsz.
  destruct (dsh_read_line_cases sys granted (put_stdout (Text prompt) w) d tail
              Hin Hend Hnl) as [Hok _].
  destruct (Hok Hsz) as (buffer & w1 & Hread & Htake & Hrest & Hs1 & He1 & Hf1 & Hc1).
  apply memory_of_prefix in Htake. rewrite <- app_assoc in Htake. simpl in Htake.
  destruct (dsh_split_line_blank sys granted d (drop (length d + 1) buffer) w1 Hd)
    as (tokens & mem & w2 & Hsplit & Hargv & (Hs2 & He2 & Hf2 & Hc2) & Hin2).
  unfold line_memory in Hsplit. rewrite <- Htake in Hsplit.
  destruct (argv_of_end_marker _ _ _ _ _ (Hargv w2)) as [Hend0 _].
  exists tokens, mem, w2. simpl in Hs1, He1, Hf1, Hc1.
  split; [congruence|]. split; [congruence|].
  split; [congruence|]. split; [congruence|]. split; [congruence|].
  split; [exact Hend0|]. intros fuel.
  rewrite dsh_loop_unfold. unfold bind at 1. rewrite Hread.
  unfold bind at 1. rewrite Hsplit. reflexivity.
Qed.

End Dispatch.

(** C4: [dsh_execute] applied to a token array whose first entry is the end
    marker returns the continue signal and leaves the world as it is; and a
    turn of [dsh_loop] on a line that is empty or made of delimiters only
    prints the prompt, consumes the line, calls the dispatcher on such an
    array, changes nothing else (no output to stderr, no process, same
    working directory), and the loop goes on: its next turn prints the
    prompt again and reads the next line. *)
Theorem empty_command_is_noop (sys : system) :
  (forall args line w,
     args !! 0%nat = Some (Some NULL) -> dsh_execute sys args line w = Ok 1 w) /\
  (forall fuel w d tail,
     generous sys ->
     stdin w = d ++ tail -> ends_line tail ->
     Forall delim_char d -> Forall (fun c => c <> newline) d ->
     Z.of_nat (length d) < READ_LIMIT ->
     exists args mem w1,
       args !! 0%nat = Some (Some NULL) /\
       stdin w1 = drop 1 tail /\ stdout w1 = stdout w ++ [Text prompt] /\
       stderr w1 = stderr w /\ forks w1 = forks w /\ cwd w1 = cwd w /\
       dsh_loop sys (S fuel) w
       = (do status <- dsh_execute sys args mem;
          if status =? 0 then ret tt else dsh_loop sys fuel) w1 /\
       dsh_loop sys (S fuel) w = dsh_loop sys fuel w1 /\
       dsh_loop sys (S (S fuel)) w
       = (do line <- dsh_read_line sys;
          do parsed <- dsh_split_line sys line;
          let '(args, line) := parsed in
          do status <- dsh_execute sys args line;
          if status =? 0 then ret tt else dsh_loop sys fuel)
           (put_stdout (Text prompt) w1)).
Proof.
  split; [apply dsh_execute_empty|].
  intros fuel w d tail Hgen Hin Hend Hd Hnl Hsz.
  destruct (dsh_loop_turn sys Hgen w d tail Hin Hend Hnl Hd Hsz)
    as (args & mem & w1 & H1 & H2 & H3 & H4 & H5 & Hend0 & Hturn).
  assert (Hnext : forall fuel', dsh_loop sys (S fuel') w = dsh_loop sys fuel' w1).
  { intros fuel'. rewrite Hturn. unfold bind.
    now rewrite (dsh_execute_empty sys args mem w1 Hend0). }
  exists args, mem, w1. repeat (split; [assumption|]).
  split; [apply Hturn|]. split; [apply Hnext|].
  rewrite Hnext. apply dsh_loop_unfold.
Qed.

Lemma empty_command_is_noop_witness :
  dsh_execute roomy [Some NULL; None] [Some NUL] (on_stdin []) = Ok 1 (on_stdin []) /\
  exists args mem w1,
    args !! 0%nat = Some (Some NULL) /\
    stdin w1 = drop 1 [newline; "l"; "s"]%char /\
    stdout w1 = stdout (on_stdin [" "; "009"; newline; "l"; "s"]%char) ++ [Text prompt] /\
    stderr w1 = stderr (on_stdin [" "; "009"; newline; "l"; "s"]%char) /\
    forks w1 = forks (on_stdin [" "; "009"; newline; "l"; "s"]%char) /\
    cwd w1 = cwd (on_stdin [" "; "009"; newline; "l"; "s"]%char) /\
    dsh_loop roomy 1 (on_stdin [" "; "009"; newline; "l"; "s"]%char)
    = (do status <- dsh_execute roomy args mem;
       if status =? 0 then ret tt else dsh_loop roomy 0) w1 /\
    dsh_loop roomy 1 (on_stdin [" "; "009"; newline; "l"; "s"]%char) = dsh_loop roomy 0 w1 /\
    dsh_loop roomy 2 (on_stdin [" "; "009"; newline; "l"; "s"]%char)
    = (do line <- dsh_read_line roomy;
       do parsed <- dsh_split_line roomy line;
       let '(args, line) := parsed in
       do status <- dsh_execute roomy args line;
       if status =? 0 then ret tt else dsh_loop roomy 0)
        (put_stdout (Text prompt) w1).
Proof.
  split.
  - apply (proj1 (empty_command_is_noop roomy)). reflexivity.
  - apply (proj2 (empty_command_is_noop roomy) 0%nat
             (on_stdin [" "; "009"; newline; "l"; "s"]%char)
             [" "; "009"]%char [newline; "l"; "s"]%char).
    + intros k bytes. reflexivity.
    + reflexivity.
    + right. eexists. reflexivity.
    + repeat constructor.
    + repeat constructor; discriminate.
    + vm_compute. reflexivity.
Defined.

(** C5: the built-in table is cd, help, exit in this order, and a name
    selects the first entry it is equal to, character by character.
    [dsh_execute] compares token 0 with "cd", then "help", then "exit" and
    runs the first built-in whose name it is; any other token 0, a name in
    another case such as EXIT included, goes to [dsh_launch].  When token
    0 is "exit", [dsh_execute] returns the stop signal 0 and leaves the
    world as it is, whatever the other entries of the array are. *)
Theorem exit_stops_the_shell (sys : system) :
  builtin_str = ["cd"; "help"; "exit"]%string /\
  (forall a b, streq a b = true <-> a = b) /\
  (forall name f,
     find_builtin name builtin_str (builtin_func sys) = Some f <->
     exists i n,
       builtin_str !! i = Some n /\ builtin_func sys !! i = Some f /\
       name = list_ascii_of_string n /\
       forall j n', (j < i)%nat -> builtin_str !! j = Some n' ->
                    name <> list_ascii_of_string n') /\
  (forall args line w o name,
     args !! 0%nat = Some (Some (Ptr o)) ->
     string_at (drop o line) w = Ok name w ->
     dsh_execute sys args line w
     = if streq name (list_ascii_of_string "cd") then dsh_cd sys args line w
       else if streq name (list_ascii_of_string "help") then dsh_help args line w
       else if streq name (list_ascii_of_string "exit") then Ok 0 w
       else dsh_launch sys args line w) /\
  (forall args line w o,
     args !! 0%nat = Some (Some (Ptr o)) ->
     string_at (drop o line) w = Ok (list_ascii_of_string "exit") w ->
     dsh_execute sys args line w = Ok 0 w) /\
  (forall args line w o,
     args !! 0%nat = Some (Some (Ptr o)) ->
     string_at (drop o line) w = Ok (list_ascii_of_string "EXIT") w ->
     dsh_execute sys args line w = dsh_launch sys args line w).
Proof.
  split; [reflexivity|]. split; [apply streq_spec|].
  split; [intros name f; apply find_builtin_first|].
  split; [apply dsh_execute_named|]. split; [apply dsh_execute_exit|].
  intros args line w o H Hname. now rewrite (dsh_execute_named _ _ _ _ _ _ H Hname).
Qed.

Lemma exit_stops_the_shell_witness :
  dsh_execute roomy [Some (Ptr 0); Some (Ptr 5); Some NULL]
    (map Some (list_ascii_of_string "exit") ++ Some NUL
       :: map Some (list_ascii_of_string "now") ++ [Some NUL])
    (on_stdin [])
  = Ok 0 (on_stdin []) /\
  dsh_execute tight [Some (Ptr 0); Some NULL]
    (map Some (list_ascii_of_string "EXIT") ++ [Some NUL]) (on_stdin [])
  = dsh_launch tight [Some (Ptr 0); Some NULL]
      (map Some (list_ascii_of_string "EXIT") ++ [Some NUL]) (on_stdin []).
Proof.
  split.
  - apply (proj1 (proj2 (proj2 (proj2 (proj2 (exit_stops_the_shell roomy)))))
             [Some (Ptr 0); Some (Ptr 5); Some NULL]
             (map Some (list_ascii_of_string "exit") ++ Some NUL
                :: map Some (list_ascii_of_string "now") ++ [Some NUL])
             (on_stdin []) 0%nat).
    + reflexivity.
    + reflexivity.
  - apply (proj2 (proj2 (proj2 (proj2 (proj2 (exit_stops_the_shell tight)))))
             [Some (Ptr 0); Some NULL]
             (map Some (list_ascii_of_string "EXIT") ++ [Some NUL])
             (on_stdin []) 0%nat).
    + reflexivity.
    + reflexivity.
Defined.

(** ** Scenarios *)

Example scenario_tokens :
  exists w, parse roomy (on_stdin (list_ascii_of_string "ls -l /tmp" ++ [newline]))
            = Ok ["ls"; "-l"; "/tmp"]%string w.
Proof. eexists. vm_compute. reflexivity. Qed.

Example scenario_blank_line :
  exists w, parse roomy (on_stdin [" "; " "; " "; "009"; " "; newline]%char) = Ok [] w.
Proof. eexists. vm_compute. reflexivity. Qed.

(** A line of 2500 characters: the buffer has grown twice. *)
Example scenario_long_line :
  exists buffer w,
    dsh_read_line roomy (on_stdin (replicate 2500 "x"%char)) = Ok buffer w /\
    take 2501 buffer = map Some (replicate 2500 "x"%char) ++ [Some NUL] /\
    length buffer = 3072%nat /\
    heap_log w = [(1024, true); (2048, true); (3072, true)].
Proof.
  eexists _, _. split; [vm_compute; reflexivity|]. vm_compute. auto.
Qed.

(** An external command, then exit: the shell waits for the child and
    prompts again. *)
Example scenario_launch_then_exit :
  main roomy 2 (on_stdin (list_ascii_of_string "ls -l /tmp" ++ newline
                         :: list_ascii_of_string "exit now" ++ [newline]))
  = Ok EXIT_SUCCESS
       (World [] [Text prompt; Text prompt] []
              [(1024, true); (512, true); (1024, true); (512, true)] 1 []).
Proof. vm_compute. reflexivity. Qed.

(** In the child, a command that cannot be executed ends the child. *)
Example scenario_exec_fails :
  dsh_launch in_child [Some (Ptr 0); Some NULL] [Some "x"%char; Some NUL] (on_stdin [])
  = Halt (Exit EXIT_FAILURE) (World [] [] [Perror "dsh"] [] 1 []).
Proof. vm_compute. reflexivity. Qed.

(** At the end of the input stream every turn reads the empty line and
    prompts again: the loop does not end by itself. *)
Lemma end_of_stream_never_exits (sys : system) (fuel : nat) :
  generous sys ->
  forall w, stdin w = [] ->
  exists w', dsh_loop sys fuel w = Halt Unfinished w' /\ stdin w' = [] /\
             length (stdout w') = (length (stdout w) + fuel)%nat.
Proof.
  intros Hgen. induction fuel as [|fuel IH]; intros w Hin.
  - exists w. simpl. repeat split; [exact Hin|lia].
  - destruct (dsh_loop_turn sys Hgen w [] [] Hin) as
      (args & mem & w1 & H1 & H2 & _ & _ & _ & Hend0 & Hturn);
      [now left|constructor|constructor|vm_compute; reflexivity|].
    rewrite Hturn. unfold bind. rewrite (dsh_execute_empty sys args mem w1 Hend0).
    simpl. destruct (IH w1 H1) as (w' & Hrun & Hin' & Hlen).
    exists w'. split; [exact Hrun|]. split; [exact Hin'|].
    rewrite Hlen, H2, length_app. simpl. lia.
Qed.

(** * Further properties of the source *)

(** ** The reader: exact capacity, requests, NUL characters *)

Lemma chunk_requests_none (unit first count : Z) :
  count <= 0 -> chunk_requests unit first count = [].
Proof. intros H. unfold chunk_requests. now rewrite seqZ_nil. Qed.

Lemma chunk_requests_cons (unit first count : Z) :
  0 < count ->
  chunk_requests unit first count
  = (unit * first, true) :: chunk_requests unit (first + 1) (count - 1).
Proof. intros H. unfold chunk_requests. now rewrite seqZ_cons by lia. Qed.

Section ReaderAccounting.

Variable sys : system.

Lemma read_loop_accounts (line : list ascii) :
  forall fuel bufsize position buffer w tail buffer' w',
  stdin w = line ++ tail -> ends_line tail ->
  Forall (fun c => c <> newline) line ->
  0 <= position ->
  bufsize = capacity_after DSH_RL_BUFSIZE position ->
  Z.of_nat (length buffer) = bufsize ->
  bufsize <= INT_MAX ->
  read_loop sys fuel bufsize position buffer w = Ok buffer' w' ->
  Z.of_nat (length buffer')
  = capacity_after DSH_RL_BUFSIZE (position + Z.of_nat (length line)) /\
  heap_log w'
  = heap_log w ++
    chunk_requests DSH_RL_BUFSIZE (position / DSH_RL_BUFSIZE + 2)
      ((position + Z.of_nat (length line)) / DSH_RL_BUFSIZE - position / DSH_RL_BUFSIZE).
Proof.
  unfold capacity_after, DSH_RL_BUFSIZE.
  induction line as [|c line IH];
    intros fuel bufsize position buffer w tail buffer' w' Hin Hend Hnl Hpos Hbuf Hlen Hmax;
    (destruct fuel as [|fuel]; [discriminate|]); simpl read_loop; unfold bind.
  - assert (Hb : 0 <= position < Z.of_nat (length buffer)) by divlia.
    simpl in Hin. simpl length. rewrite Z.add_0_r, Z.sub_diag.
    rewrite chunk_requests_none, app_nil_r by lia.
    destruct Hend as [->|[rest ->]].
    + rewrite read_iteration_eof by assumption. intros [= <- <-].
      rewrite length_insert. split; [lia|reflexivity].
    + rewrite (read_iteration_newline _ _ _ _ _ rest) by assumption.
      intros [= <- <-]. rewrite length_insert. split; [lia|reflexivity].
  - apply Forall_cons in Hnl as [Hc Hnl']. simpl in Hin.
    rewrite (read_iteration_char _ _ _ _ _ c (line ++ tail))
      by (assumption || divlia).
    cbv zeta. unfold DSH_RL_BUFSIZE, INT_MAX in *.
    set (stored := <[Z.to_nat position := Some c]> buffer).
    assert (Hslen : length stored = length buffer) by apply length_insert.
    replace (position + Z.of_nat (length (c :: line)))
      with (position + 1 + Z.of_nat (length line)) by (simpl length; lia).
    destruct (Z.ltb_spec (position + 1) bufsize) as [Hlt|Hge].
    + intros Hrun.
      apply (IH fuel bufsize (position + 1) stored (set_stdin (line ++ tail) w) tail)
        in Hrun; try (assumption || reflexivity || lia || divlia).
      replace ((position + 1) / 1024) with (position / 1024) in Hrun by divlia.
      exact Hrun.
    + destruct (Z.leb_spec (bufsize + 1024) 2147483647) as [Hfit|Hover]; [|discriminate].
      destruct (heap_grants sys _ _); [|discriminate].
      intros Hrun.
      apply (IH fuel (bufsize + 1024) (position + 1)
               (resize (Z.to_nat (bufsize + 1024)) None stored)
               (log_request (bufsize + 1024, true) (set_stdin (line ++ tail) w)) tail)
        in Hrun; try (assumption || reflexivity || lia || divlia).
      * destruct Hrun as [Hcap Hlog]. split; [exact Hcap|].
        rewrite Hlog. simpl heap_log. rewrite <- app_assoc. f_equal.
        assert (Hq : (position + 1) / 1024 = position / 1024 + 1) by divlia.
        rewrite Hq.
        rewrite (chunk_requests_cons 1024 (position / 1024 + 2)) by divlia.
        simpl app. f_equal; [f_equal; divlia|].
        f_equal; lia.
      * rewrite length_resize. lia.
Qed.

End ReaderAccounting.

(** X1: whenever [dsh_read_line] returns, the buffer it returns has room
    for the line, its terminator and at most 1023 more characters: its
    capacity is 1024 * (n / 1024 + 1) for a line of [n] characters, and
    the function made exactly n / 1024 + 1 allocation requests, for 1024,
    2048, ... bytes. *)
Theorem read_line_capacity (sys : system) (w : world) (line tail : list ascii)
  (buffer : memblock ascii) (w' : world) :
  stdin w = line ++ tail -> ends_line tail ->
  Forall (fun c => c <> newline) line ->
  dsh_read_line sys w = Ok buffer w' ->
  Z.of_nat (length buffer) = capacity_after 1024 (Z.of_nat (length line)) /\
  heap_log w'
  = heap_log w ++ chunk_requests 1024 1 (Z.of_nat (length line) / 1024 + 1).
Proof.
  intros Hin Hend Hnl.
  destruct (heap_grants sys (length (heap_log w)) DSH_RL_BUFSIZE) eqn:Hok.
  - rewrite dsh_read_line_start by exact Hok. intros Hrun.
    apply (read_loop_accounts sys line _ _ _ _ _ tail) in Hrun;
      try (assumption || reflexivity || (unfold DSH_RL_BUFSIZE, INT_MAX; lia)).
    destruct Hrun as [Hcap Hlog]. split; [exact Hcap|].
    rewrite Hlog. simpl heap_log. rewrite <- app_assoc. f_equal.
    unfold DSH_RL_BUFSIZE. change (0 / 1024) with 0. rewrite Z.add_0_l, Z.sub_0_r.
    rewrite (chunk_requests_cons 1024 1)
      by (pose proof (Z.div_pos (Z.of_nat (length line)) 1024); lia).
    replace (Z.of_nat (length line) / 1024 + 1 - 1)
      with (Z.of_nat (length line) / 1024) by lia.
    reflexivity.
  - unfold dsh_read_line, malloc, bind, request.
    change (size_t (sizeof_char * DSH_RL_BUFSIZE)) with DSH_RL_BUFSIZE.
    rewrite Hok. discriminate.
Qed.

Lemma read_line_capacity_witness :
  exists buffer w',
    dsh_read_line roomy (on_stdin (replicate 1030 "x"%char ++ [newline])) = Ok buffer w' /\
    Z.of_nat (length buffer) = 2048 /\
    heap_log w' = [(1024, true); (2048, true)].
Proof.
  assert (Hrun : exists buffer w',
            dsh_read_line roomy (on_stdin (replicate 1030 "x"%char ++ [newline]))
            = Ok buffer w')
    by (eexists _, _; vm_compute; reflexivity).
  destruct Hrun as (buffer & w' & Hrun). exists buffer, w'. split; [exact Hrun|].
  apply (read_line_capacity roomy (on_stdin (replicate 1030 "x"%char ++ [newline]))
           (replicate 1030 "x"%char) [newline] buffer w').
  - reflexivity.
  - right. eexists. reflexivity.
  - apply Forall_replicate. discriminate.
  - exact Hrun.
Defined.

(** X2: with every allocation granted, [dsh_read_line] returns a line if
    and only if the line has fewer than 2147482624 characters; at that
    length and beyond, the run ends in the signed overflow of
    [bufsize += DSH_RL_BUFSIZE]. *)
Theorem read_line_returns_iff (sys : system) (w : world) (line tail : list ascii) :
  generous sys ->
  stdin w = line ++ tail -> ends_line tail ->
  Forall (fun c => c <> newline) line ->
  ((exists buffer w', dsh_read_line sys w = Ok buffer w') <->
   Z.of_nat (length line) < READ_LIMIT) /\
  (READ_LIMIT <= Z.of_nat (length line) ->
   exists w', dsh_read_line sys w = Halt (Undefined SignedOverflow) w').
Proof.
  intros Hgen Hin Hend Hnl.
  destruct (dsh_read_line_cases sys Hgen w line tail Hin Hend Hnl) as [Hok Hov].
  split; [|exact Hov]. split.
  - intros (buffer & w' & Hrun).
    destruct (Z.lt_ge_cases (Z.of_nat (length line)) READ_LIMIT) as [|Hge]; [assumption|].
    destruct (Hov Hge) as [w2 Hw2]. rewrite Hw2 in Hrun. discriminate.
  - intros Hlt. destruct (Hok Hlt) as (buffer & w' & Hrun & _). eauto.
Qed.

Lemma read_line_returns_iff_witness :
  ((exists buffer w', dsh_read_line roomy (on_stdin ["l"; "s"; newline]%char) = Ok buffer w')
   <-> Z.of_nat (length ["l"; "s"]%char) < READ_LIMIT) /\
  (READ_LIMIT <= Z.of_nat (length ["l"; "s"]%char) ->
   exists w', dsh_read_line roomy (on_stdin ["l"; "s"; newline]%char)
              = Halt (Undefined SignedOverflow) w').
Proof.
  apply (read_line_returns_iff roomy (on_stdin ["l"; "s"; newline]%char)
           ["l"; "s"]%char [newline]).
  - intros k bytes. reflexivity.
  - reflexivity.
  - right. eexists. reflexivity.
  - repeat constructor; discriminate.
Defined.

(** X3: a NUL character in the input is stored like any other, but it ends
    the string the caller sees: the buffer [dsh_read_line] returns reads
    back as the characters before the first NUL of the line, and what
    follows it on the line is lost to the tokenizer. *)
Theorem read_line_stops_at_NUL (sys : system) (w : world)
  (shown hidden tail : list ascii) :
  generous sys ->
  stdin w = (shown ++ NUL :: hidden) ++ tail -> ends_line tail ->
  Forall (fun c => c <> newline) (shown ++ NUL :: hidden) ->
  Forall (fun c => c <> NUL) shown ->
  Z.of_nat (length (shown ++ NUL :: hidden)) < READ_LIMIT ->
  exists buffer w',
    dsh_read_line sys w = Ok buffer w' /\
    take (length (shown ++ NUL :: hidden) + 1) buffer
    = map Some (shown ++ NUL :: hidden) ++ [Some NUL] /\
    (forall w'', string_at buffer w'' = Ok shown w'') /\
    stdin w' = drop 1 tail.
Proof.
  intros Hgen Hin Hend Hnl Hshown Hsz.
  destruct (dsh_read_line_cases sys Hgen w _ tail Hin Hend Hnl) as [Hok _].
  destruct (Hok Hsz) as (buffer & w' & Hrun & Htake & Hrest & _).
  exists buffer, w'. split; [exact Hrun|]. split; [exact Htake|]. split; [|exact Hrest].
  intros w''. rewrite (memory_of_prefix _ _ _ Htake).
  rewrite map_app, <- !app_assoc. simpl. now apply string_at_line.
Qed.

Lemma read_line_stops_at_NUL_witness :
  exists buffer w',
    dsh_read_line roomy (on_stdin (["l"; "s"; NUL; "-"; "l"] ++ [newline])%char) = Ok buffer w' /\
    take (length (["l"; "s"] ++ NUL :: ["-"; "l"])%char + 1) buffer
    = map Some (["l"; "s"] ++ NUL :: ["-"; "l"])%char ++ [Some NUL] /\
    (forall w'', string_at buffer w'' = Ok ["l"; "s"]%char w'') /\
    stdin w' = drop 1 [newline].
Proof.
  apply (read_line_stops_at_NUL roomy (on_stdin (["l"; "s"; NUL; "-"; "l"] ++ [newline])%char)
           ["l"; "s"]%char ["-"; "l"]%char [newline]).
  - intros k bytes. reflexivity.
  - reflexivity.
  - right. eexists. reflexivity.
  - repeat constructor; discriminate.
  - repeat constructor; discriminate.
  - vm_compute. reflexivity.
Defined.

(** ** What the reader and the tokenizer leave alone *)

Section Frames.

Variable sys : system.
Variable address : Z.

Lemma read_loop_frame (line : list ascii) :
  forall fuel bufsize position buffer w tail,
  stdin w = line ++ tail -> ends_line tail ->
  Forall (fun c => c <> newline) line ->
  0 <= position < bufsize ->
  Z.of_nat (length buffer) = bufsize ->
  bufsize <= INT_MAX ->
  let w1 := world_of (read_loop sys fuel bufsize position buffer w) in
  (exists unread, stdin w1 = unread ++ drop 1 tail) /\
  stdout w1 = stdout w /\ forks w1 = forks w /\ cwd w1 = cwd w.
Proof.
  assert (Hidle : forall (l : list ascii) w tail,
            stdin w = l ++ tail -> exists unread, stdin w = unread ++ drop 1 tail).
  { intros l w tail ->. exists (l ++ take 1 tail). now rewrite <- app_assoc, take_drop. }
  induction line as [|c line IH];
    intros fuel bufsize position buffer w tail Hin Hend Hnl Hpos Hlen Hmax;
    (destruct fuel as [|fuel]; [simpl; split; [eapply Hidle; eassumption|auto]|]);
    simpl read_loop; unfold bind.
  - simpl in Hin. destruct Hend as [->|[rest ->]].
    + rewrite read_iteration_eof by (assumption || lia). simpl.
      split; [|auto]. exists []. exact Hin.
    + rewrite (read_iteration_newline _ _ _ _ _ rest) by (assumption || lia). simpl.
      split; [|auto]. now exists [].
  - apply Forall_cons in Hnl as [Hc Hnl']. simpl in Hin.
    rewrite (read_iteration_char _ _ _ _ _ c (line ++ tail)) by assumption.
    cbv zeta. unfold DSH_RL_BUFSIZE, INT_MAX in *.
    set (stored := <[Z.to_nat position := Some c]> buffer).
    assert (Hslen : length stored = length buffer) by apply length_insert.
    assert (Hstop : exists unread, line ++ tail = unread ++ drop 1 tail).
    { exists (line ++ take 1 tail). now rewrite <- app_assoc, take_drop. }
    destruct (Z.ltb_spec (position + 1) bufsize) as [Hlt|Hge].
    + apply (IH fuel bufsize (position + 1) stored (set_stdin (line ++ tail) w) tail);
        (assumption || reflexivity || lia).
    + destruct (Z.leb_spec (bufsize + 1024) 2147483647) as [Hfit|Hover].
      * destruct (heap_grants sys _ _).
        -- apply (IH fuel (bufsize + 1024) (position + 1)
                    (resize (Z.to_nat (bufsize + 1024)) None stored)
                    (log_request (bufsize + 1024, true) (set_stdin (line ++ tail) w)) tail);
             try (assumption || reflexivity || lia).
           rewrite length_resize. lia.
        -- simpl. split; [exact Hstop|auto].
      * simpl. split; [exact Hstop|auto].
Qed.

Lemma split_loop_frame (fuel : nat) :
  forall bufsize position tokens token line save w,
  0 <= position < bufsize ->
  Z.of_nat (length tokens) = bufsize ->
  bufsize <= INT_MAX ->
  (token <> NULL -> exists p, save = Ptr p) ->
  only_heap_and_stderr w
    (world_of (split_loop sys address fuel bufsize position tokens token line save w)).
Proof.
  induction fuel as [|fuel IH];
    intros bufsize position tokens token line save w Hpos Hlen Hmax Hsave;
    [repeat split|].
  destruct (pointer_cases token) as [->|Hnn].
  { simpl. unfold bind, store. rewrite bool_decide_eq_true_2 by lia. repeat split. }
  destruct (Hsave Hnn) as [p ->].
  rewrite split_loop_step by exact Hnn. unfold bind at 1.
  rewrite split_iteration_eq by assumption. cbv zeta.
  set (stored := <[Z.to_nat position := Some token]> tokens).
  assert (Hslen : length stored = length tokens) by apply length_insert.
  assert (Hnext : forall bufsize1 tokens1 w1,
    0 <= position + 1 < bufsize1 -> Z.of_nat (length tokens1) = bufsize1 ->
    bufsize1 <= INT_MAX ->
    only_heap_and_stderr w1 (world_of (match
        (do next <- strtok_as_int address line NULL DSH_TOK_DELIM (Ptr p);
         let '(token, line, save) := next in
         ret (bufsize1, position + 1, tokens1, token, line, save)) w1
      with
      | Ok a w' =>
        (let '(bufsize, position, tokens, token, line, save) := a in
         split_loop sys address fuel bufsize position tokens token line save) w'
      | Halt h w' => Halt h w'
      end))).
  { intros bufsize1 tokens1 w1 Hpos1 Hlen1 Hmax1. unfold bind.
    pose proof (strtok_as_int_reads address line p w1) as Hs.
    destruct (strtok_as_int address line NULL DSH_TOK_DELIM (Ptr p) w1)
      as [[[token' line'] save'] w2|h w2].
    - destruct Hs as [-> (_ & p' & -> & _)]. unfold ret.
      apply IH; try assumption. intros _. eauto.
    - destruct h as [| | |[]|]; simpl in Hs; try contradiction; subst w2;
        repeat split. }
  unfold DSH_TOK_BUFSIZE, INT_MAX in *.
  destruct (Z.ltb_spec (position + 1) bufsize) as [Hlt|Hge].
  - apply Hnext; lia.
  - destruct (Z.leb_spec (bufsize + 64) 2147483647) as [Hfit|Hover]; [|repeat split].
    destruct (heap_grants sys _ _); [|repeat split].
    destruct (Hnext (bufsize + 64) (resize (Z.to_nat (bufsize + 64)) None stored)
                (log_request ((bufsize + 64) * sizeof_char_ptr, true) w))
      as (H1 & H2 & H3 & H4); try lia.
    { rewrite length_resize. lia. }
    repeat split; assumption.
Qed.

End Frames.

(** X4: whatever the allocator answers and however the run ends (a line,
    the allocation error, the overflow), [dsh_read_line] reads nothing
    beyond the first newline: the input after that newline is still on
    stdin; and it writes nothing to stdout, creates no process and does
    not change the working directory. *)
Theorem read_line_reads_one_line (sys : system) (w : world) (line tail : list ascii) :
  stdin w = line ++ tail -> ends_line tail ->
  Forall (fun c => c <> newline) line ->
  (exists unread, stdin (world_of (dsh_read_line sys w)) = unread ++ drop 1 tail) /\
  stdout (world_of (dsh_read_line sys w)) = stdout w /\
  forks (world_of (dsh_read_line sys w)) = forks w /\
  cwd (world_of (dsh_read_line sys w)) = cwd w.
Proof.
  intros Hin Hend Hnl.
  destruct (heap_grants sys (length (heap_log w)) DSH_RL_BUFSIZE) eqn:Hok.
  - rewrite dsh_read_line_start by exact Hok.
    apply (read_loop_frame sys line _ _ _ _
             (log_request (DSH_RL_BUFSIZE, true) w) tail);
      try (assumption || reflexivity || (unfold DSH_RL_BUFSIZE, INT_MAX; lia)).
  - unfold dsh_read_line, malloc, bind, request.
    change (size_t (sizeof_char * DSH_RL_BUFSIZE)) with DSH_RL_BUFSIZE.
    rewrite Hok. simpl. split; [|auto].
    exists (line ++ take 1 tail). now rewrite Hin, <- app_assoc, take_drop.
Qed.

Lemma read_line_reads_one_line_witness :
  (exists unread,
     stdin (world_of (dsh_read_line tight (on_stdin (replicate 1500 "a"%char ++
                                                       newline :: ["p"; "s"]%char))))
     = unread ++ drop 1 (newline :: ["p"; "s"]%char)) /\
  stdout (world_of (dsh_read_line tight (on_stdin (replicate 1500 "a"%char ++
                                                     newline :: ["p"; "s"]%char)))) = [] /\
  forks (world_of (dsh_read_line tight (on_stdin (replicate 1500 "a"%char ++
                                                    newline :: ["p"; "s"]%char)))) = 0%nat /\
  cwd (world_of (dsh_read_line tight (on_stdin (replicate 1500 "a"%char ++
                                                  newline :: ["p"; "s"]%char)))) = [].
Proof.
  apply (read_line_reads_one_line tight
           (on_stdin (replicate 1500 "a"%char ++ newline :: ["p"; "s"]%char))
           (replicate 1500 "a"%char) (newline :: ["p"; "s"]%char)).
  - reflexivity.
  - right. eexists. reflexivity.
  - apply Forall_replicate. discriminate.
Defined.

(** X5: [dsh_split_line] reads no input, prints nothing to stdout, creates
    no process and does not change the working directory, for every line
    block and every allocator and however the run ends. *)
Theorem split_line_touches_only_heap (sys : system) (line : memblock ascii) (w : world) :
  only_heap_and_stderr w (world_of (dsh_split_line sys line w)).
Proof.
  destruct (heap_grants sys (length (heap_log w)) (DSH_TOK_BUFSIZE * sizeof_char_ptr))
    eqn:Hok.
  - rewrite dsh_split_line_start by exact Hok. unfold rounds, bind.
    set (w1 := log_request (DSH_TOK_BUFSIZE * sizeof_char_ptr, true) w).
    set (address := line_address sys (length (heap_log w))).
    pose proof (strtok_as_int_reads address line 0 w1) as Hs.
    destruct (strtok_as_int address line NULL DSH_TOK_DELIM (Ptr 0) w1)
      as [[[token line'] save] w2|h w2].
    + destruct Hs as [-> (_ & p' & -> & _)].
      apply (split_loop_frame sys address (S (length line)) DSH_TOK_BUFSIZE 0
               (replicate (Z.to_nat DSH_TOK_BUFSIZE) None) token line' (Ptr p') w1);
        try reflexivity; try (unfold DSH_TOK_BUFSIZE, INT_MAX; lia).
      intros _. eauto.
    + destruct h as [| | |[]|]; simpl in Hs; try contradiction; subst w2;
        repeat split.
  - unfold dsh_split_line, malloc, bind, request.
    change (size_t (size_t DSH_TOK_BUFSIZE * sizeof_char_ptr))
      with (DSH_TOK_BUFSIZE * sizeof_char_ptr).
    rewrite Hok. repeat split.
Qed.

(** ** The tokenizer: the line is cut in place, the array has room *)

Lemma delimiters_cut_refl (line : memblock ascii) : delimiters_cut line line.
Proof. split; [reflexivity|]. intros i. now left. Qed.

Lemma delimiters_cut_trans (l1 l2 l3 : memblock ascii) :
  delimiters_cut l1 l2 -> delimiters_cut l2 l3 -> delimiters_cut l1 l3.
Proof.
  intros [Hlen12 H12] [Hlen23 H23]. split; [congruence|]. intros i.
  destruct (H23 i) as [Heq|(Hnul & c & Hc & Hd)].
  - rewrite Heq. apply H12.
  - destruct (H12 i) as [Heq|(Hnul2 & _)].
    + right. split; [exact Hnul|]. exists c. split; [congruence|exact Hd].
    + rewrite Hnul2 in Hc. injection Hc as <-. discriminate Hd.
Qed.

Lemma delimiters_cut_store (line : memblock ascii) (e : nat) (c : ascii) :
  line !! e = Some (Some c) -> is_delim c = true ->
  delimiters_cut line (<[e := Some NUL]> line).
Proof.
  intros Hc Hd. split; [apply length_insert|]. intros i.
  destruct (decide (i = e)) as [->|Hne].
  - right. split; [apply list_lookup_insert_eq; now apply (lookup_lt_Some _ _ _ Hc)|].
    eauto.
  - left. now apply list_lookup_insert_ne.
Qed.

Lemma strtok_cuts line p w token line' save w' :
  strtok line NULL DSH_TOK_DELIM (Ptr p) w = Ok (token, line', save) w' ->
  delimiters_cut line line'.
Proof.
  unfold strtok, strspn, strcspn, bind.
  destruct (span true DSH_TOK_DELIM (drop p line) w) as [n w1|]; [|discriminate].
  destruct (load line (Z.of_nat (p + n)) w1) as [c w2|]; [|discriminate].
  destruct (Ascii.eqb c NUL).
  { intros [= _ <- _ _]. apply delimiters_cut_refl. }
  pose proof (span_reads false DSH_TOK_DELIM (drop (p + n) line) w2) as H3.
  destruct (span false DSH_TOK_DELIM (drop (p + n) line) w2) as [m w3|]; [|discriminate].
  destruct H3 as [-> (c3 & Hc3 & Hstop)]. rewrite lookup_drop in Hc3.
  pose proof (load_reads line (Z.of_nat (p + n + m)) w2) as H4.
  destruct (load line (Z.of_nat (p + n + m)) w2) as [c2 w4|]; [|discriminate].
  destruct H4 as [-> [Hi Hc2]]. rewrite Nat2Z.id in Hc2.
  assert (c2 = c3) as -> by congruence.
  destruct (Ascii.eqb_spec c3 NUL) as [|Hn].
  { intros [= _ <- _ _]. apply delimiters_cut_refl. }
  unfold store. rewrite bool_decide_eq_true_2 by lia. unfold ret.
  intros [= _ <- _ _]. rewrite Nat2Z.id.
  apply (delimiters_cut_store _ _ c3); [exact Hc2|].
  destruct Hstop as [|Hstop]; [contradiction|].
  unfold is_delim. destruct (char_in DSH_TOK_DELIM c3); congruence.
Qed.

Lemma strtok_as_int_cuts address line p w token line' save w' :
  strtok_as_int address line NULL DSH_TOK_DELIM (Ptr p) w = Ok (token, line', save) w' ->
  delimiters_cut line line'.
Proof.
  unfold strtok_as_int, bind.
  destruct (strtok line NULL DSH_TOK_DELIM (Ptr p) w) as [[[tk ln] sv] w1|] eqn:Hcall;
    [|discriminate].
  intros [= _ <- _ _]. eapply strtok_cuts. exact Hcall.
Qed.

Lemma lookup_of_take {A} (l1 l2 : list A) (k i : nat) :
  take k l1 = take k l2 -> (i < k)%nat -> l1 !! i = l2 !! i.
Proof.
  intros H Hi. rewrite <- (lookup_take_lt l1 k i), <- (lookup_take_lt l2 k i) by exact Hi.
  now rewrite H.
Qed.

Section TokenizerAccounting.

Variable sys : system.
Variable address : Z.

Lemma split_loop_shape (fuel : nat) :
  forall bufsize position tokens token line save w tokens' line' w',
  0 <= position ->
  bufsize = capacity_after DSH_TOK_BUFSIZE position ->
  Z.of_nat (length tokens) = bufsize ->
  bufsize <= INT_MAX ->
  (token <> NULL -> exists p, save = Ptr p) ->
  split_loop sys address fuel bufsize position tokens token line save w
  = Ok (tokens', line') w' ->
  delimiters_cut line line' /\ exists n, array_shape position w tokens' w' n.
Proof.
  unfold array_shape, capacity_after, DSH_TOK_BUFSIZE, sizeof_char_ptr.
  induction fuel as [|fuel IH];
    intros bufsize position tokens token line save w tokens' line' w'
           Hpos Hbuf Hlen Hmax Hsave; [discriminate|].
  assert (Hin : 0 <= position < bufsize) by divlia.
  destruct (pointer_cases token) as [->|Hnn].
  { simpl. unfold bind, store. rewrite bool_decide_eq_true_2 by lia.
    intros [= <- <- <-]. split; [apply delimiters_cut_refl|].
    exists (Z.to_nat position). rewrite Z2Nat.id by lia.
    split; [lia|]. split; [apply list_lookup_insert_eq; lia|].
    split; [intros i Hi; lia|]. split; [rewrite length_insert; lia|].
    rewrite Z.sub_diag, chunk_requests_none, app_nil_r by lia. reflexivity. }
  destruct (Hsave Hnn) as [p ->].
  rewrite split_loop_step by exact Hnn. unfold bind at 1.
  destruct (split_iteration sys address bufsize position tokens token line (Ptr p) w)
    as [[[[[[b1 p1] tk1] t1] l1] s1] w1|] eqn:Hit; [|discriminate].
  intros Hrun.
  destruct (split_iteration_grows sys _ _ _ _ _ _ _ _ _ _ _ _ _ _ _ Hin Hlen Hmax Hit)
    as (-> & Hl1 & Hb1 & Hm1 & Hkeep & Hat).
  pose proof (split_loop_keeps sys address _ _ _ _ _ _ _ _ _ _ _
                (growth_fits bufsize position b1 DSH_TOK_BUFSIZE Hin Hmax eq_refl Hb1)
                Hl1 Hm1 Hrun) as Hprefix.
  replace (Z.to_nat (position + 1)) with (S (Z.to_nat position)) in Hprefix by lia.
  (* the call of strtok inside the iteration, and the world it ran in *)
  rewrite split_iteration_eq in Hit by assumption. cbv zeta in Hit.
  unfold DSH_TOK_BUFSIZE, sizeof_char_ptr, INT_MAX in *.
  assert (Hcall : exists w0,
    strtok_as_int address line NULL DSH_TOK_DELIM (Ptr p) w0 = Ok (t1, l1, s1) w1 /\
    heap_log w0
    = heap_log w ++
      (if position + 1 <? bufsize then [] else [((bufsize + 64) * 8, true)])).
  { destruct (position + 1 <? bufsize).
    - exists w. unfold bind in Hit.
      destruct (strtok_as_int address line NULL DSH_TOK_DELIM (Ptr p) w)
        as [[[tk ln] sv] w2|]; [|discriminate].
      injection Hit as _ _ <- <- <- <-. split; [reflexivity|now rewrite app_nil_r].
    - destruct (bufsize + 64 <=? 2147483647); [|discriminate].
      destruct (heap_grants sys _ _); [|discriminate].
      exists (log_request ((bufsize + 64) * 8, true) w). unfold bind in Hit.
      destruct (strtok_as_int address line NULL DSH_TOK_DELIM (Ptr p) _)
        as [[[tk ln] sv] w2|]; [|discriminate].
      injection Hit as _ _ <- <- <- <-. split; reflexivity. }
  destruct Hcall as (w0 & Hcall & Hlog0).
  pose proof (strtok_as_int_reads address line p w0) as Hs. rewrite Hcall in Hs.
  destruct Hs as [-> (_ & p' & -> & _)].
  apply IH in Hrun; try (assumption || lia); [| |intros _; eauto].
  - destruct Hrun as [Hcut (n & Hn & Hnull & Hptr & Hcap & Hlog)].
    split; [eapply delimiters_cut_trans; [eapply strtok_as_int_cuts; exact Hcall|exact Hcut]|].
    exists n. split; [lia|]. split; [exact Hnull|].
    split.
    { intros i Hi. destruct (decide (i = Z.to_nat position)) as [->|Hne].
      - exists token. split; [|exact Hnn].
        rewrite (lookup_of_take _ _ _ _ Hprefix) by lia. exact Hat.
      - apply Hptr. lia. }
    split; [exact Hcap|].
    rewrite Hlog, Hlog0. rewrite <- app_assoc. f_equal.
    destruct (Z.ltb_spec (position + 1) bufsize) as [Hlt|Hge].
    + simpl app. replace ((position + 1) / 64) with (position / 64) by divlia.
      reflexivity.
    + assert (Hq : (position + 1) / 64 = position / 64 + 1) by divlia.
      rewrite Hq.
      assert (Hnq : position / 64 + 1 <= Z.of_nat n / 64).
      { rewrite <- Hq. apply Z.div_le_mono; lia. }
      rewrite (chunk_requests_cons (64 * 8) (position / 64 + 2)) by lia.
      simpl app. f_equal; [f_equal; divlia|]. f_equal; lia.
  - rewrite Hb1. destruct (Z.ltb_spec (position + 1) bufsize).
    + rewrite geb_false by lia. divlia.
    + rewrite geb_true by lia. divlia.
Qed.

End TokenizerAccounting.

(** X6: [dsh_split_line] copies no character: whenever it returns, the
    line's block has its length unchanged and differs from the block it
    was given only where a delimiter has been overwritten by NUL. *)
Theorem split_line_in_place (sys : system) (line : memblock ascii) (w : world)
  (tokens : memblock pointer) (line' : memblock ascii) (w' : world) :
  dsh_split_line sys line w = Ok (tokens, line') w' ->
  delimiters_cut line line'.
Proof.
  destruct (heap_grants sys (length (heap_log w)) (DSH_TOK_BUFSIZE * sizeof_char_ptr))
    eqn:Hok.
  - rewrite dsh_split_line_start by exact Hok. unfold rounds, bind.
    set (w1 := log_request (DSH_TOK_BUFSIZE * sizeof_char_ptr, true) w).
    set (address := line_address sys (length (heap_log w))).
    pose proof (strtok_as_int_reads address line 0 w1) as Hs.
    destruct (strtok_as_int address line NULL DSH_TOK_DELIM (Ptr 0) w1)
      as [[[token line1] save] w2|h w2] eqn:Hcall; [|discriminate].
    destruct Hs as [-> (_ & p' & -> & _)]. intros Hrun.
    apply split_loop_shape in Hrun;
      try (reflexivity || (unfold DSH_TOK_BUFSIZE, INT_MAX; lia)); [|intros _; eauto].
    eapply delimiters_cut_trans; [eapply strtok_as_int_cuts; exact Hcall|apply Hrun].
  - unfold dsh_split_line, malloc, bind, request.
    change (size_t (size_t DSH_TOK_BUFSIZE * sizeof_char_ptr))
      with (DSH_TOK_BUFSIZE * sizeof_char_ptr).
    rewrite Hok. discriminate.
Qed.

Lemma split_line_in_place_witness :
  delimiters_cut (line_memory ["l"; "s"; " "; " "; "-"; "l"; " "]%char [])
                 [Some "l"; Some "s"; Some NUL; Some " "; Some "-"; Some "l";
                  Some NUL; Some NUL]%char.
Proof.
  eapply (split_line_in_place roomy
            (line_memory ["l"; "s"; " "; " "; "-"; "l"; " "]%char []) (on_stdin [])).
  vm_compute. reflexivity.
Defined.

(** X7: whenever [dsh_split_line] returns, the array holds a pointer
    other than NULL for each of its [n] tokens and the end marker NULL at
    index [n], where [n] is the number of strings the array reads back as
    whenever it can be read back; its capacity is
    64 * (n / 64 + 1) entries, so the marker always fits; and the function
    made exactly n / 64 + 1 allocation requests, for 512, 1024, ... bytes. *)
Theorem split_line_capacity (sys : system) (line : memblock ascii) (w : world)
  (tokens : memblock pointer) (line' : memblock ascii) (w' : world) :
  dsh_split_line sys line w = Ok (tokens, line') w' ->
  exists n,
    tokens !! n = Some (Some NULL) /\
    (forall i, (i < n)%nat -> exists p, tokens !! i = Some (Some p) /\ p <> NULL) /\
    (forall ts w1 w2, argv_of line' tokens w1 = Ok ts w2 -> length ts = n) /\
    Z.of_nat (length tokens) = capacity_after 64 (Z.of_nat n) /\
    heap_log w' = heap_log w ++ chunk_requests 512 1 (Z.of_nat n / 64 + 1).
Proof.
  destruct (heap_grants sys (length (heap_log w)) (DSH_TOK_BUFSIZE * sizeof_char_ptr))
    eqn:Hok.
  - rewrite dsh_split_line_start by exact Hok. unfold rounds, bind.
    set (w1 := log_request (DSH_TOK_BUFSIZE * sizeof_char_ptr, true) w).
    set (address := line_address sys (length (heap_log w))).
    pose proof (strtok_as_int_reads address line 0 w1) as Hs.
    destruct (strtok_as_int address line NULL DSH_TOK_DELIM (Ptr 0) w1)
      as [[[token line1] save] w2|h w2] eqn:Hcall; [|discriminate].
    destruct Hs as [-> (_ & p' & -> & _)]. intros Hrun.
    apply split_loop_shape in Hrun;
      try (reflexivity || (unfold DSH_TOK_BUFSIZE, INT_MAX; lia)); [|intros _; eauto].
    destruct Hrun as [_ (n & _ & Hnull & Hptr & Hcap & Hlog)].
    exists n. split; [exact Hnull|].
    assert (Hall : forall i, (i < n)%nat ->
                     exists p, tokens !! i = Some (Some p) /\ p <> NULL)
      by (intros i Hi; apply Hptr; simpl; lia).
    split; [exact Hall|]. split.
    { intros ts wa wb Hargv.
      destruct (argv_of_end_marker _ _ _ _ _ Hargv) as [Hend Hbefore].
      destruct (Nat.lt_trichotomy (length ts) n) as [Hlt|[Heq|Hgt]]; [|exact Heq|].
      - destruct (Hall _ Hlt) as (p & Hp & Hnn). rewrite Hend in Hp.
        injection Hp as <-. now contradiction Hnn.
      - destruct (Hbefore _ Hgt) as [o Ho]. congruence. }
    split; [exact Hcap|].
    rewrite Hlog. unfold w1. simpl heap_log. rewrite <- app_assoc. f_equal.
    unfold DSH_TOK_BUFSIZE, sizeof_char_ptr. change (0 / 64) with 0.
    rewrite Z.add_0_l, Z.sub_0_r. change (64 * 8) with 512.
    rewrite (chunk_requests_cons 512 1)
      by (pose proof (Z.div_pos (Z.of_nat n) 64); lia).
    replace (Z.of_nat n / 64 + 1 - 1) with (Z.of_nat n / 64) by lia.
    reflexivity.
  - unfold dsh_split_line, malloc, bind, request.
    change (size_t (size_t DSH_TOK_BUFSIZE * sizeof_char_ptr))
      with (DSH_TOK_BUFSIZE * sizeof_char_ptr).
    rewrite Hok. discriminate.
Qed.

Lemma split_line_capacity_witness :
  exists tokens line' w',
    dsh_split_line roomy (line_memory many_tokens []) (on_stdin []) = Ok (tokens, line') w' /\
    exists n,
      tokens !! n = Some (Some NULL) /\
      (forall i, (i < n)%nat -> exists p, tokens !! i = Some (Some p) /\ p <> NULL) /\
      (forall ts w1 w2, argv_of line' tokens w1 = Ok ts w2 -> length ts = n) /\
      Z.of_nat (length tokens) = capacity_after 64 (Z.of_nat n) /\
      heap_log w' = heap_log (on_stdin []) ++ chunk_requests 512 1 (Z.of_nat n / 64 + 1).
Proof.
  assert (Hrun : exists tokens line' w',
            dsh_split_line roomy (line_memory many_tokens []) (on_stdin [])
            = Ok (tokens, line') w')
    by (eexists _, _, _; vm_compute; reflexivity).
  destruct Hrun as (tokens & line' & w' & Hrun). exists tokens, line', w'.
  split; [exact Hrun|].
  apply (split_line_capacity roomy (line_memory many_tokens []) (on_stdin [])
           tokens line' w' Hrun).
Defined.

(** ** Tokens are spans of the line *)

Section TokenSpans.

Variable sys : system.
Hypothesis granted : generous sys.
Variable address : Z.

Lemma split_rounds_spans rest ts :
  maximal_runs rest ts ->
  forall done junk fuel bufsize position tokens w tokens' line' w',
  0 < address ->
  address + Z.of_nat (length done + length rest) <= INT_MAX ->
  (length ts < fuel)%nat ->
  0 <= position ->
  bufsize = DSH_TOK_BUFSIZE * (position / DSH_TOK_BUFSIZE + 1) ->
  Z.of_nat (length tokens) = bufsize ->
  position + Z.of_nat (length ts) < TOKEN_LIMIT ->
  rounds sys address fuel bufsize position tokens
    (done ++ map Some rest ++ Some NUL :: junk) (Ptr (length done)) w
  = Ok (tokens', line') w' ->
  forall i t, ts !! i = Some t ->
  exists o,
    tokens' !! (Z.to_nat position + i)%nat = Some (Some (Ptr (length done + o))) /\
    take (length t) (drop o rest) = t /\
    (o + length t <= length rest)%nat.
Proof.
  induction 1 as [d Hd|d t Hd Hne Ht|d t c rest ts Hd Hne Ht Hc Hruns IH];
    intros done junk fuel bufsize position tokens w tokens' line' w'
           Hlow Hhigh Hfuel Hpos Hbuf Hlen Hlim Hrun i t0 Hi;
    unfold TOKEN_LIMIT, DSH_TOK_BUFSIZE, INT_MAX in *.
  - destruct i; discriminate Hi.
  - simpl in Hfuel, Hlim. destruct fuel as [|fuel]; [lia|].
    destruct i as [|i]; [|destruct i; discriminate Hi]. injection Hi as <-.
    unfold rounds at 1, strtok_as_int, bind in Hrun.
    rewrite map_app, <- app_assoc in Hrun.
    rewrite strtok_finds_token in Hrun by (assumption || now left).
    cbv zeta in Hrun. simpl Ascii.eqb in Hrun. cbv iota in Hrun.
    unfold ret at 1 in Hrun. rewrite length_app in Hhigh.
    rewrite through_int_fits in Hrun
      by (unfold INT_MAX; rewrite ?length_app, ?length_map; simpl; lia).
    destruct (split_loop_token sys granted address fuel bufsize position tokens
                (Ptr (length done + length d))
                (done ++ map Some d ++ map Some t ++ Some NUL :: junk)
                (Ptr (length done + length d + length t)) w)
      as (bufsize1 & tokens1 & w1 & Heq & Hb1 & Hl1 & Ht1 & _);
      try (assumption || discriminate
           || (unfold TOKEN_LIMIT, DSH_TOK_BUFSIZE, INT_MAX; lia)).
    rewrite Heq in Hrun. unfold DSH_TOK_BUFSIZE in *.
    pose proof (split_rounds_none sys address [] (done ++ map Some d ++ map Some t) junk
                  fuel bufsize1 (position + 1) tokens1 w1) as Hnone.
    unfold rounds_done in Hnone.
    simpl map in Hnone. rewrite !length_app, !length_map, !Nat.add_assoc in Hnone.
    rewrite <- !app_assoc in Hnone. simpl app in Hnone.
    destruct Hnone as (tokens2 & line2 & w2 & Hrun2 & Htok & _);
      [constructor|lia|divlia|lia|].
    rewrite Hrun in Hrun2. injection Hrun2 as <- <- <-.
    replace (Z.to_nat (position + 1)) with (S (Z.to_nat position)) in Htok by lia.
    exists (length d). rewrite Nat.add_0_r. split.
    + rewrite (lookup_of_take _ _ _ _ Htok) by lia.
      rewrite <- (lookup_take_lt tokens1 (S (Z.to_nat position))) by lia.
      rewrite Ht1. apply list_lookup_middle. rewrite length_take. divlia.
    + rewrite drop_app_length. split; [now rewrite take_ge by lia|].
      rewrite length_app. lia.
  - simpl in Hfuel, Hlim. destruct fuel as [|fuel]; [lia|].
    unfold rounds at 1, strtok_as_int, bind in Hrun.
    replace (map Some (d ++ t ++ c :: rest) ++ Some NUL :: junk)
      with (map Some d ++ map Some t ++ Some c :: (map Some rest ++ Some NUL :: junk))
      in Hrun by (rewrite !map_app; same_cells).
    rewrite strtok_finds_token in Hrun by (assumption || now right).
    cbv zeta in Hrun. destruct (Ascii.eqb_spec c NUL) as [->|_]; [discriminate Hc|].
    unfold ret at 1 in Hrun.
    rewrite ?length_app in Hhigh. simpl length in Hhigh. rewrite ?length_app in Hhigh.
    rewrite through_int_fits in Hrun
      by (unfold INT_MAX; rewrite ?length_app, ?length_map; simpl;
          rewrite ?length_app, ?length_map; simpl; lia).
    destruct (split_loop_token sys granted address fuel bufsize position tokens
                (Ptr (length done + length d))
                (done ++ map Some d ++ map Some t ++ Some NUL
                   :: (map Some rest ++ Some NUL :: junk))
                (Ptr (S (length done + length d + length t))) w)
      as (bufsize1 & tokens1 & w1 & Heq & Hb1 & Hl1 & Ht1 & _);
      try (assumption || discriminate
           || (unfold TOKEN_LIMIT, DSH_TOK_BUFSIZE, INT_MAX; lia)).
    rewrite Heq in Hrun. unfold DSH_TOK_BUFSIZE in *.
    assert (Hmem : done ++ map Some d ++ map Some t ++ Some NUL
                     :: (map Some rest ++ Some NUL :: junk)
                   = (done ++ map Some d ++ map Some t ++ [Some NUL])
                     ++ map Some rest ++ Some NUL :: junk) by same_cells.
    assert (Hsave : S (length done + length d + length t)
                    = length (done ++ map Some d ++ map Some t ++ [Some NUL]))
      by same_length.
    rewrite Hmem, Hsave in Hrun.
    assert (Hhigh' : address
                     + Z.of_nat (length (done ++ map Some d ++ map Some t ++ [Some NUL])
                                 + length rest) <= 2147483647)
      by (rewrite <- Hsave; lia).
    destruct i as [|i].
    + injection Hi as <-.
      pose proof (split_rounds sys granted address rest ts Hruns
                    (done ++ map Some d ++ map Some t ++ [Some NUL]) junk fuel
                    bufsize1 (position + 1) tokens1 w1) as Hsub.
      destruct Hsub as (tokens2 & line2 & w2 & Hrun2 & Htok & _);
        [exact Hlow|exact Hhigh'|lia|lia|exact Hb1|exact Hl1
        |unfold TOKEN_LIMIT, DSH_TOK_BUFSIZE, INT_MAX; lia|].
      rewrite Hrun in Hrun2. injection Hrun2 as <- <- <-.
      replace (Z.to_nat (position + 1)) with (S (Z.to_nat position)) in Htok by lia.
      exists (length d). rewrite Nat.add_0_r. split.
      * rewrite (lookup_of_take _ _ _ _ Htok) by lia.
        rewrite <- (lookup_take_lt tokens1 (S (Z.to_nat position))) by lia.
        rewrite Ht1. apply list_lookup_middle. rewrite length_take. divlia.
      * rewrite drop_app_length. split; [now rewrite take_app_length|].
        rewrite !length_app. simpl. lia.
    + simpl in Hi.
      destruct (IH (done ++ map Some d ++ map Some t ++ [Some NUL]) junk fuel
                  bufsize1 (position + 1) tokens1 w1 tokens' line' w')
        with (i := i) (t := t0) as (o & Hat & Hspan & Hfit);
        try (assumption || lia).
      exists (length d + length t + 1 + o)%nat. split.
      * replace (Z.to_nat position + S i)%nat with (Z.to_nat (position + 1) + i)%nat by lia.
        rewrite Hat. do 3 f_equal. same_length.
      * split.
        -- replace (d ++ t ++ c :: rest) with ((d ++ t ++ [c]) ++ rest) by same_cells.
           rewrite drop_app_add'; [exact Hspan|same_length].
        -- rewrite !length_app. simpl. lia.
Qed.

End TokenSpans.

(** X8: when the line's block lies at addresses an [int] holds (and
    allocations are granted), the passage of the tokens through [int]
    changes nothing: [dsh_split_line] returns an array that reads back as
    the maximal runs of the line, with the end marker after them, and the
    array aliases the line: entry [i] points at the offset [o] of the line
    where the original line holds token [i] as a contiguous span that ends
    within the line. *)
Theorem tokens_are_spans_of_the_line (sys : system) (w : world) (s : list ascii)
  (junk : memblock ascii) :
  generous sys ->
  low_memory sys (length s) ->
  Forall (fun c => c <> NUL) s ->
  exists ts tokens line' w',
    maximal_runs s ts /\
    (forall ts', maximal_runs s ts' -> ts' = ts) /\
    dsh_split_line sys (line_memory s junk) w = Ok (tokens, line') w' /\
    (forall w'', argv_of line' tokens w'' = Ok ts w'') /\
    tokens !! length ts = Some (Some NULL) /\
    forall i t, ts !! i = Some t ->
    exists o,
      tokens !! i = Some (Some (Ptr o)) /\
      take (length t) (drop o s) = t /\
      (o + length t <= length s)%nat.
Proof.
  intros Hgen Hlow Hnul.
  assert (Hlen : Z.of_nat (length s) <= INT_MAX) by (destruct (Hlow 0%nat); lia).
  destruct (split_line_maximal_runs_lemma sys w s junk Hgen Hlow Hnul)
    as (ts & tokens & line' & w' & Hruns & Hrun & Hargv & Hlim & _).
  assert (Huniq : forall ts', maximal_runs s ts' -> ts' = ts).
  { intros ts' Hruns'.
    destruct (dsh_split_line_runs sys Hgen s ts' junk w Hlow Hruns'
                (token_count_fits s ts' Hlen Hruns'))
      as (tokens2 & line2 & w2 & Hrun2 & Hargv2 & _).
    rewrite Hrun in Hrun2. injection Hrun2 as <- <- <-.
    specialize (Hargv w). specialize (Hargv2 w). congruence. }
  destruct (argv_of_end_marker _ _ _ _ _ (Hargv w)) as [Hend _].
  exists ts, tokens, line', w'.
  split; [exact Hruns|]. split; [exact Huniq|]. split; [exact Hrun|].
  split; [exact Hargv|]. split; [exact Hend|].
  intros i t Hi.
  rewrite dsh_split_line_start in Hrun by apply Hgen.
  pose proof (maximal_runs_length _ _ Hruns) as Hcount.
  destruct (Hlow (length (heap_log w))) as [Hlow0 Hlow1].
  destruct (split_rounds_spans sys Hgen (line_address sys (length (heap_log w)))
              s ts Hruns [] junk
              (S (length (line_memory s junk))) DSH_TOK_BUFSIZE 0
              (replicate (Z.to_nat DSH_TOK_BUFSIZE) None)
              (log_request (DSH_TOK_BUFSIZE * sizeof_char_ptr, true) w)
              tokens line' w') with (i := i) (t := t) as (o & Hat & Hspan & Hfit);
    try (assumption || reflexivity || lia);
    try (unfold line_memory; rewrite length_app, length_map; simpl; lia).
  exists o. auto.
Qed.

Lemma tokens_are_spans_of_the_line_witness :
  exists ts tokens line' w',
    maximal_runs [" "; "l"; "s"; " "; " "; "-"; "l"]%char ts /\
    (forall ts', maximal_runs [" "; "l"; "s"; " "; " "; "-"; "l"]%char ts' -> ts' = ts) /\
    dsh_split_line roomy (line_memory [" "; "l"; "s"; " "; " "; "-"; "l"]%char [None])
      (on_stdin [])
    = Ok (tokens, line') w' /\
    (forall w'', argv_of line' tokens w'' = Ok ts w'') /\
    tokens !! length ts = Some (Some NULL) /\
    forall i t, ts !! i = Some t ->
    exists o,
      tokens !! i = Some (Some (Ptr o)) /\
      take (length t) (drop o [" "; "l"; "s"; " "; " "; "-"; "l"]%char) = t /\
      (o + length t <= length [" "; "l"; "s"; " "; " "; "-"; "l"]%char)%nat.
Proof.
  apply (tokens_are_spans_of_the_line roomy (on_stdin [])
           [" "; "l"; "s"; " "; " "; "-"; "l"]%char [None]).
  - intros k bytes. reflexivity.
  - intros k. split; [reflexivity|vm_compute; discriminate].
  - repeat constructor; discriminate.
Defined.

(** ** The launcher: failed calls of waitpid, and what is left alone *)

Lemma load_world {A} (b : memblock A) (i : Z) (w : world) :
  world_of (load b i w) = w.
Proof.
  unfold load. destruct (bool_decide _); [|reflexivity].
  destruct (b !! Z.to_nat i) as [[v|]|]; reflexivity.
Qed.

Lemma string_at_world (cells : memblock ascii) (w : world) :
  world_of (string_at cells w) = w.
Proof.
  induction cells as [|[c|] cells IH]; simpl; try reflexivity.
  destruct (Ascii.eqb c NUL); [reflexivity|]. unfold bind.
  destruct (string_at cells w) as [s w1|h w1]; exact IH.
Qed.

Lemma deref_world (line : memblock ascii) (p : pointer) (w : world) :
  world_of (deref line p w) = w.
Proof. destruct p; [reflexivity|apply string_at_world|reflexivity]. Qed.

Lemma argv_of_world (line : memblock ascii) (args : memblock pointer) (w : world) :
  world_of (argv_of line args w) = w.
Proof.
  induction args as [|[[|o|v]|] args IH]; simpl; try reflexivity. unfold bind.
  pose proof (string_at_world (drop o line) w) as Hs.
  destruct (string_at (drop o line) w) as [s w1|h w1]; simpl in Hs; subst w1;
    [|reflexivity].
  destruct (argv_of line args w) as [rest w2|h w2]; exact IH.
Qed.

Section LaunchEffects.

Variable sys : system.

Lemma wait_loop_world (reports : list (option Z)) :
  forall status w, world_of (wait_loop sys reports status w) = w.
Proof.
  induction reports as [|r reports IH]; intros status w; simpl; [reflexivity|].
  destruct (match r with Some s => Some s | None => status end) as [s|]; [|reflexivity].
  destruct (negb (WIFEXITED sys s) && negb (WIFSIGNALED sys s)); [apply IH|reflexivity].
Qed.

Lemma wait_loop_stale (s : Z) (k : nat) (rest : list (option Z)) (w : world) :
  terminal sys s = false ->
  wait_loop sys (replicate k None ++ rest) (Some s) w = wait_loop sys rest (Some s) w.
Proof.
  unfold terminal. intros Hs. apply Bool.orb_false_iff in Hs as [He Hg].
  induction k as [|k IH]; simpl; [reflexivity|]. now rewrite He, Hg.
Qed.

Lemma dsh_launch_world args line w :
  In (world_of (dsh_launch sys args line w))
     [count_fork w; put_stderr (Perror "dsh") (count_fork w)].
Proof.
  unfold dsh_launch, bind at 1, fork, bind at 1.
  destruct (fork_pid sys (forks w) =? 0).
  - unfold bind at 1. pose proof (load_world args 0 (count_fork w)) as Hl.
    destruct (load args 0 (count_fork w)) as [arg0 w1|h w1]; simpl in Hl; subst w1;
      [|simpl; auto].
    unfold bind at 1, execvp, bind at 1.
    pose proof (deref_world line arg0 (count_fork w)) as Hd.
    destruct (deref line arg0 (count_fork w)) as [file w1|h w1]; simpl in Hd; subst w1;
      [|simpl; auto].
    unfold bind at 1. pose proof (argv_of_world line args (count_fork w)) as Ha.
    destruct (argv_of line args (count_fork w)) as [argv w1|h w1]; simpl in Ha; subst w1;
      [|simpl; auto].
    destruct (execvp_ok sys file); [simpl; auto|]. simpl; auto.
  - destruct (fork_pid sys (forks w) <? 0); [simpl; auto|].
    pose proof (wait_loop_world (wait_reports sys (fork_pid sys (forks w))) None
                  (count_fork w)) as Hw.
    destruct (wait_loop sys _ None (count_fork w)) as [[] w1|h w1]; simpl in Hw; subst w1;
      simpl; auto.
Qed.

End LaunchEffects.

(** X9: [dsh_launch] never looks at what [waitpid] returns.  In the parent
    of a created child, when the first call fails, the loop tests a
    [status] that was never written; and once a stopped child has been
    reported, calls that fail leave [status] as it was, so the loop goes on
    waiting exactly as if they had not been made. *)
Theorem launch_ignores_waitpid_failure (sys : system) (args : memblock pointer)
  (line : memblock ascii) (w : world) :
  0 < fork_pid sys (forks w) ->
  (forall rest,
     wait_reports sys (fork_pid sys (forks w)) = None :: rest ->
     dsh_launch sys args line w = Halt (Undefined IndeterminateRead) (count_fork w)) /\
  (forall s k rest,
     terminal sys s = false ->
     wait_reports sys (fork_pid sys (forks w)) = Some s :: replicate k None ++ rest ->
     dsh_launch sys args line w
     = (do _ <- wait_loop sys rest (Some s); ret 1) (count_fork w)) /\
  (forall s k,
     terminal sys s = false ->
     wait_reports sys (fork_pid sys (forks w)) = Some s :: replicate k None ->
     dsh_launch sys args line w = Halt Blocked (count_fork w)).
Proof.
  intros Hpid. rewrite dsh_launch_parent by exact Hpid. split; [|split].
  - intros rest ->. reflexivity.
  - intros s k rest Hs ->. unfold bind. simpl wait_loop.
    pose proof Hs as Hs'. unfold terminal in Hs'.
    apply Bool.orb_false_iff in Hs' as [-> ->]. simpl.
    now rewrite wait_loop_stale.
  - intros s k Hs ->. unfold bind. simpl wait_loop.
    pose proof Hs as Hs'. unfold terminal in Hs'.
    apply Bool.orb_false_iff in Hs' as [-> ->]. simpl.
    rewrite <- (app_nil_r (replicate k None)), wait_loop_stale by exact Hs.
    reflexivity.
Qed.

Lemma launch_ignores_waitpid_failure_witness :
  dsh_launch unanswered [Some NULL] [] (on_stdin [])
  = Halt Blocked (count_fork (on_stdin [])).
Proof.
  apply (proj2 (proj2 (launch_ignores_waitpid_failure unanswered [Some NULL] []
                         (on_stdin []) eq_refl)) 5247 3%nat).
  - reflexivity.
  - reflexivity.
Defined.

(** X10: what the process that calls [dsh_launch] does itself, however
    the call ends: it calls [fork] exactly once, allocates nothing and does
    not change its working directory; it writes to stderr one [perror]
    line or nothing: the line when [fork] fails, nothing when a child was
    created (what the child writes or reads is not the caller's doing, and
    is not described here). *)
Theorem launch_effects (sys : system) (args : memblock pointer) (line : memblock ascii)
  (w : world) :
  forks (world_of (dsh_launch sys args line w)) = S (forks w) /\
  heap_log (world_of (dsh_launch sys args line w)) = heap_log w /\
  cwd (world_of (dsh_launch sys args line w)) = cwd w /\
  (stderr (world_of (dsh_launch sys args line w)) = stderr w \/
   stderr (world_of (dsh_launch sys args line w)) = stderr w ++ [Perror "dsh"]) /\
  (0 < fork_pid sys (forks w) ->
   stderr (world_of (dsh_launch sys args line w)) = stderr w) /\
  (fork_pid sys (forks w) < 0 ->
   stderr (world_of (dsh_launch sys args line w)) = stderr w ++ [Perror "dsh"]).
Proof.
  assert (Hparent : 0 < fork_pid sys (forks w) ->
                    world_of (dsh_launch sys args line w) = count_fork w).
  { intros Hpid. rewrite dsh_launch_parent by exact Hpid. unfold bind.
    pose proof (wait_loop_world sys (wait_reports sys (fork_pid sys (forks w))) None
                  (count_fork w)) as Hw.
    destruct (wait_loop sys _ None (count_fork w)) as [[] w1|h w1]; exact Hw. }
  assert (Hfailed : fork_pid sys (forks w) < 0 ->
                    world_of (dsh_launch sys args line w)
                    = put_stderr (Perror "dsh") (count_fork w)).
  { intros Hpid. unfold dsh_launch, bind, fork.
    destruct (Z.eqb_spec (fork_pid sys (forks w)) 0) as [|_]; [lia|].
    destruct (Z.ltb_spec (fork_pid sys (forks w)) 0) as [_|]; [reflexivity|lia]. }
  destruct (dsh_launch_world sys args line w) as [Hw|[Hw|[]]]; symmetry in Hw.
  - rewrite Hw. split; [reflexivity|]. split; [reflexivity|]. split; [reflexivity|].
    split; [now left|]. split; [reflexivity|].
    intros Hpid. rewrite <- Hw, (Hfailed Hpid). reflexivity.
  - split; [now rewrite Hw|]. split; [now rewrite Hw|]. split; [now rewrite Hw|].
    split; [right; now rewrite Hw|]. split.
    + intros Hpid. rewrite (Hparent Hpid). reflexivity.
    + intros Hpid. rewrite (Hfailed Hpid). reflexivity.
Qed.

Lemma launch_effects_witness :
  stderr (world_of (dsh_launch roomy [Some NULL] [] (on_stdin []))) = [] /\
  stderr (world_of (dsh_launch tight [Some NULL] [] (on_stdin []))) = [Perror "dsh"].
Proof.
  split.
  - apply (launch_effects roomy [Some NULL] [] (on_stdin [])). reflexivity.
  - apply (launch_effects tight [Some NULL] [] (on_stdin [])). reflexivity.
Defined.

(** ** The loop, for any dispatcher *)

Lemma dsh_loop_with_execute (sys : system) (fuel : nat) :
  forall w, dsh_loop sys fuel w = dsh_loop_with sys (dsh_execute sys) fuel w.
Proof.
  induction fuel as [|fuel IH]; intros w; [reflexivity|].
  simpl. unfold bind.
  destruct (printf prompt w) as [[] w0|]; [|reflexivity].
  destruct (dsh_read_line sys w0) as [line w1|]; [|reflexivity].
  destruct (dsh_split_line sys line w1) as [[args mem] w2|]; [|reflexivity].
  destruct (dsh_execute sys args mem w2) as [status w3|]; [|reflexivity].
  simpl. destruct (status =? 0); [reflexivity|apply IH].
Qed.

Section Loop.

Variable sys : system.
Variable execute : memblock pointer -> memblock ascii -> M Z.

Lemma dsh_loop_with_turn fuel w :
  dsh_loop_with sys execute (S fuel) w
  = (do line <- dsh_read_line sys;
     do parsed <- dsh_split_line sys line;
     let '(args, line) := parsed in
     do status <- execute args line;
     if status =? 0 then ret tt else dsh_loop_with sys execute fuel)
      (put_stdout (Text prompt) w).
Proof.
  simpl. unfold bind, printf.
  destruct (dsh_read_line sys _) as [line w1|]; [|reflexivity].
  destruct (dsh_split_line sys line w1) as [[args mem] w2|]; [|reflexivity].
  destruct (execute args mem w2) as [status w3|]; reflexivity.
Qed.

End Loop.

Lemma low_memory_le (sys : system) (n m : nat) :
  low_memory sys n -> (m <= n)%nat -> low_memory sys m.
Proof. intros H Hm k. destruct (H k). split; lia. Qed.

(** X11: a turn of [dsh_loop], whatever the dispatcher is, when the line
    buffer lies at addresses an [int] holds: it prints the prompt, reads
    one line, and hands the dispatcher a token array that reads back as the
    maximal runs of the part of the line before its first NUL character
    (the whole line when it has none); the loop returns when the
    dispatcher's status is 0 and starts the next turn otherwise, with the
    input after the newline still unread. *)
Theorem loop_turn_dispatches_tokens (sys : system)
  (execute : memblock pointer -> memblock ascii -> M Z) (fuel : nat) (w : world)
  (shown hidden tail : list ascii) (ts : list (list ascii)) :
  generous sys ->
  low_memory sys (length (shown ++ hidden)) ->
  stdin w = (shown ++ hidden) ++ tail -> ends_line tail ->
  Forall (fun c => c <> newline) (shown ++ hidden) ->
  Forall (fun c => c <> NUL) shown ->
  (hidden = [] \/ exists rest, hidden = NUL :: rest) ->
  Z.of_nat (length (shown ++ hidden)) < READ_LIMIT ->
  maximal_runs shown ts ->
  exists args mem w1,
    stdin w1 = drop 1 tail /\ stdout w1 = stdout w ++ [Text prompt] /\
    stderr w1 = stderr w /\ forks w1 = forks w /\ cwd w1 = cwd w /\
    (forall w2, argv_of mem args w2 = Ok ts w2) /\
    dsh_loop_with sys execute (S fuel) w
    = (do status <- execute args mem;
       if status =? 0 then ret tt else dsh_loop_with sys execute fuel) w1.
Proof.
  intros Hgen Hlow Hin Hend Hnl Hnul Hhid Hsz Hruns.
  assert (Hlow' : low_memory sys (length shown))
    by (apply (low_memory_le sys _ _ Hlow); rewrite length_app; lia).
  destruct (dsh_read_line_cases sys Hgen (put_stdout (Text prompt) w) _ tail
              Hin Hend Hnl) as [Hok _].
  destruct (Hok Hsz) as (buffer & w1 & Hread & Htake & Hrest & Hs1 & He1 & Hf1 & Hc1).
  apply memory_of_prefix in Htake.
  assert (Hmem : exists junk, buffer = line_memory shown junk).
  { unfold line_memory. destruct Hhid as [->|[rest ->]].
    - rewrite app_nil_r in Htake. rewrite <- app_assoc in Htake. simpl in Htake. eauto.
    - rewrite map_app, <- !app_assoc in Htake. simpl in Htake. eauto. }
  destruct Hmem as [junk ->].
  assert (Hlim : Z.of_nat (length ts) < TOKEN_LIMIT).
  { apply (token_count_fits shown); [|exact Hruns].
    rewrite length_app in Hsz. unfold READ_LIMIT, INT_MAX, DSH_RL_BUFSIZE in *. lia. }
  destruct (dsh_split_line_runs sys Hgen shown ts junk w1 Hlow' Hruns Hlim)
    as (tokens & mem & w2 & Hsplit & Hargv & (Hs2 & He2 & Hf2 & Hc2) & Hin2).
  exists tokens, mem, w2. simpl in Hs1, He1, Hf1, Hc1.
  split; [congruence|]. split; [congruence|].
  split; [congruence|]. split; [congruence|]. split; [congruence|].
  split; [exact Hargv|].
  rewrite dsh_loop_with_turn. unfold bind at 1. rewrite Hread.
  unfold bind at 1. rewrite Hsplit. reflexivity.
Qed.

Lemma loop_turn_dispatches_tokens_witness :
  exists args mem w1,
    stdin w1 = drop 1 [newline; "p"; "s"]%char /\
    stdout w1 = stdout (on_stdin (["l"; "s"; " "; "-"; "l"; newline; "p"; "s"])%char)
                ++ [Text prompt] /\
    stderr w1 = [] /\ forks w1 = 0%nat /\ cwd w1 = [] /\
    (forall w2, argv_of mem args w2 = Ok [["l"; "s"]; ["-"; "l"]]%char w2) /\
    dsh_loop_with roomy (fun _ _ => ret 1) 1
      (on_stdin (["l"; "s"; " "; "-"; "l"; newline; "p"; "s"])%char)
    = (do status <- (fun _ _ => ret 1) args mem;
       if status =? 0 then ret tt else dsh_loop_with roomy (fun _ _ => ret 1) 0) w1.
Proof.
  apply (loop_turn_dispatches_tokens roomy (fun _ _ => ret 1) 0
           (on_stdin (["l"; "s"; " "; "-"; "l"; newline; "p"; "s"])%char)
           ["l"; "s"; " "; "-"; "l"]%char [] [newline; "p"; "s"]%char
           [["l"; "s"]; ["-"; "l"]]%char).
  - intros k bytes. reflexivity.
  - intros k. split; [reflexivity|vm_compute; discriminate].
  - reflexivity.
  - right. eexists. reflexivity.
  - repeat constructor; discriminate.
  - repeat constructor; discriminate.
  - now left.
  - vm_compute. reflexivity.
  - apply (runs_more [] ["l"; "s"]%char " "%char ["-"; "l"]%char [["-"; "l"]%char]).
    + constructor.
    + discriminate.
    + repeat constructor; discriminate.
    + reflexivity.
    + apply (runs_last [] ["-"; "l"]%char).
      * constructor.
      * discriminate.
      * repeat constructor; discriminate.
Defined.

(** X12: a turn of [dsh_loop] in which [dsh_read_line] or [dsh_split_line]
    is denied memory ends the shell with [exit(EXIT_FAILURE)] in the world
    that function left, right after the diagnostic of the denied request:
    the dispatcher is not called and no further turn is made, whatever the
    dispatcher is. *)
Theorem loop_stops_on_allocation_failure (sys : system)
  (execute : memblock pointer -> memblock ascii -> M Z) (fuel : nat) (w : world) :
  (denied_between (put_stdout (Text prompt) w)
     (world_of (dsh_read_line sys (put_stdout (Text prompt) w))) ->
   dsh_loop_with sys execute (S fuel) w
   = Halt (Exit EXIT_FAILURE) (world_of (dsh_read_line sys (put_stdout (Text prompt) w))) /\
   fatal_allocation (put_stdout (Text prompt) w)
     (world_of (dsh_read_line sys (put_stdout (Text prompt) w)))) /\
  (forall line w1,
     dsh_read_line sys (put_stdout (Text prompt) w) = Ok line w1 ->
     denied_between w1 (world_of (dsh_split_line sys line w1)) ->
     dsh_loop_with sys execute (S fuel) w
     = Halt (Exit EXIT_FAILURE) (world_of (dsh_split_line sys line w1)) /\
     fatal_allocation w1 (world_of (dsh_split_line sys line w1))).
Proof.
  split.
  - intros Hden.
    destruct (dsh_read_line_safe sys (put_stdout (Text prompt) w)) as [_ Hread].
    destruct (denied_is_fatal _ _ Hread Hden) as (w' & Hrun & Hf).
    rewrite dsh_loop_with_turn. unfold bind at 1. rewrite Hrun. simpl. auto.
  - intros line w1 Hline Hden.
    destruct (dsh_split_line_safe sys line w1) as [_ Hsplit].
    destruct (denied_is_fatal _ _ Hsplit Hden) as (w' & Hrun & Hf).
    rewrite dsh_loop_with_turn. unfold bind at 1. rewrite Hline.
    unfold bind at 1. rewrite Hrun. simpl. auto.
Qed.

Lemma loop_stops_on_allocation_failure_witness :
  (dsh_loop_with tight (fun _ _ => ret 1) 2 (on_stdin (replicate 1024 "a"%char))
   = Halt (Exit EXIT_FAILURE)
       (world_of (dsh_read_line tight
                    (put_stdout (Text prompt) (on_stdin (replicate 1024 "a"%char))))) /\
   fatal_allocation (put_stdout (Text prompt) (on_stdin (replicate 1024 "a"%char)))
     (world_of (dsh_read_line tight
                  (put_stdout (Text prompt) (on_stdin (replicate 1024 "a"%char)))))) /\
  (exists line w1,
     dsh_read_line tight (put_stdout (Text prompt) (on_stdin many_tokens)) = Ok line w1 /\
     dsh_loop_with tight (fun _ _ => ret 1) 2 (on_stdin many_tokens)
     = Halt (Exit EXIT_FAILURE) (world_of (dsh_split_line tight line w1)) /\
     fatal_allocation w1 (world_of (dsh_split_line tight line w1))).
Proof.
  split.
  - apply (proj1 (loop_stops_on_allocation_failure tight (fun _ _ => ret 1) 1
                    (on_stdin (replicate 1024 "a"%char)))).
    exists 2048.
    assert (Hlog : heap_log (world_of (dsh_read_line tight
                     (put_stdout (Text prompt) (on_stdin (replicate 1024 "a"%char)))))
                   = [(1024, true); (2048, false)]) by (vm_compute; reflexivity).
    rewrite Hlog. apply list_elem_of_further, list_elem_of_here.
  - assert (Hrun : exists line w1,
               dsh_read_line tight (put_stdout (Text prompt) (on_stdin many_tokens))
               = Ok line w1 /\
               heap_log w1 = [(1024, true)] /\
               heap_log (world_of (dsh_split_line tight line w1))
               = [(1024, true); (512, true); (1024, true); (1536, false)]).
    { eexists _, _. split; [vm_compute; reflexivity|]. split; vm_compute; reflexivity. }
    destruct Hrun as (line & w1 & Hread & Hlog1 & Hlog).
    exists line, w1. split; [exact Hread|].
    apply (proj2 (loop_stops_on_allocation_failure tight (fun _ _ => ret 1) 1
                    (on_stdin many_tokens)) line w1 Hread).
    exists 1536. rewrite Hlog1, Hlog. simpl.
    apply list_elem_of_further, list_elem_of_further, list_elem_of_here.
Defined.

(** X13: at the end of the input stream [dsh_read_line] hands back the
    empty line, so the loop does not end by itself: with a dispatcher that
    answers an empty command with a nonzero status and leaves the world as
    it is, every turn prompts again, and no number of turns makes
    [dsh_loop] return. *)
Theorem loop_spins_at_end_of_stream (sys : system)
  (execute : memblock pointer -> memblock ascii -> M Z) (fuel : nat) :
  generous sys ->
  (forall args mem w, args !! 0%nat = Some (Some NULL) ->
     exists status, status <> 0 /\ execute args mem w = Ok status w) ->
  forall w, stdin w = [] ->
  exists w', dsh_loop_with sys execute fuel w = Halt Unfinished w' /\
             stdin w' = [] /\
             stdout w' = stdout w ++ replicate fuel (Text prompt) /\
             stderr w' = stderr w /\ forks w' = forks w /\ cwd w' = cwd w.
Proof.
  intros Hgen Hexec. induction fuel as [|fuel IH]; intros w Hin.
  - exists w. simpl. rewrite app_nil_r. repeat split. exact Hin.
  - destruct (dsh_read_line_cases sys Hgen (put_stdout (Text prompt) w) [] []
                Hin (or_introl eq_refl) (Forall_nil_2 _)) as [Hok _].
    destruct (Hok ltac:(vm_compute; reflexivity))
      as (buffer & w1 & Hread & Htake & Hrest & Hs1 & He1 & Hf1 & Hc1).
    apply memory_of_prefix in Htake. simpl in Htake.
    destruct (dsh_split_line_blank sys Hgen [] (drop 1 buffer) w1 (Forall_nil_2 _))
      as (tokens & mem & w2 & Hsplit & Hargv & (Hs2 & He2 & Hf2 & Hc2) & Hin2).
    unfold line_memory in Hsplit. simpl in Hsplit. rewrite <- Htake in Hsplit.
    destruct (argv_of_end_marker _ _ _ _ _ (Hargv w2)) as [Hend0 _].
    destruct (Hexec tokens mem w2 Hend0) as (status & Hne & Hrun).
    rewrite dsh_loop_with_turn. unfold bind at 1. rewrite Hread.
    unfold bind at 1. rewrite Hsplit. unfold bind at 1. rewrite Hrun.
    apply Z.eqb_neq in Hne. rewrite Hne.
    simpl in Hs1, He1, Hf1, Hc1, Hrest.
    destruct (IH w2) as (w' & Hloop & Hin' & Hout & Herr & Hfk & Hcwd); [congruence|].
    exists w'. split; [exact Hloop|]. split; [exact Hin'|].
    split; [|split; [congruence|split; congruence]].
    rewrite Hout, Hs2, Hs1, <- app_assoc. reflexivity.
Qed.

Lemma loop_spins_at_end_of_stream_witness :
  exists w', dsh_loop_with roomy (fun _ _ => ret 1) 3 (on_stdin []) = Halt Unfinished w' /\
             stdin w' = [] /\
             stdout w' = stdout (on_stdin []) ++ replicate 3 (Text prompt) /\
             stderr w' = stderr (on_stdin []) /\ forks w' = forks (on_stdin []) /\
             cwd w' = cwd (on_stdin []).
Proof.
  apply (loop_spins_at_end_of_stream roomy (fun _ _ => ret 1) 3).
  - intros k bytes. reflexivity.
  - intros args mem w _. exists 1. split; [lia|reflexivity].
  - reflexivity.
Defined.

(** ** The tokenizer followed by the launcher *)

(** X14: when the line's block lies at addresses an [int] holds, the
    token array of [dsh_split_line] is the argument vector of
    [dsh_launch]: in the child, for a line whose maximal runs are
    [t :: ts], the launcher asks [execvp] for the program named by the
    first run with all the runs as its arguments; when that fails the
    child reports it and ends with [exit(EXIT_FAILURE)], and in neither
    case does the child return to the loop. *)
Theorem child_executes_the_tokens (sys : system) (s : list ascii) (t : list ascii)
  (ts : list (list ascii)) (junk : memblock ascii) (w : world) :
  generous sys ->
  low_memory sys (length s) ->
  maximal_runs s (t :: ts) ->
  Z.of_nat (length (t :: ts)) < TOKEN_LIMIT ->
  fork_pid sys (forks w) = 0 ->
  exists tokens line' w1,
    dsh_split_line sys (line_memory s junk) w = Ok (tokens, line') w1 /\
    dsh_launch sys tokens line' w1
    = if execvp_ok sys t then Halt (Exec t (t :: ts)) (count_fork w1)
      else Halt (Exit EXIT_FAILURE) (put_stderr (Perror "dsh") (count_fork w1)).
Proof.
  intros Hgen Hlow Hruns Hlim Hpid.
  destruct (dsh_split_line_runs sys Hgen s (t :: ts) junk w Hlow Hruns Hlim)
    as (tokens & line' & w1 & Hsplit & Hargv & (_ & _ & Hf & _) & _).
  exists tokens, line', w1. split; [exact Hsplit|].
  destruct (argv_of_head _ _ _ _ _ _ (Hargv w1)) as (o & Hhead & Hfile).
  unfold dsh_launch, bind at 1, fork. rewrite Hf, Hpid. simpl Z.eqb. cbv iota.
  unfold bind at 1, bind at 1. change 0 with (Z.of_nat 0).
  rewrite (load_lookup _ _ _ _ Hhead).
  unfold execvp, bind. simpl deref. rewrite Hfile, Hargv.
  destruct (execvp_ok sys t); reflexivity.
Qed.

Lemma child_executes_the_tokens_witness :
  exists tokens line' w1,
    dsh_split_line in_child (line_memory ["l"; "s"; " "; "-"; "l"]%char []) (on_stdin [])
    = Ok (tokens, line') w1 /\
    dsh_launch in_child tokens line' w1
    = if execvp_ok in_child ["l"; "s"]%char
      then Halt (Exec ["l"; "s"]%char [["l"; "s"]; ["-"; "l"]]%char) (count_fork w1)
      else Halt (Exit EXIT_FAILURE) (put_stderr (Perror "dsh") (count_fork w1)).
Proof.
  apply (child_executes_the_tokens in_child ["l"; "s"; " "; "-"; "l"]%char
           ["l"; "s"]%char [["-"; "l"]%char] [] (on_stdin [])).
  - intros k bytes. reflexivity.
  - intros k. split; [reflexivity|vm_compute; discriminate].
  - apply (runs_more [] ["l"; "s"]%char " "%char ["-"; "l"]%char [["-"; "l"]%char]).
    + constructor.
    + discriminate.
    + repeat constructor; discriminate.
    + reflexivity.
    + apply (runs_last [] ["-"; "l"]%char).
      * constructor.
      * discriminate.
      * repeat constructor; discriminate.
  - vm_compute. reflexivity.
  - reflexivity.
Defined.

(** ** The tokenizer on a block without terminator *)

Lemma span_unterminated keep set (cells : memblock ascii) w :
  unterminated_from 0 cells ->
  span keep set cells w = Halt (Undefined OutOfBoundsLoad) w \/
  exists n, span keep set cells w = Ok n w /\ (n < length cells)%nat.
Proof.
  induction cells as [|x cells IH]; intros Hun; [now left|].
  destruct (Hun 0%nat ltac:(simpl; lia)) as (c & Hc & Hn). simpl in Hc.
  injection Hc as ->. simpl.
  destruct (Ascii.eqb_spec c NUL) as [|_]; [contradiction|].
  destruct (Bool.eqb (char_in set c) keep).
  - unfold bind. destruct IH as [->|(n & -> & Hlt)].
    + intros i Hi. apply (Hun (S i)). simpl. lia.
    + now left.
    + right. exists (S n). split; [reflexivity|simpl; lia].
  - right. exists 0%nat. split; [reflexivity|simpl; lia].
Qed.

Lemma unterminated_drop p (line : memblock ascii) :
  unterminated_from p line -> unterminated_from 0 (drop p line).
Proof.
  intros Hun i Hi. rewrite length_drop in Hi. rewrite lookup_drop.
  apply Hun. lia.
Qed.

Lemma strtok_unterminated (line : memblock ascii) p w :
  unterminated_from p line ->
  match strtok line NULL DSH_TOK_DELIM (Ptr p) w with
  | Ok (token, line', save) w' =>
    w' = w /\ length line' = length line /\
    exists s p', token = Ptr s /\ save = Ptr p' /\ (s < p')%nat /\
                 (p < p' <= length line)%nat /\
                 unterminated_from p' line'
  | Halt h w' => h = Undefined OutOfBoundsLoad /\ w' = w
  end.
Proof.
  intros Hun. unfold strtok, strspn, strcspn, bind at 1.
  destruct (span_unterminated true DSH_TOK_DELIM (drop p line) w
              (unterminated_drop _ _ Hun)) as [->|(n & -> & Hn)]; [now split|].
  rewrite length_drop in Hn.
  destruct (Hun (p + n)%nat ltac:(lia)) as (c & Hc & Hnul).
  unfold bind at 1. rewrite (load_lookup _ _ _ _ Hc).
  destruct (Ascii.eqb_spec c NUL) as [|_]; [contradiction|].
  assert (Hun1 : unterminated_from (p + n) line).
  { intros i Hi. apply Hun. lia. }
  unfold bind at 1.
  destruct (span_unterminated false DSH_TOK_DELIM (drop (p + n) line) w
              (unterminated_drop _ _ Hun1)) as [->|(m & -> & Hm)]; [now split|].
  rewrite length_drop in Hm.
  destruct (Hun (p + n + m)%nat ltac:(lia)) as (c2 & Hc2 & Hnul2).
  unfold bind at 1. rewrite (load_lookup _ _ _ _ Hc2).
  destruct (Ascii.eqb_spec c2 NUL) as [|_]; [contradiction|].
  unfold bind, store. rewrite bool_decide_eq_true_2 by lia.
  rewrite Nat2Z.id. simpl. split; [reflexivity|].
  rewrite length_insert. split; [reflexivity|].
  eexists _, _. split; [reflexivity|]. split; [reflexivity|]. split; [lia|].
  split; [lia|].
  intros i Hi. rewrite length_insert in Hi.
  rewrite list_lookup_insert_ne by lia. apply Hun. lia.
Qed.

Section Unterminated.

Variable sys : system.
Hypothesis granted : generous sys.
Variable address : Z.

Lemma strtok_as_int_unterminated (line : memblock ascii) p w :
  no_null_alias address (length line) ->
  unterminated_from p line ->
  match strtok_as_int address line NULL DSH_TOK_DELIM (Ptr p) w with
  | Ok (token, line', save) w' =>
    w' = w /\ length line' = length line /\ token <> NULL /\
    exists p', save = Ptr p' /\ (p < p' <= length line)%nat /\
               unterminated_from p' line'
  | Halt h w' => h = Undefined OutOfBoundsLoad /\ w' = w
  end.
Proof.
  intros Hno Hun. unfold strtok_as_int, bind.
  pose proof (strtok_unterminated line p w Hun) as Hs.
  destruct (strtok line NULL DSH_TOK_DELIM (Ptr p) w) as [[[token line'] save] w'|h w'];
    [|exact Hs].
  destruct Hs as (-> & Hll & s & p' & -> & -> & Hs & Hp' & Hun').
  split; [reflexivity|]. split; [exact Hll|]. split; [|eauto].
  rewrite Hll. apply through_int_no_alias; [exact Hno|lia].
Qed.

Lemma split_loop_unterminated (fuel : nat) :
  forall bufsize position tokens token line p w,
  token <> NULL ->
  no_null_alias address (length line) ->
  unterminated_from p line -> (p <= length line)%nat ->
  (length line + 1 <= fuel + p)%nat ->
  0 <= position < bufsize ->
  Z.of_nat (length tokens) = bufsize ->
  bufsize <= position + DSH_TOK_BUFSIZE ->
  Z.of_nat (length line) - Z.of_nat p + position + 2 * DSH_TOK_BUFSIZE <= INT_MAX ->
  exists w',
    split_loop sys address fuel bufsize position tokens token line (Ptr p) w
    = Halt (Undefined OutOfBoundsLoad) w' /\ stderr w' = stderr w.
Proof.
  induction fuel as [|fuel IH];
    intros bufsize position tokens token line p w Hnn Hno Hun Hp Hfuel Hpos Hlen Hbuf Hfit;
    [lia|].
  rewrite split_loop_step by exact Hnn. unfold bind at 1.
  rewrite split_iteration_eq by (unfold DSH_TOK_BUFSIZE, INT_MAX in *; lia || assumption).
  cbv zeta.
  set (stored := <[Z.to_nat position := Some token]> tokens).
  assert (Hslen : length stored = length tokens) by apply length_insert.
  assert (Hnext : forall bufsize1 tokens1 w1,
    0 <= position + 1 < bufsize1 -> Z.of_nat (length tokens1) = bufsize1 ->
    bufsize1 <= position + 1 + DSH_TOK_BUFSIZE ->
    exists w', match
        (do next <- strtok_as_int address line NULL DSH_TOK_DELIM (Ptr p);
         let '(token, line, save) := next in
         ret (bufsize1, position + 1, tokens1, token, line, save)) w1
      with
      | Ok a w' =>
        (let '(bufsize, position, tokens, token, line, save) := a in
         split_loop sys address fuel bufsize position tokens token line save) w'
      | Halt h w' => Halt h w'
      end = Halt (Undefined OutOfBoundsLoad) w' /\ stderr w' = stderr w1).
  { intros bufsize1 tokens1 w1 Hpos1 Hlen1 Hbuf1. unfold bind.
    pose proof (strtok_as_int_unterminated line p w1 Hno Hun) as Hs.
    destruct (strtok_as_int address line NULL DSH_TOK_DELIM (Ptr p) w1)
      as [[[token' line'] save'] w2|h w2].
    - destruct Hs as (-> & Hll & Hnn' & p' & -> & Hp' & Hun').
      unfold ret. apply IH; try assumption; rewrite ?Hll; (assumption || lia).
    - destruct Hs as [-> ->]. eauto. }
  unfold DSH_TOK_BUFSIZE, INT_MAX in *.
  destruct (Z.ltb_spec (position + 1) bufsize) as [Hlt|Hge].
  - apply Hnext; lia.
  - destruct (Z.leb_spec (bufsize + 64) 2147483647) as [_|Hover]; [|lia].
    rewrite granted.
    destruct (Hnext (bufsize + 64) (resize (Z.to_nat (bufsize + 64)) None stored)
                (log_request ((bufsize + 64) * sizeof_char_ptr, true) w))
      as (w' & Hrun & Herr); try lia.
    { rewrite length_resize. lia. }
    exists w'. split; [exact Hrun|exact Herr].
Qed.

End Unterminated.

(** X15: [dsh_split_line] relies on the terminator of its line: on a block
    that holds no NUL character it returns no token array and, with every
    allocation granted, ends on a load past the end of the block, without
    a diagnostic.  (The block is taken not to hold a cell whose address has
    its low 32 bits all zero: a token at such a cell reaches the loop as
    NULL and ends it.) *)
Theorem split_line_needs_terminator (sys : system) (s : list ascii) (w : world) :
  generous sys ->
  no_null_alias (line_address sys (length (heap_log w))) (length s) ->
  Forall (fun c => c <> NUL) s ->
  Z.of_nat (length s) + 2 * DSH_TOK_BUFSIZE <= INT_MAX ->
  exists w', dsh_split_line sys (map Some s) w = Halt (Undefined OutOfBoundsLoad) w' /\
             stderr w' = stderr w.
Proof.
  intros Hgen Hno Hnul Hfit.
  assert (Hun : unterminated_from 0 (map Some s)).
  { intros i [_ Hi]. rewrite length_map in Hi.
    destruct (lookup_lt_is_Some_2 s i Hi) as [c Hc].
    exists c. rewrite list_lookup_fmap, Hc. split; [reflexivity|].
    rewrite Forall_forall in Hnul. apply Hnul. eapply list_elem_of_lookup_2, Hc. }
  rewrite dsh_split_line_start by apply Hgen. unfold rounds, bind.
  set (address := line_address sys (length (heap_log w))) in *.
  rewrite <- (length_map Some s) in Hno.
  pose proof (strtok_as_int_unterminated address (map Some s) 0
                (log_request (DSH_TOK_BUFSIZE * sizeof_char_ptr, true) w) Hno Hun) as Hs.
  destruct (strtok_as_int address (map Some s) NULL DSH_TOK_DELIM (Ptr 0) _)
    as [[[token' line'] save'] w2|h w2]; [|destruct Hs as [-> ->]; eauto].
  destruct Hs as (-> & Hll & Hnn & p' & -> & Hp' & Hun').
  destruct (split_loop_unterminated sys Hgen address (S (length (map Some s)))
              DSH_TOK_BUFSIZE 0
              (replicate (Z.to_nat DSH_TOK_BUFSIZE) None) token' line' p'
              (log_request (DSH_TOK_BUFSIZE * sizeof_char_ptr, true) w))
    as (w' & Hrun & Herr);
    try assumption; try reflexivity; rewrite ?Hll, ?length_map in *;
    try assumption;
    try (unfold DSH_TOK_BUFSIZE, INT_MAX in *; lia).
  exists w'. split; [exact Hrun|exact Herr].
Qed.

Lemma split_line_needs_terminator_witness :
  exists w', dsh_split_line roomy (map Some ["l"; "s"; " "; "-"; "l"]%char) (on_stdin [])
             = Halt (Undefined OutOfBoundsLoad) w' /\
             stderr w' = stderr (on_stdin []).
Proof.
  apply (split_line_needs_terminator roomy ["l"; "s"; " "; "-"; "l"]%char (on_stdin [])).
  - intros k bytes. reflexivity.
  - intros o Ho. change (line_address roomy (length (heap_log (on_stdin [])))) with low_heap.
    unfold low_heap, INT_MODULUS. simpl length in Ho. rewrite Z.mod_small by lia. lia.
  - repeat constructor; discriminate.
  - vm_compute. discriminate.
Defined.

(** A token at a cell whose address has its low 32 bits all zero: on the
    unterminated block "ab cd " at address 3 * 2^32 - 3, the second token
    (offset 3) reaches the loop as NULL, so the loop ends there and the
    function returns an array with the first token only. *)
Example scenario_token_becomes_NULL :
  exists tokens line' w',
    dsh_split_line roomy_boundary (map Some ["a"; "b"; " "; "c"; "d"; " "]%char)
      (on_stdin [])
    = Ok (tokens, line') w' /\
    take 2 tokens = [Some (Wild 18446744073709551613); Some NULL] /\
    line' = [Some "a"; Some "b"; Some NUL; Some "c"; Some "d"; Some NUL]%char.
Proof. eexists _, _, _. split; [vm_compute; reflexivity|]. split; reflexivity. Qed.

(** ** Splitting, joining, splitting again *)

Lemma join_length (s : list ascii) (ts : list (list ascii)) :
  maximal_runs s ts -> (length (join ts) <= length s)%nat.
Proof.
  induction 1 as [d Hd|d t Hd Hne Ht|d t c rest ts Hd Hne Ht Hc Hruns IH].
  - simpl. lia.
  - simpl. rewrite length_app. lia.
  - destruct ts as [|t' ts].
    + simpl. rewrite !length_app. simpl. lia.
    + rewrite join_cons. rewrite !length_app. cbn [length].
      rewrite ?length_app. cbn [length]. lia.
Qed.

(** X16: when the line's block lies at addresses an [int] holds (and
    allocations are granted), the tokens [dsh_split_line] returns, joined
    by single spaces, form a string that neither starts nor ends with a
    delimiter and has no two adjacent delimiters, and splitting that
    string, in a block that lies as low, returns the same tokens. *)
Theorem split_join_idempotent (sys : system) (w w2 : world) (s : list ascii)
  (junk junk2 : memblock ascii) :
  generous sys ->
  low_memory sys (length s) ->
  Forall (fun c => c <> NUL) s ->
  exists ts tokens line' w',
    dsh_split_line sys (line_memory s junk) w = Ok (tokens, line') w' /\
    (forall w'', argv_of line' tokens w'' = Ok ts w'') /\
    starts_with_delim (join ts) = false /\
    ends_with_delim (join ts) = false /\
    has_adjacent_delims (join ts) = false /\
    exists tokens2 line2 w2',
      dsh_split_line sys (line_memory (join ts) junk2) w2 = Ok (tokens2, line2) w2' /\
      (forall w'', argv_of line2 tokens2 w'' = Ok ts w'').
Proof.
  intros Hgen Hlow Hnul.
  destruct (split_line_maximal_runs_lemma sys w s junk Hgen Hlow Hnul)
    as (ts & tokens & line' & w' & Hruns & Hrun & Hargv & Hlim & _).
  pose proof (maximal_runs_tokens _ _ Hruns) as Hts.
  exists ts, tokens, line', w'. split; [exact Hrun|]. split; [exact Hargv|].
  split; [now apply join_starts|]. split; [now apply join_ends|].
  split; [now apply join_adjacent|].
  destruct (dsh_split_line_runs sys Hgen (join ts) ts junk2 w2
              (low_memory_le sys _ _ Hlow (join_length s ts Hruns))
              (join_runs ts Hts) Hlim)
    as (tokens2 & line2 & w2' & Hrun2 & Hargv2 & _).
  eauto.
Qed.

Lemma split_join_idempotent_witness :
  exists ts tokens line' w',
    dsh_split_line roomy (line_memory [" "; "l"; "s"; " "; " "; "-"; "l"]%char [None])
      (on_stdin [])
    = Ok (tokens, line') w' /\
    (forall w'', argv_of line' tokens w'' = Ok ts w'') /\
    starts_with_delim (join ts) = false /\
    ends_with_delim (join ts) = false /\
    has_adjacent_delims (join ts) = false /\
    exists tokens2 line2 w2',
      dsh_split_line roomy (line_memory (join ts) []) (on_stdin [])
      = Ok (tokens2, line2) w2' /\
      (forall w'', argv_of line2 tokens2 w'' = Ok ts w'').
Proof.
  apply (split_join_idempotent roomy (on_stdin []) (on_stdin [])
           [" "; "l"; "s"; " "; " "; "-"; "l"]%char [None] []).
  - intros k bytes. reflexivity.
  - intros k. split; [reflexivity|vm_compute; discriminate].
  - repeat constructor; discriminate.
Defined.
